(** * Diff rendering in HTML for Rietveld: a shallow embedding of
    [codereview/engine.py] and the properties of its rendering pipeline.

    Python integers are modelled as [Z], byte strings as [string], lists as
    [list], dictionaries keyed by line number as [gmap Z], generators as the
    finite trace of the values they yield together with the way they end
    (normal exhaustion or a raised exception). *)

From Stdlib Require Import ZArith Ascii String Decimal DecimalString DecimalZ DecimalPos.
From stdpp Require Import base list strings gmap.

Local Open Scope Z_scope.

(** ** Python values used by the module *)

(** The exceptions the module can raise. *)
Inductive exn : Type :=
  | TypeError                       (* [None + 1] in [_ShortenBuffer] *)
  | AttributeError                  (* attribute access on [None] *)
  | IndexError                      (* list index out of range *)
  | AssertionError (msg : string)   (* a failed [assert] *)
  | FetchError (msg : string).      (* [class FetchError(Exception)] *)

(** The double quote character, and a string wrapped in double quotes. *)
Definition dq : string := String "034"%char "".
Definition quoted (s : string) : string := dq +:+ s +:+ dq.

(** [str(n)] and the [%d] / [%s] conversion of an integer. *)
Definition str (n : Z) : string := NilZero.string_of_int (Z.to_int n).

(** [len(s)] for a string. *)
Definition slen (s : string) : Z := Z.of_nat (String.length s).

(** [len(l)] for a list. *)
Definition len {A} (l : list A) : Z := Z.of_nat (length l).

(** [s.startswith(p)], returning the remainder of [s] after [p]. *)
Fixpoint strip_prefix (p s : string) : option string :=
  match p with
  | EmptyString => Some s
  | String a p' =>
      match s with
      | EmptyString => None
      | String b s' => if Ascii.eqb a b then strip_prefix p' s' else None
      end
  end.

Definition startswith (s p : string) : bool :=
  match strip_prefix p s with Some _ => true | None => false end.

(** [s.endswith(p)]. *)
Definition endswith (s p : string) : bool :=
  startswith (String.rev s) (String.rev p).

(** [s[n:]] for [0 <= n]. *)
Fixpoint sdrop (n : nat) (s : string) : string :=
  match n, s with
  | O, _ => s
  | S n', String _ s' => sdrop n' s'
  | S _, EmptyString => EmptyString
  end.

(** [s.replace(c, r)] for a one-character [c]. *)
Fixpoint replace_char (c : ascii) (r : string) (s : string) : string :=
  match s with
  | EmptyString => ""
  | String a s' =>
      if Ascii.eqb a c then r +:+ replace_char c r s'
      else String a (replace_char c r s')
  end.

(** [l[:n]], [l[n:]] and [l[i:j]] with Python's treatment of negative and
    out-of-range bounds. *)
Definition slice_bound {A} (l : list A) (n : Z) : nat :=
  if n <? 0 then Z.to_nat (len l + n) else Z.to_nat n.
Definition slice_to {A} (l : list A) (n : Z) : list A :=
  take (slice_bound l n) l.
Definition slice_from {A} (l : list A) (n : Z) : list A :=
  drop (slice_bound l n) l.
Definition slice {A} (l : list A) (i j : Z) : list A :=
  drop (slice_bound l i) (take (slice_bound l j) l).

(** [''.join(l)]. *)
Fixpoint join (l : list string) : string :=
  match l with
  | [] => ""
  | s :: l' => s +:+ join l'
  end.

(** [' ' * n]. *)
Fixpoint spaces (n : nat) : string :=
  match n with
  | O => ""
  | S n' => String " "%char (spaces n')
  end.

(** ** Generators

    A generator of [Y] that computes an [X] on the way: the values yielded so
    far, and either the exception that ended it or its result. *)
Definition Gen (Y X : Type) : Type := list Y * (exn + X).

Definition gret {Y X} (x : X) : Gen Y X := ([], inr x).
Definition yield {Y} (y : Y) : Gen Y unit := ([y], inr tt).
Definition raise {Y X} (e : exn) : Gen Y X := ([], inl e).
Definition gbind {Y X X'} (m : Gen Y X) (f : X -> Gen Y X') : Gen Y X' :=
  match m with
  | (ys, inl e) => (ys, inl e)
  | (ys, inr x) => let '(ys', r) := f x in (ys ++ ys', r)
  end.

Notation "x <- m ;; k" := (gbind m (fun x => k))
  (at level 100, m at next level, right associativity).
Notation "m ;;; k" := (gbind m (fun _ => k))
  (at level 100, right associativity).

(** [for t in l: yield t]. *)
Definition yield_all {Y} (l : list Y) : Gen Y unit := (l, inr tt).

(** The values a generator yields, and the way it ends. *)
Definition yielded {Y X} (g : Gen Y X) : list Y := fst g.
Definition outcome {Y X} (g : Gen Y X) : exn + X := snd g.
Definition finished {Y} (g : Gen Y unit) : Prop := snd g = inr tt.

(** Re-yield every value of [g] through [f] ([for t in g: yield f(t)]). *)
Definition gmap_yield {Y Y' X} (f : Y -> Y') (g : Gen Y X) : Gen Y' X :=
  (f <$> fst g, snd g).

(** ** [_ComputeLineCounts] *)

(** A chunk as returned by [patching.ParsePatch]:
    [((old_a, old_b), (new_a, new_b), old_lines, new_lines)]. *)
Definition chunk : Type := (Z * Z) * (Z * Z) * list string * list string.

Definition _ComputeLineCounts (old_lines : list string) (chunks : list chunk)
  : Z * Z :=
  let old_len := len old_lines in
  let new_len := old_len in
  let new_len :=
    match last chunks with
    | Some ((old_a, old_b), (new_a, new_b), _, _) => new_len + (new_b - old_b)
    | None => new_len
    end in
  (old_len, new_len).

(** ** [_MakeUrl] and [FetchBase] *)

(** [urlparse.urlparse] of the Python library: the six components
    [(scheme, netloc, path, params, query, fragment)] of a URL. *)
Class UrlLib : Type :=
  urlparse : string -> string * string * string * string * string * string.

Definition _MakeUrl `{UrlLib} (base filename : string) (rev : option Z)
  : exn + string :=
  let '(scheme, netloc, path, params, query, fragment) := urlparse base in
  if endswith netloc ".googlecode.com" then
    match rev with
    | None => inl (AssertionError "Can't access googlecode.com without a revision")
    | Some r =>
        if startswith path "/svn/" then
          let path := sdrop 5 path in
          inr (scheme +:+ "://" +:+ netloc +:+ "/svn-history/r" +:+ str r
               +:+ "/" +:+ path +:+ "/" +:+ filename)
        else inl (AssertionError "Malformed googlecode.com URL")
    end
  else
    let url := base in
    let url := if endswith url "/" then url else url +:+ "/" in
    let url := url +:+ filename in
    let url := match rev with
               | Some r => url +:+ "?rev=" +:+ str r
               | None => url
               end in
    inr url.

(** [models.Patch]: the object identity, the file name and the lines of the
    patch text. *)
Record Patch : Type := mkPatch {
  patch_id : Z;
  patch_filename : string;
  patch_lines : list string
}.

Global Instance Patch_eq_dec : EqDecision Patch.
Proof. solve_decision. Defined.

(** [models.Content]. *)
Record Content : Type := mkContent {
  content_text : string;
  content_parent : Patch;
  content_is_complete : bool
}.

(** What [FetchBase] does to the outside world: the URLs handed to
    [urlfetch.fetch] and the messages handed to [logging]. *)
Inductive log_level : Type := LogError | LogInfo.
Record Effects : Type := mkEffects {
  fetched : list string;
  logged : list (log_level * string)
}.

(** The services [FetchBase] calls. *)
Class FetchServices : Type := {
  (** [patching.ParseRevision]: the revision in the patch header, if any. *)
  ParseRevision : list string -> option Z;
  (** [db.Link(base)] raises [BadValueError] exactly when this is [false]. *)
  Link_valid : string -> bool;
  (** [urlfetch.fetch(url)]: an exception (class name, message) or a response
      (status code, content). *)
  urlfetch_fetch : string -> (string * string) + (Z * string);
  (** [db.Text(text, encoding='utf-8')], [None] on [UnicodeDecodeError], and
      [db.Text(text, encoding='latin-1')]. *)
  Text_utf8 : string -> option string;
  Text_latin1 : string -> string
}.

Definition _ToText `{FetchServices} (lines : list string) : string :=
  let text := join lines in
  match Text_utf8 text with
  | Some t => t
  | None => Text_latin1 text
  end.

Definition FetchBase `{UrlLib} `{FetchServices} (base : string) (patch : Patch)
  : Effects * (exn + Content) :=
  let filename := patch_filename patch in
  let lines := patch_lines patch in
  let rev := ParseRevision lines in
  if bool_decide (rev = Some 0) then
    (mkEffects [] [], inr (mkContent "" patch false))
  else if negb (Link_valid base) then
    let msg := "Invalid base URL: " +:+ base in
    (mkEffects [] [(LogError, msg)], inl (FetchError msg))
  else
    match _MakeUrl base filename rev with
    | inl e => (mkEffects [] [], inl e)
    | inr url =>
        let info := (LogInfo, "Fetching " +:+ url) in
        match urlfetch_fetch url with
        | inl (cls, err) =>
            let msg := "Error fetching " +:+ url +:+ ": " +:+ cls +:+ ": " +:+ err in
            (mkEffects [url] [info; (LogError, msg)], inl (FetchError msg))
        | inr (status_code, content) =>
            if bool_decide (status_code ≠ 200) then
              let msg := "Error fetching " +:+ url +:+ ": HTTP status "
                         +:+ str status_code in
              (mkEffects [url] [info; (LogError, msg)], inl (FetchError msg))
            else
              (mkEffects [url] [info],
               inr (mkContent (_ToText [content]) patch true))
        end
    end.

(** ** [_ShortenBuffer] *)

Definition is_digit (c : ascii) : bool :=
  match Ascii.is_nat c with Some _ => true | None => false end.

(** The longest run of decimal digits at the start of [s], and what follows. *)
Fixpoint span_digits (s : string) : string * string :=
  match s with
  | EmptyString => ("", "")
  | String c s' =>
      if is_digit c then let '(d, r) := span_digits s' in (String c d, r)
      else ("", s)
  end.

(** [int(d)] for a string of decimal digits. *)
Definition int_of_digits (d : string) : option Z :=
  Z.of_uint <$> NilEmpty.uint_of_string d.

(** The tail of the row pattern, [ id="pair-(?P<rowcount>\d+)">], and the
    integer value of its group. The digits are taken greedily: a shorter run
    would have to be followed by a quote where a digit stands. *)
Definition match_pair_id (s : string) : option Z :=
  r ← strip_prefix (" id=" +:+ dq +:+ "pair-") s;
  let '(ds, r') := span_digits r in
  if bool_decide (ds = "") then None
  else _ ← strip_prefix (dq +:+ ">") r'; int_of_digits ds.

(** [re.match('^<tr( name="hook")? id="pair-(?P<rowcount>\d+)">', t)] followed
    by [int(m.groupdict().get("rowcount"))]: the optional group is tried
    first, and skipped when the rest does not match with it. *)
Definition match_pair_row (t : string) : option Z :=
  r ← strip_prefix "<tr" t;
  match strip_prefix (" name=" +:+ quoted "hook") r ≫= match_pair_id with
  | Some n => Some n
  | None => match_pair_id r
  end.

(** The value of [last_id] after the loop over the head rows. *)
Definition scan_last_id (head : list string) : option Z :=
  foldl (fun last_id t =>
           match match_pair_row t with
           | Some n => Some n
           | None => last_id
           end) None head.

(** One [<a href="javascript:M_expandSkipped(...)">label</a>] link. *)
Definition expand_action (before after : Z) (dir : string) (skip : Z)
    (label : string) : string :=
  "<a href=" +:+ dq +:+ "javascript:M_expandSkipped(" +:+ str before +:+ ", "
  +:+ str after +:+ ", '" +:+ dir +:+ "', " +:+ str skip +:+ ")" +:+ dq +:+ ">"
  +:+ label +:+ "</a>".

(** The two [expand_link] templates applied to the dictionary
    [{'before': ..., 'after': ..., 'skip': ...}]. *)
Definition expand_link_show (before after skip : Z) : string :=
  expand_action before after "b" skip "Show".
Definition expand_link_show10 (before after skip : Z) : string :=
  expand_action before after "t" skip "Show 10 above" +:+ " "
  +:+ expand_action before after "b" skip "Show 10 below" +:+ " ".

Definition nl : string := String "010"%char "".

(** The table row that stands for the contracted rows. *)
Definition skip_row (last_id skip : Z) (expand_link : string) : string :=
  "<tr id=" +:+ quoted ("skip-" +:+ str last_id) +:+ "><td colspan=" +:+ quoted "2"
  +:+ " align=" +:+ quoted "center" +:+ " style=" +:+ quoted "background:lightblue"
  +:+ ">(...skipping <span id=" +:+ quoted ("skipcount-" +:+ str last_id) +:+ ">"
  +:+ str skip +:+ "</span> matching lines...) <span id="
  +:+ quoted ("skiplinks-" +:+ str last_id) +:+ ">" +:+ expand_link
  +:+ "</span></td></tr>" +:+ nl.

Definition _ShortenBuffer (buffer : list string) (context : Z) : Gen string unit :=
  if len buffer <? 3 * context then
    yield_all buffer
  else
    let head := slice_to buffer context in
    yield_all head ;;;
    let last_id := scan_last_id head in
    let skip := len buffer - 2 * context in
    let expand_link :=
      if skip <=? 10 then expand_link_show else expand_link_show10 in
    match last_id with
    | None => raise TypeError
    | Some last_id =>
        let expand_link :=
          expand_link (last_id + 1) (last_id + skip) last_id in
        yield (skip_row last_id skip expand_link) ;;;
        yield_all (slice_from buffer (- context))
    end.

(** ** [_CleanupTableRowsGenerator] *)

(** A row as yielded by [_TableRowGenerator]: [(tag, text)]. *)
Definition row : Type := string * string.

(** The loop over [rows], a generator that ended with [rows_end], from the
    state [buffer]; what the collapser yields is a row text or [None]. *)
Fixpoint cleanup_loop (rows : list row) (rows_end : exn + unit)
    (buffer : list string) (context : Z) : Gen (option string) unit :=
  match rows with
  | [] =>
      match rows_end with
      | inl e => raise e
      | inr _ =>
          match buffer with
          | [] => gret tt
          | _ => gmap_yield Some (_ShortenBuffer buffer context)
          end
      end
  | (tag, text) :: rows' =>
      if bool_decide (tag = "equal") then
        cleanup_loop rows' rows_end (buffer ++ [text]) context
      else
        gmap_yield Some (_ShortenBuffer buffer context) ;;;
        yield (Some text) ;;;
        if bool_decide (tag = "error") then
          yield None
        else cleanup_loop rows' rows_end [] context
  end.

Definition _CleanupTableRowsGenerator (rows : Gen row unit) (context : Z)
  : Gen (option string) unit :=
  cleanup_loop (fst rows) (snd rows) [] context.

(** ** Comments and the services of the row generator *)

(** [users.User], identified by its address. *)
Definition User : Type := string.

(** [models.Comment]. *)
Record Comment : Type := mkComment {
  comment_author : User;
  comment_draft : bool;
  comment_left : bool;
  comment_lineno : Z;
  comment_text : string
}.

Global Instance Comment_eq_dec : EqDecision Comment.
Proof. solve_decision. Defined.

(** The module [intra_region_diff]. *)
Class IntraRegionLib : Type := {
  DiffParams : Type;
  IRChunks : Type;
  IRRatio : Type;
  GetDiffParams : bool -> DiffParams;
  CanDoIRDiff : list string -> list string -> bool;
  (** [Fold(text, limit, indent, offset)]. *)
  Fold : string -> Z -> Z -> Z -> string;
  IntraRegionDiff :
    list string -> list string -> DiffParams -> IRChunks * IRChunks * IRRatio;
  (** [RenderIntraRegionDiff(lines, chunks, tag, ratio, limit, indent, dbg)]:
      per line, the text, whether it has a newline, and the debug info. *)
  RenderIntraRegionDiff :
    list string -> IRChunks -> string -> IRRatio -> Z -> Z -> bool ->
    list (string * bool * option string);
  (** [BEGIN_TAG % COLOR_SCHEME['old']['match']], the same for ['new'], and
      [END_TAG]. *)
  BEGIN_TAG_old_match : string;
  BEGIN_TAG_new_match : string;
  END_TAG : string
}.

(** [_ExpandTemplate('inline_comment.html', user=, patch=, patchset=, issue=,
    snapshot=, side=, comments=, lineno=)]; the patch set and the issue are
    those of the patch. *)
Class TemplateLib : Type :=
  ExpandTemplate_inline_comment :
    option User -> Patch -> string -> string -> list Comment -> Z -> string.

(** The comment store: the two queries of the module, in date order, and
    [comment.complete(patch)]. *)
Class CommentStore : Type := {
  (** ['WHERE patch = :1 ORDER BY date']. *)
  Comment_gql_patch : option Patch -> list Comment;
  (** ['WHERE patch = :1 AND left = FALSE ORDER BY date']. *)
  Comment_gql_patch_right : option Patch -> list Comment;
  Comment_complete : option Patch -> Comment -> Comment
}.

(** [users.get_current_user()]: the signed-in user, if any. *)
Class UserService : Type :=
  get_current_user : option User.

(** [patching.PatchChunks] and [difflib.SequenceMatcher(...).get_opcodes()]. *)
Class DiffSources : Type := {
  PatchChunks : list string -> list chunk -> list (string * list string * list string);
  get_opcodes : list string -> list string -> list (string * Z * Z * Z * Z)
}.

(** ** The row formatters *)

(** [cgi.escape(s)]: [&], [<] and [>] become entities. *)
Fixpoint cgi_escape (s : string) : string :=
  match s with
  | EmptyString => ""
  | String a s' =>
      (if Ascii.eqb a "&" then "&amp;"
       else if Ascii.eqb a "<" then "&lt;"
       else if Ascii.eqb a ">" then "&gt;"
       else String a "") +:+ cgi_escape s'
  end.

(** ['%*d' % (ndigits, number)]: right-justified, or left-justified when the
    width is negative. *)
Definition format_width (ndigits number : Z) : string :=
  let s := str number in
  if ndigits <? 0 then s +:+ spaces (Z.to_nat (- ndigits - slen s))
  else spaces (Z.to_nat (ndigits - slen s)) +:+ s.

Definition _MarkupNumber (ndigits number : Z) (tag : string) : string :=
  let formatted_number := str number in
  let space_prefix := spaces (Z.to_nat (ndigits - slen formatted_number)) in
  space_prefix +:+ "<" +:+ tag +:+ ">" +:+ formatted_number +:+ "</" +:+ tag +:+ ">".

Definition _RenderDiffColumn (patch : option Patch) (line_valid : bool)
    (tag : string) (ndigits lineno : Z) (begin end_ intra_diff : string)
    (do_ir_diff has_newline : bool) (prefix : string) : string :=
  if line_valid then
    let cls_attr := prefix +:+ tag in
    let lno :=
      if bool_decide (tag = "equal") then format_width ndigits lineno
      else _MarkupNumber ndigits lineno "u" in
    let '(col_content, cls_attr) :=
      if bool_decide (tag = "replace") then
        (begin +:+ lno +:+ " " +:+ end_ +:+ intra_diff,
         if negb do_ir_diff || negb has_newline then cls_attr +:+ "1"
         else cls_attr)
      else (lno +:+ " " +:+ intra_diff, cls_attr) in
    "<td class=" +:+ quoted cls_attr +:+ " id="
    +:+ quoted (prefix +:+ "code" +:+ str lineno) +:+ ">" +:+ col_content +:+ "</td>"
  else
    "<td class=" +:+ quoted (prefix +:+ "blank") +:+ "></td>".

(** A dictionary from line numbers to the comments on that line. *)
Abbreviation comment_dict := (gmap Z (list Comment)).

Definition _RenderInlineComments `{TemplateLib} (line_valid : bool) (lineno : Z)
    (data : comment_dict) (user : option User) (patch : option Patch)
    (snapshot prefix : string) : exn + string :=
  if line_valid then
    let opening := "<td id=" +:+ quoted (prefix +:+ "-line-" +:+ str lineno) +:+ ">" in
    match data !! lineno with
    | Some comments =>
        match patch with
        | None => inl AttributeError
        | Some p =>
            inr (join [opening;
                       ExpandTemplate_inline_comment user p snapshot
                         (if bool_decide (prefix = "old") then "a" else "b")
                         comments lineno;
                       "</td>"])
        end
    | None => inr (join [opening; "</td>"])
    end
  else inr (join ["<td></td>"]).

(** An entry of [old_buff] / [new_buff] once it can be rendered:
    [[valid, lineno, (intra_diff, has_newline, debug_info)]]. *)
Definition out_entry : Type := bool * Z * (string * bool * option string).

(** The debug cell of a column. *)
Definition debug_cell (debug_info : option string) : string :=
  match debug_info with
  | Some info =>
      if bool_decide (info = "") then "<td></td>"
      else "<td class=" +:+ quoted "debug-info" +:+ ">"
           +:+ replace_char "010" "<br>" info +:+ "</td>"
  | None => "<td></td>"
  end.

(** The body of the loop of [_RenderDiffInternal] for one index: the row it
    yields, or the exception it raises. *)
Definition render_pair `{IntraRegionLib} `{TemplateLib}
    (ob nb : out_entry) (frags : list string)
    (ndigits : Z) (tag : string) (do_ir_diff : bool)
    (old_dict new_dict : comment_dict) (old_patch new_patch : option Patch)
    (old_snapshot new_snapshot : string) (debug : bool) (user : option User)
  : exn + row :=
  let obegin := BEGIN_TAG_old_match in
  let nbegin := BEGIN_TAG_new_match in
  let oend := END_TAG in
  let nend := oend in
  let tg := tag in
  let '(old_valid, old_lineno, (old_intra_diff, old_has_newline, old_debug_info)) := ob in
  let '(new_valid, new_lineno, (new_intra_diff, new_has_newline, new_debug_info)) := nb in
  let frags := frags ++
    [_RenderDiffColumn old_patch old_valid tag ndigits old_lineno obegin oend
       old_intra_diff do_ir_diff old_has_newline "old";
     _RenderDiffColumn new_patch new_valid tag ndigits new_lineno nbegin nend
       new_intra_diff do_ir_diff new_has_newline "new";
     "</tr>" +:+ nl] in
  let frags :=
    if debug then
      frags ++ ["<tr>"; debug_cell old_debug_info; debug_cell new_debug_info;
                "</tr>" +:+ nl]
    else frags in
  if bool_decide (is_Some old_patch ∨ is_Some new_patch) then
    let commented :=
      (old_valid && bool_decide (is_Some (old_dict !! old_lineno)))
      || (new_valid && bool_decide (is_Some (new_dict !! new_lineno))) in
    let tg := if commented then tg +:+ "_comment" else tg in
    let frags := frags ++
      [if commented then "<tr class=" +:+ quoted "inline-comments" +:+ " name="
                         +:+ quoted "hook" +:+ ">"
       else "<tr class=" +:+ quoted "inline-comments" +:+ ">"] in
    match _RenderInlineComments old_valid old_lineno old_dict user old_patch
            old_snapshot "old" with
    | inl e => inl e
    | inr old_comments =>
        match _RenderInlineComments new_valid new_lineno new_dict user new_patch
                new_snapshot "new" with
        | inl e => inl e
        | inr new_comments =>
            inr (tg, join (frags ++ [old_comments; new_comments; "</tr>" +:+ nl]))
        end
    end
  else inr (tg, join frags).

(** [_RenderDiffInternal]: the loop over [range(len(old_buff))], with
    [new_buff[i]] and [frag_list[i]] raising [IndexError] when missing. *)
Fixpoint _RenderDiffInternal `{IntraRegionLib} `{TemplateLib} `{UserService}
    (old_buff new_buff : list out_entry) (ndigits : Z) (tag : string)
    (frag_list : list (list string)) (do_ir_diff : bool)
    (old_dict new_dict : comment_dict) (old_patch new_patch : option Patch)
    (old_snapshot new_snapshot : string) (colwidth : Z) (debug : bool)
  : Gen row unit :=
  let user := get_current_user in
  match old_buff with
  | [] => gret tt
  | ob :: old_buff' =>
      match new_buff, frag_list with
      | nb :: new_buff', frags :: frag_list' =>
          match render_pair ob nb frags ndigits tag do_ir_diff old_dict new_dict
                  old_patch new_patch old_snapshot new_snapshot debug user with
          | inl e => raise e
          | inr r =>
              yield r ;;;
              _RenderDiffInternal old_buff' new_buff' ndigits tag frag_list'
                do_ir_diff old_dict new_dict old_patch new_patch
                old_snapshot new_snapshot colwidth debug
          end
      | _, _ => raise IndexError
      end
  end.

(** ** [_TableRowGenerator] *)

(** A diff operation [(tag, old, new)]. *)
Definition triple : Type := string * list string * list string.

(** An entry of [old_buff] / [new_buff] while a region is collected:
    [[valid, lineno, raw text]]. *)
Definition raw_entry : Type := bool * Z * string.

(** The variables the loop over the line pairs of one operation updates. *)
Record pair_state : Type := mkPairState {
  st_row_count : Z;
  st_frag_list : list (list string);
  st_old_buff : list raw_entry;
  st_new_buff : list raw_entry
}.

(** [for (i, b) in enumerate(buff): b[2] = out[i]]; [None] stands for the
    [IndexError] of a missing [out[i]]. *)
Fixpoint substitute (buff : list raw_entry)
    (out : list (string * bool * option string)) : option (list out_entry) :=
  match buff with
  | [] => Some []
  | (valid, lineno, _) :: buff' =>
      match out with
      | [] => None
      | o :: out' => cons (valid, lineno, o) <$> substitute buff' out'
      end
  end.

Section RowLoops.

Context `{IntraRegionLib} `{TemplateLib} `{UserService}.

Variables (old_patch : option Patch) (old_dict : comment_dict)
          (old_snapshot : string)
          (new_patch : option Patch) (new_dict : comment_dict)
          (new_snapshot : string)
          (colwidth : Z) (debug : bool)
          (diff_params : DiffParams) (ndigits indent : Z).

(** The loop [for i in xrange(max(len(old), len(new)))] of one operation. *)
Fixpoint pair_loop (tag : string) (old new : list string) (old1 old2 new1 new2 : Z)
    (do_ir_diff : bool) (indices : list nat) (st : pair_state)
  : Gen row pair_state :=
  match indices with
  | [] => gret st
  | i :: indices' =>
      let row_count := st_row_count st + 1 in
      let old_lineno := old1 + Z.of_nat i + 1 in
      let new_lineno := new1 + Z.of_nat i + 1 in
      let old_valid := bool_decide (old1 + Z.of_nat i < old2) in
      let new_valid := bool_decide (new1 + Z.of_nat i < new2) in
      let frags :=
        [if bool_decide (i = 0%nat) && negb (bool_decide (tag = "equal"))
         then "<tr name=" +:+ quoted "hook" else "<tr";
         " id=" +:+ quoted ("pair-" +:+ str row_count) +:+ ">"] in
      let old_intra_diff := if old_valid then default "" (old !! i) else "" in
      let new_intra_diff := if new_valid then default "" (new !! i) else "" in
      let frag_list := st_frag_list st ++ [frags] in
      if do_ir_diff then
        pair_loop tag old new old1 old2 new1 new2 do_ir_diff indices'
          (mkPairState row_count frag_list
             (st_old_buff st ++ [(old_valid, old_lineno, old_intra_diff)])
             (st_new_buff st ++ [(new_valid, new_lineno, new_intra_diff)]))
      else
        let old_intra_diff := Fold old_intra_diff (colwidth + indent) indent indent in
        let new_intra_diff := Fold new_intra_diff (colwidth + indent) indent indent in
        let old_buff_out := [(old_valid, old_lineno, (old_intra_diff, true, None))] in
        let new_buff_out := [(new_valid, new_lineno, (new_intra_diff, true, None))] in
        _RenderDiffInternal old_buff_out new_buff_out ndigits tag frag_list
          do_ir_diff old_dict new_dict old_patch new_patch
          old_snapshot new_snapshot colwidth debug ;;;
        pair_loop tag old new old1 old2 new1 new2 do_ir_diff indices'
          (mkPairState row_count [] (st_old_buff st) (st_new_buff st))
  end.

(** What follows the loop over the pairs of a region kept for the
    intra-region diff. *)
Definition render_region (tag : string) (st : pair_state) : Gen row unit :=
  let old_lines := snd <$> st_old_buff st in
  let new_lines := snd <$> st_new_buff st in
  let '(old_chunks, new_chunks, ratio) :=
    IntraRegionDiff old_lines new_lines diff_params in
  let old_tag := "old" in
  let new_tag := "new" in
  let old_diff_out :=
    RenderIntraRegionDiff old_lines old_chunks old_tag ratio colwidth indent debug in
  let new_diff_out :=
    RenderIntraRegionDiff new_lines new_chunks new_tag ratio colwidth indent debug in
  match substitute (st_old_buff st) old_diff_out,
        substitute (st_new_buff st) new_diff_out with
  | Some old_buff, Some new_buff =>
      _RenderDiffInternal old_buff new_buff ndigits tag (st_frag_list st) true
        old_dict new_dict old_patch new_patch old_snapshot new_snapshot
        colwidth debug
  | _, _ => raise IndexError
  end.

(** The row of an operation whose tag starts with [error]. *)
Definition error_row (tag : string) : row :=
  ("error", "<tr><td><h3>" +:+ cgi_escape tag +:+ "</h3></td></tr>" +:+ nl).

(** The loop [for tag, old, new in triple_iterator]. *)
Fixpoint triple_loop (triples : list triple) (old_offset new_offset row_count : Z)
  : Gen row unit :=
  match triples with
  | [] => gret tt
  | (tag, old, new) :: triples' =>
      if startswith tag "error" then
        yield (error_row tag)
      else
        let old1 := old_offset in
        let old2 := old1 + len old in
        let new1 := new_offset in
        let new2 := new1 + len new in
        let do_ir_diff := bool_decide (tag = "replace") && CanDoIRDiff old new in
        st <- pair_loop tag old new old1 old2 new1 new2 do_ir_diff
                (seq 0 (Nat.max (length old) (length new)))
                (mkPairState row_count [] [] []) ;;
        (if do_ir_diff then render_region tag st else gret tt) ;;;
        triple_loop triples' old2 new2 (st_row_count st)
  end.

End RowLoops.

(** The two informational rows. *)
Definition empty_side_row (old_max new_max : Z) : row :=
  let msg_old := if bool_decide (old_max = 0) then "(Empty)" else "" in
  let msg_new := if bool_decide (new_max = 0) then "(Empty)" else "" in
  ("", "<tr><td class=" +:+ quoted "info" +:+ ">" +:+ msg_old +:+ "</td>"
       +:+ "<td class=" +:+ quoted "info" +:+ ">" +:+ msg_new +:+ "</td></tr>").

Definition both_equal_row : row :=
  ("", "<tr><td class=" +:+ quoted "info" +:+ " colspan=" +:+ quoted "2" +:+ ">"
       +:+ "(Both sides are equal)</td></tr>").

(** The first statement of [_TableRowGenerator] after its assignments: a row
    with a message if a side is empty or both sides are equal. *)
Definition info_rows (old_patch new_patch : option Patch) (old_max new_max : Z)
  : Gen row unit :=
  if bool_decide (old_patch = new_patch)
     && (bool_decide (old_max = 0) || bool_decide (new_max = 0)) then
    yield (empty_side_row old_max new_max)
  else if bool_decide (old_patch ≠ new_patch) then
    match old_patch, new_patch with
    | Some o, Some n =>
        if bool_decide (patch_lines o = patch_lines n) then yield both_equal_row
        else gret tt
    | _, _ => raise AttributeError
    end
  else gret tt.

Definition _TableRowGenerator `{IntraRegionLib} `{TemplateLib} `{UserService}
    (old_patch : option Patch) (old_dict : comment_dict) (old_max : Z)
    (old_snapshot : string)
    (new_patch : option Patch) (new_dict : comment_dict) (new_max : Z)
    (new_snapshot : string)
    (triple_iterator : list triple) (colwidth : Z) (debug : bool)
  : Gen row unit :=
  let diff_params := GetDiffParams debug in
  let ndigits := 1 + Z.max (slen (str old_max)) (slen (str new_max)) in
  let indent := 1 + ndigits in
  let old_offset := 0 in
  let new_offset := 0 in
  let row_count := 0 in
  info_rows old_patch new_patch old_max new_max ;;;
  triple_loop old_patch old_dict old_snapshot new_patch new_dict new_snapshot
    colwidth debug diff_params ndigits indent
    triple_iterator old_offset new_offset row_count.

(** ** The two renderers *)

(** The request, as far as the module reads it: [request.user]. *)
Record Request : Type := mkRequest { request_user : option User }.

(** [comment.draft and comment.author != request.user]. *)
Definition hidden_draft (request : Request) (comment : Comment) : bool :=
  comment_draft comment
  && negb (bool_decide (Some (comment_author comment) = request_user request)).

(** [dct.setdefault(comment.lineno, []).append(comment)]. *)
Definition dict_append (dct : comment_dict) (comment : Comment) : comment_dict :=
  <[comment_lineno comment :=
      default [] (dct !! comment_lineno comment) ++ [comment]]> dct.

(** [_GenerateTriples]. *)
Definition _GenerateTriples `{DiffSources} (old_lines new_lines : list string)
  : list triple :=
  (fun '(tag, i1, i2, j1, j2) => (tag, slice old_lines i1 i2, slice new_lines j1 j2))
    <$> get_opcodes old_lines new_lines.

(** The loop of [_RenderDiff2TableRows] over the comments of one patch. *)
Definition right_comments `{CommentStore} (request : Request)
    (patch : option Patch) : comment_dict :=
  foldl (fun dct comment =>
           if hidden_draft request comment then dct
           else dict_append dct (Comment_complete patch comment))
        ∅ (Comment_gql_patch_right patch).

Definition _RenderDiff2TableRows
    `{IntraRegionLib} `{TemplateLib} `{UserService} `{CommentStore} `{DiffSources}
    (request : Request) (old_lines : list string) (old_patch : option Patch)
    (new_lines : list string) (new_patch : option Patch)
    (colwidth : Z) (debug : bool) : Gen row unit :=
  let old_dict := right_comments request old_patch in
  let new_dict := right_comments request new_patch in
  _TableRowGenerator old_patch old_dict (len old_lines + 1) "new"
                     new_patch new_dict (len new_lines + 1) "new"
                     (_GenerateTriples old_lines new_lines)
                     colwidth debug.

(** The loop of [_RenderDiffTableRows] over the comments of the patch: the
    pair [(old_dict, new_dict)]. *)
Definition side_comments `{CommentStore} (request : Request)
    (patch : option Patch) : comment_dict * comment_dict :=
  match patch with
  | Some _ =>
      foldl (fun '(old_dict, new_dict) comment =>
               if hidden_draft request comment then (old_dict, new_dict)
               else
                 let comment' := Comment_complete patch comment in
                 if comment_left comment' then
                   (dict_append old_dict comment', new_dict)
                 else (old_dict, dict_append new_dict comment'))
            (∅, ∅) (Comment_gql_patch patch)
  | None => (∅, ∅)
  end.

Definition _RenderDiffTableRows
    `{IntraRegionLib} `{TemplateLib} `{UserService} `{CommentStore} `{DiffSources}
    (request : Request) (old_lines : list string) (chunks : list chunk)
    (patch : option Patch) (colwidth : Z) (debug : bool) : Gen row unit :=
  let '(old_dict, new_dict) := side_comments request patch in
  let '(old_max, new_max) := _ComputeLineCounts old_lines chunks in
  _TableRowGenerator patch old_dict old_max "old"
                     patch new_dict new_max "new"
                     (PatchChunks old_lines chunks)
                     colwidth debug.

Definition DEFAULT_CONTEXT : Z := 50.

Definition RenderDiffTableRows
    `{IntraRegionLib} `{TemplateLib} `{UserService} `{CommentStore} `{DiffSources}
    (request : Request) (old_lines : list string) (chunks : list chunk)
    (patch : option Patch) (colwidth : Z) (debug : bool) (context : Z)
  : Gen (option string) unit :=
  let rows := _RenderDiffTableRows request old_lines chunks patch colwidth debug in
  _CleanupTableRowsGenerator rows context.

Definition RenderDiff2TableRows
    `{IntraRegionLib} `{TemplateLib} `{UserService} `{CommentStore} `{DiffSources}
    (request : Request) (old_lines : list string) (old_patch : option Patch)
    (new_lines : list string) (new_patch : option Patch)
    (colwidth : Z) (debug : bool) (context : Z) : Gen (option string) unit :=
  let rows := _RenderDiff2TableRows request old_lines old_patch
                new_lines new_patch colwidth debug in
  _CleanupTableRowsGenerator rows context.

(** ** Concrete services, to run the definitions *)

(** A small URL splitter: the scheme is what precedes the first [:], the host
    what lies between [//] and the next [/], the path the rest. *)
Fixpoint split_at (c : ascii) (s : string) : string * string :=
  match s with
  | EmptyString => ("", "")
  | String a s' =>
      if Ascii.eqb a c then ("", s)
      else let '(h, t) := split_at c s' in (String a h, t)
  end.

Definition simple_urlparse : UrlLib := fun url =>
  let '(scheme, rest) := split_at ":"%char url in
  match strip_prefix "://" rest with
  | Some r => let '(netloc, path) := split_at "/"%char r in
              (scheme, netloc, path, "", "", "")
  | None => ("", "", url, "", "", "")
  end.

(** A host that answers every request with status 200 and an empty body; a
    patch header that carries no revision. *)
Definition quiet_fetch : FetchServices := {|
  ParseRevision := fun _ => None;
  Link_valid := fun _ => true;
  urlfetch_fetch := fun _ => inr (200, "");
  Text_utf8 := Some;
  Text_latin1 := fun s => s
|}.

(** A host that is down: every fetch raises. *)
Definition failing_fetch : FetchServices := {|
  ParseRevision := fun _ => Some 7;
  Link_valid := fun _ => true;
  urlfetch_fetch := fun _ => inl ("DownloadError", "timed out");
  Text_utf8 := Some;
  Text_latin1 := fun s => s
|}.

(** A patch that adds a new file: its header carries revision 0. *)
Definition new_file_fetch : FetchServices := {|
  ParseRevision := fun _ => Some 0;
  Link_valid := fun _ => true;
  urlfetch_fetch := fun _ => inr (200, "");
  Text_utf8 := Some;
  Text_latin1 := fun s => s
|}.

(** An intra-region diff that never applies and leaves the lines alone. *)
Definition plain_ir : IntraRegionLib := {|
  DiffParams := unit;
  IRChunks := unit;
  IRRatio := unit;
  GetDiffParams := fun _ => tt;
  CanDoIRDiff := fun _ _ => false;
  Fold := fun s _ _ _ => s;
  IntraRegionDiff := fun _ _ _ => (tt, tt, tt);
  RenderIntraRegionDiff := fun lines _ _ _ _ _ _ => (fun l => (l, true, None)) <$> lines;
  BEGIN_TAG_old_match := "<span>";
  BEGIN_TAG_new_match := "<span>";
  END_TAG := "</span>"
|}.

(** A template that prints the texts of the comments. *)
Definition plain_template : TemplateLib :=
  fun _ _ _ _ comments _ => join (comment_text <$> comments).

Definition nobody : UserService := None.

(** A table row that carries its identifier and nothing else, and a buffer
    of such rows numbered from [first]. *)
Definition bare_row (n : Z) : string :=
  "<tr id=" +:+ quoted ("pair-" +:+ str n) +:+ "></tr>".

Definition bare_rows (first count : Z) : list string :=
  bare_row <$> seqZ first count.

(** A comment store with a published comment of one user and a draft of
    another on line 2 of every patch, and diff sources that report the old
    lines as one equal operation. *)
Definition sample_store : CommentStore := {|
  Comment_gql_patch := fun _ =>
    [mkComment "bob" false false 2 "looks fine"; mkComment "eve" true false 2 "todo"];
  Comment_gql_patch_right := fun _ =>
    [mkComment "bob" false false 2 "looks fine"; mkComment "eve" true false 2 "todo"];
  Comment_complete := fun _ c => c
|}.

Definition plain_diff : DiffSources := {|
  PatchChunks := fun old_lines _ => [("equal", old_lines, old_lines)];
  get_opcodes := fun old_lines new_lines =>
    [("equal", 0, len old_lines, 0, len new_lines)]
|}.

(** ** [ParsePatchSet] *)

(** [s.splitlines(True)] for a byte string: a line ends after [\n], after
    [\r\n], or after a [\r] that no [\n] follows; the ends are kept. *)
Fixpoint splitlines (s : string) : list string :=
  match s with
  | EmptyString => []
  | String c s' =>
      if Ascii.eqb c "010" then String c "" :: splitlines s'
      else if Ascii.eqb c "013" then
        match s' with
        | String c' s'' =>
            if Ascii.eqb c' "010" then String c (String c' "") :: splitlines s''
            else String c "" :: splitlines s'
        | EmptyString => [String c ""]
        end
      else
        match splitlines s' with
        | [] => [String c ""]
        | line :: lines => String c line :: lines
        end
  end.

(** [s.lstrip()] and [s.strip()]. *)
Fixpoint lstrip (s : string) : string :=
  match s with
  | EmptyString => ""
  | String c s' => if Ascii.is_space c then lstrip s' else s
  end.

Definition strip (s : string) : string :=
  String.rev (lstrip (String.rev (lstrip s))).

(** [unused, filename = line.split(':', 1)] followed by
    [filename = filename.strip()], for a line that holds a colon. *)
Definition index_filename (line : string) : string :=
  let '(unused, rest) := split_at ":" line in
  let filename := sdrop 1 rest in
  strip filename.

(** [models.Patch(patchset=patchset, text=..., filename=..., parent=patchset)]
    as [ParsePatchSet] builds it. *)
Record NewPatch : Type := mkNewPatch {
  new_patch_text : string;
  new_patch_filename : string
}.

(** [filename and lines], and the patch appended to [patches] when it holds. *)
Definition pending_patch `{FetchServices} (filename : option string)
    (lines : option (list string)) : list NewPatch :=
  match filename, lines with
  | Some f, Some (l :: ls) =>
      if bool_decide (f = "") then []
      else [mkNewPatch (_ToText (l :: ls)) f]
  | _, _ => []
  end.

(** The loop of [ParsePatchSet] over the lines, and what follows it. *)
Fixpoint ParsePatchSet_loop `{FetchServices} (input : list string)
    (filename : option string) (lines : option (list string))
    (patches : list NewPatch) : list NewPatch :=
  match input with
  | [] => patches ++ pending_patch filename lines
  | line :: input' =>
      if startswith line "Index:" then
        let patches := patches ++ pending_patch filename lines in
        let filename := index_filename line in
        let lines := [line] in
        ParsePatchSet_loop input' (Some filename) (Some lines) patches
      else
        match lines with
        | Some ls => ParsePatchSet_loop input' filename (Some (ls ++ [line])) patches
        | None => ParsePatchSet_loop input' filename lines patches
        end
  end.

(** [ParsePatchSet(patchset)], given [patchset.data]. *)
Definition ParsePatchSet `{FetchServices} (data : string) : list NewPatch :=
  ParsePatchSet_loop (splitlines data) None None [].

(** ** [_CleanupTableRows] *)

(** [_ShortenBuffer(buffer)]: the call lacks the argument [context], and
    Python raises [TypeError] when it is made. *)
Definition _ShortenBuffer_without_context (buffer : list string) : Gen string unit :=
  raise TypeError.

Fixpoint cleanup_rows_loop (rows : list row) (rows_end : exn + unit)
    (buffer : list string) : Gen (option string) unit :=
  match rows with
  | [] =>
      match rows_end with
      | inl e => raise e
      | inr _ =>
          match buffer with
          | [] => gret tt
          | _ => gmap_yield Some (_ShortenBuffer_without_context buffer)
          end
      end
  | (tag, text) :: rows' =>
      if bool_decide (tag = "equal") then
        cleanup_rows_loop rows' rows_end (buffer ++ [text])
      else
        gmap_yield Some (_ShortenBuffer_without_context buffer) ;;;
        yield (Some text) ;;;
        if bool_decide (tag = "error") then yield None
        else cleanup_rows_loop rows' rows_end []
  end.

Definition _CleanupTableRows (rows : Gen row unit) : Gen (option string) unit :=
  cleanup_rows_loop (fst rows) (snd rows) [].

(** ** Notions used to state the properties *)

(** The host component that [_MakeUrl] reads from [urlparse(base)]. *)
Definition netloc_of `{UrlLib} (base : string) : string :=
  let '(_, netloc, _, _, _, _) := urlparse base in netloc.

(** How the single call to [urlfetch.fetch] went wrong: it raised, or the
    status of the response is not 200. *)
Definition fetch_failed `{FetchServices} (url : string) : Prop :=
  match urlfetch_fetch url with
  | inl _ => True
  | inr (status_code, _) => status_code ≠ 200
  end.

(** The number of line pairs of the operations read before the first one
    whose tag starts with [error]. *)
Fixpoint line_pairs (triples : list triple) : Z :=
  match triples with
  | [] => 0
  | (tag, old, new) :: triples' =>
      if startswith tag "error" then 0
      else Z.max (len old) (len new) + line_pairs triples'
  end.

(** A draft whose author is not the viewer. *)
Definition draft_of_other (viewer : option User) (c : Comment) : Prop :=
  comment_draft c = true ∧ viewer ≠ Some (comment_author c).

Global Instance draft_of_other_dec (viewer : option User) (c : Comment) :
  Decision (draft_of_other viewer c).
Proof. unfold draft_of_other. apply _. Defined.

(** The comment store once the drafts of users other than the viewer are
    deleted from it. *)
Definition without_hidden_drafts (request : Request) (store : CommentStore)
  : CommentStore := {|
  Comment_gql_patch := fun patch =>
    filter (fun c => ¬ draft_of_other (request_user request) c)
           (@Comment_gql_patch store patch);
  Comment_gql_patch_right := fun patch =>
    filter (fun c => ¬ draft_of_other (request_user request) c)
           (@Comment_gql_patch_right store patch);
  Comment_complete := @Comment_complete store
|}.

(** A line pair of a row: for the old and for the new side, whether the side
    has a line in the row, and the number of that line. *)
Definition line_pair : Type := (bool * Z) * (bool * Z).

(** The line pairs of one operation that follows [old_offset] old lines and
    [new_offset] new lines: the i-th old line of the operation beside its
    i-th new line, as far as each side has one. *)
Definition op_pairs (old new : list string) (old_offset new_offset : Z)
  : list line_pair :=
  (fun i : nat =>
     ((bool_decide (Z.of_nat i < len old), old_offset + Z.of_nat i + 1),
      (bool_decide (Z.of_nat i < len new), new_offset + Z.of_nat i + 1)))
  <$> seq 0 (Nat.max (length old) (length new)).

(** The line pairs of the operations read before the first one whose tag
    starts with [error]. *)
Fixpoint pairs_of (triples : list triple) (old_offset new_offset : Z)
  : list line_pair :=
  match triples with
  | [] => []
  | (tag, old, new) :: triples' =>
      if startswith tag "error" then []
      else op_pairs old new old_offset new_offset
           ++ pairs_of triples' (old_offset + len old) (new_offset + len new)
  end.

(** The rows carry the identifiers [first + 1], [first + 2], ... in order,
    the i-th row is related by [P] to the i-th line pair, and there are no
    more rows than line pairs. *)
Fixpoint rows_of_pairs (P : row → line_pair → Prop) (first : Z) (rows : list row)
    (pairs : list line_pair) : Prop :=
  match rows, pairs with
  | [], _ => True
  | r :: rows', lp :: pairs' =>
      match_pair_row (snd r) = Some (first + 1) ∧ P r lp
      ∧ rows_of_pairs P (first + 1) rows' pairs'
  | _ :: _, [] => False
  end.

(** The row is what the body of the loop of [_RenderDiffInternal] renders for
    the line pair, in an operation whose tag does not start with [error]. *)
Definition renders_pair `{IntraRegionLib} `{TemplateLib}
    (old_patch : option Patch) (old_dict : comment_dict) (old_snapshot : string)
    (new_patch : option Patch) (new_dict : comment_dict) (new_snapshot : string)
    (ndigits : Z) (debug : bool) (user : option User)
    (r : row) (lp : line_pair) : Prop :=
  ∃ ob nb frags tag do_ir_diff,
    startswith tag "error" = false
    ∧ fst ob = fst lp ∧ fst nb = snd lp
    ∧ render_pair ob nb frags ndigits tag do_ir_diff old_dict new_dict
        old_patch new_patch old_snapshot new_snapshot debug user = inr r.

(** One string holds another. *)
Definition contains (text part : string) : Prop :=
  ∃ pre post, text = pre +:+ part +:+ post.

(** The cell that shows the comments of a line: on the old side the cell
    [old-line-N] with the template expanded for side [a], on the new side
    the cell [new-line-N] with the template expanded for side [b]. *)
Definition comment_cell `{TemplateLib} (user : option User) (patch : Patch)
    (snapshot : string) (left : bool) (comments : list Comment) (lineno : Z)
  : string :=
  "<td id=" +:+ quoted ((if left then "old" else "new") +:+ "-line-" +:+ str lineno)
  +:+ ">"
  +:+ ExpandTemplate_inline_comment user patch snapshot (if left then "a" else "b")
        comments lineno
  +:+ "</td>".

(** The comment [c] of [patch], on the old side of the table when [left] and
    on the new side otherwise, is shown by a render whose row generator is
    [rows], whose output is [out] and whose line pairs are [pairs]: for every
    line pair that holds the line of the comment on that side, the row of the
    pair (the row with the identifier of the pair) holds the comment cell of
    the line, expanded for comments among which [c] is, and is in the output
    when the output ends normally; and the row generator yields that row
    when it ends normally. *)
Definition comment_shown `{TemplateLib} `{UserService}
    (rows : Gen row unit) (out : Gen (option string) unit)
    (pairs : list line_pair) (left : bool) (patch : Patch) (snapshot : string)
    (c : Comment) : Prop :=
  ∀ (k : nat) (lp : line_pair),
    pairs !! k = Some lp →
    (if left then fst lp else snd lp) = (true, comment_lineno c) →
    (∀ r, r ∈ yielded rows → match_pair_row (snd r) = Some (Z.of_nat k + 1) →
       (∃ comments,
          c ∈ comments
          ∧ contains (snd r)
              (comment_cell get_current_user patch snapshot left comments
                 (comment_lineno c)))
       ∧ (finished out → Some (snd r) ∈ yielded out))
    ∧ (finished rows →
       ∃ r, r ∈ yielded rows ∧ match_pair_row (snd r) = Some (Z.of_nat k + 1)).

(** The two ways a code row starts, and the fragment with its identifier. *)
Definition row_opening (hook : bool) : string :=
  if hook then "<tr name=" +:+ quoted "hook" else "<tr".

Definition row_id_frag (n : Z) : string :=
  " id=" +:+ quoted ("pair-" +:+ str n) +:+ ">".

(** The rows carry the identifiers [first + 1], [first + 2], ... in order. *)
Fixpoint numbered_from (first : Z) (rows : list row) : Prop :=
  match rows with
  | [] => True
  | r :: rows' =>
      match_pair_row (snd r) = Some (first + 1) ∧ numbered_from (first + 1) rows'
  end.

(** The entries of [frag_list] are the starts of the rows [first + 1],
    [first + 2], ... *)
Fixpoint frags_from (first : Z) (frag_list : list (list string)) : Prop :=
  match frag_list with
  | [] => True
  | frags :: frag_list' =>
      (∃ hook, frags = [row_opening hook; row_id_frag (first + 1)])
      ∧ frags_from (first + 1) frag_list'
  end.

(** The tag of a row rendered for an operation tagged [tag]. *)
Definition tagged (tag : string) (r : row) : Prop :=
  fst r = tag ∨ fst r = tag +:+ "_comment".

(** A row text that matches the row pattern. *)
Definition marked (t : string) : Prop := is_Some (match_pair_row t).

(** An operation whose tag does not start with [error]. *)
Definition plain_op (t : triple) : Prop := startswith (fst (fst t)) "error" = false.

(** The dictionary holds the comment, on the line of the comment. *)
Definition holds (dct : comment_dict) (c : Comment) : Prop :=
  ∃ comments, dct !! comment_lineno c = Some comments ∧ c ∈ comments.

(** Every comment that the dictionary holds satisfies [P]. *)
Definition all_held (dct : comment_dict) (P : Comment → Prop) : Prop :=
  ∀ lineno comments c, dct !! lineno = Some comments → c ∈ comments → P c.

(** The side on which [_RenderDiffTableRows] files a comment. *)
Definition side_of (dicts : comment_dict * comment_dict) (c : Comment)
  : comment_dict :=
  if comment_left c then fst dicts else snd dicts.

(** The two patches are both absent or both present, as the two renderers
    pass them. *)
Definition patches_agree (old_patch new_patch : option Patch) : Prop :=
  (old_patch = None ∧ new_patch = None) ∨ (is_Some old_patch ∧ is_Some new_patch).

(** [RenderIntraRegionDiff] returns an entry for each line it is given. *)
Definition ir_render_covers `{IntraRegionLib} : Prop :=
  ∀ lines chunks tag ratio limit indent dbg,
    (length lines ≤ length (RenderIntraRegionDiff lines chunks tag ratio limit
                               indent dbg))%nat.

(** The patch that [ParsePatchSet] makes of a section, a line that starts
    with [Index:] and the lines up to the next such line: none when the file
    name is empty. *)
Definition section_patch `{FetchServices} (section : list string)
  : option NewPatch :=
  match section with
  | [] => None
  | line :: _ =>
      if bool_decide (index_filename line = "") then None
      else Some (mkNewPatch (_ToText section) (index_filename line))
  end.

(** A section of a patch set: a line that starts with [Index:] and lines that
    do not. *)
Definition is_section (section : list string) : Prop :=
  ∃ line body,
    section = line :: body
    ∧ startswith line "Index:" = true
    ∧ Forall (fun l => startswith l "Index:" = false) body.

(** The opcodes go through both sequences without a gap or an overlap, from
    [(i, j)] to [(i_end, j_end)]. *)
Fixpoint opcodes_cover (ops : list (string * Z * Z * Z * Z)) (i j i_end j_end : Z)
  : Prop :=
  match ops with
  | [] => i = i_end ∧ j = j_end
  | (tag, i1, i2, j1, j2) :: ops' =>
      i1 = i ∧ j1 = j ∧ i ≤ i2 ∧ j ≤ j2 ∧ opcodes_cover ops' i2 j2 i_end j_end
  end.

(** The comments of [l] on line [lineno], as a dictionary entry: no entry
    when there is none. *)
Definition line_entry (lineno : Z) (l : list Comment) : option (list Comment) :=
  match filter (fun c => comment_lineno c = lineno) l with
  | [] => None
  | c :: cs => Some (c :: cs)
  end.

(** A dictionary entry after the comments [cs] are appended to it. *)
Definition add_entry (entry : option (list Comment)) (cs : list Comment)
  : option (list Comment) :=
  match cs with
  | [] => entry
  | _ => Some (default [] entry ++ cs)
  end.

(** The characters of a string. *)
Fixpoint chars (s : string) : list ascii :=
  match s with
  | EmptyString => []
  | String c s' => c :: chars s'
  end.

(** * Properties *)

(** ** Strings *)

Lemma sapp_nil_l (s : string) : "" +:+ s = s.
Proof. reflexivity. Qed.

Lemma sapp_cons (a : ascii) (s t : string) : String a s +:+ t = String a (s +:+ t).
Proof. reflexivity. Qed.

Lemma sapp_nil_r (s : string) : s +:+ "" = s.
Proof. induction s as [|a s IH]; [done|]. by rewrite sapp_cons, IH. Qed.

Lemma sapp_assoc (s t u : string) : (s +:+ t) +:+ u = s +:+ t +:+ u.
Proof. induction s as [|a s IH]; [done|]. by rewrite !sapp_cons, IH. Qed.

Lemma strip_prefix_app (p s : string) : strip_prefix p (p +:+ s) = Some s.
Proof.
  induction p as [|a p IH]; [done|].
  rewrite sapp_cons. simpl. by rewrite Ascii.eqb_refl.
Qed.

Lemma join_cons (s : string) (l : list string) : join (s :: l) = s +:+ join l.
Proof. reflexivity. Qed.

(** ** Generators *)

Lemma gbind_inr {Y X X'} (ys : list Y) (x : X) (f : X → Gen Y X') :
  gbind (ys, inr x) f = (ys ++ fst (f x), snd (f x)).
Proof. simpl. by destruct (f x). Qed.

Lemma gbind_inl {Y X X'} (ys : list Y) (e : exn) (f : X → Gen Y X') :
  gbind (ys, inl e) f = (ys, inl e).
Proof. reflexivity. Qed.

Lemma gbind_cases {Y X X'} (m : Gen Y X) (f : X → Gen Y X') :
  (∃ e, snd m = inl e ∧ gbind m f = (fst m, inl e))
  ∨ (∃ x, snd m = inr x ∧ gbind m f = (fst m ++ fst (f x), snd (f x))).
Proof.
  destruct m as [ys [e|x]].
  - left. by exists e.
  - right. exists x. by rewrite gbind_inr.
Qed.

Lemma gbind_gret_l {Y X X'} (x : X) (f : X → Gen Y X') : gbind (gret x) f = f x.
Proof. unfold gret. rewrite gbind_inr. by destruct (f x). Qed.

Lemma gbind_ext {Y X X'} (m : Gen Y X) (f g : X → Gen Y X') :
  (∀ x, f x = g x) → gbind m f = gbind m g.
Proof. intros Hfg. destruct m as [ys [e|x]]; [done|]. by rewrite !gbind_inr, Hfg. Qed.

Lemma gbind_assoc {Y X X' X''} (m : Gen Y X) (f : X → Gen Y X')
    (g : X' → Gen Y X'') :
  gbind (gbind m f) g = gbind m (fun x => gbind (f x) g).
Proof.
  destruct m as [ys [e|x]]; [done|]. rewrite !gbind_inr.
  destruct (f x) as [ys' [e|x']]; simpl; [done|].
  destruct (g x') as [ys'' r]. simpl. by rewrite <- app_assoc.
Qed.

(** ** The line-count estimator *)

(** C7: the estimator is a total function; the old count is the length of the
    old list, the new count adds to it the difference of the range ends of the
    last chunk, and without chunks both counts are the length of the old
    list. *)
Theorem ComputeLineCounts_contract (old_lines : list string) :
  _ComputeLineCounts old_lines [] = (len old_lines, len old_lines)
  ∧ ∀ (chunks : list chunk) (old_a old_b new_a new_b : Z) (old new : list string),
      _ComputeLineCounts old_lines
        (chunks ++ [((old_a, old_b), (new_a, new_b), old, new)])
      = (len old_lines, len old_lines + (new_b - old_b)).
Proof.
  split; [done|]. intros chunks old_a old_b new_a new_b old new.
  unfold _ComputeLineCounts. by rewrite last_snoc.
Qed.

(** ** The URL of the base file *)

(** C9: granted that [urlparse] splits the googlecode base into its scheme,
    host and path, [_MakeUrl] gives the svn-history URL of revision 5; and for
    a base on any other host it gives the base, a [/] unless the base ends in
    one, the file name, and [?rev=<rev>] exactly when a revision is given. *)
Theorem MakeUrl_forms `{UrlLib} :
  urlparse "https://x.googlecode.com/svn/proj"
    = ("https", "x.googlecode.com", "/svn/proj", "", "", "") →
  _MakeUrl "https://x.googlecode.com/svn/proj" "a.py" (Some 5)
    = inr "https://x.googlecode.com/svn-history/r5/proj/a.py"
  ∧ ∀ (base filename : string) (rev : option Z),
      endswith (netloc_of base) ".googlecode.com" = false →
      _MakeUrl base filename rev
      = inr (base +:+ (if endswith base "/" then "" else "/") +:+ filename
             +:+ match rev with Some r => "?rev=" +:+ str r | None => "" end).
Proof.
  intros Hparse. split.
  - unfold _MakeUrl. rewrite Hparse. reflexivity.
  - intros base filename rev Hhost. unfold _MakeUrl, netloc_of in *.
    destruct (urlparse base) as [[[[[scheme netloc] path] params] query] fragment].
    rewrite Hhost. f_equal.
    destruct (endswith base "/"), rev; rewrite ?sapp_nil_l, ?sapp_nil_r, ?sapp_assoc; done.
Qed.

Lemma MakeUrl_forms_witness :
  @_MakeUrl simple_urlparse "https://x.googlecode.com/svn/proj" "a.py" (Some 5)
    = inr "https://x.googlecode.com/svn-history/r5/proj/a.py"
  ∧ @_MakeUrl simple_urlparse "http://svn.python.org/view/trunk" "a.py" (Some 5)
    = inr "http://svn.python.org/view/trunk/a.py?rev=5".
Proof.
  destruct (@MakeUrl_forms simple_urlparse eq_refl) as [Hg Hplain].
  split; [exact Hg|].
  exact (Hplain "http://svn.python.org/view/trunk" "a.py" (Some 5) eq_refl).
Defined.

(** ** Fetching the base file *)

(** C8: with a parsed revision of 0 the result is the empty content and no
    URL is fetched; otherwise at most one URL is fetched, and the result is a
    [FetchError] exactly when the base is not a valid link or the one fetch
    that was made raised or answered with a status other than 200; each of
    the three causes gives a [FetchError] with its own message, which is also
    logged. *)
Theorem FetchBase_contract `{UrlLib} `{FetchServices} (base : string) (patch : Patch) :
  let rev := ParseRevision (patch_lines patch) in
  let eff := fst (FetchBase base patch) in
  let result := snd (FetchBase base patch) in
  (rev = Some 0 →
     fetched eff = [] ∧ result = inr (mkContent "" patch false))
  ∧ (rev ≠ Some 0 →
     (length (fetched eff) ≤ 1)%nat
     ∧ ((∃ msg, result = inl (FetchError msg))
        ↔ Link_valid base = false
          ∨ ∃ url, fetched eff = [url] ∧ fetch_failed url)
     ∧ (Link_valid base = false →
        result = inl (FetchError ("Invalid base URL: " +:+ base)))
     ∧ (∀ url cls err,
          fetched eff = [url] → urlfetch_fetch url = inl (cls, err) →
          result = inl (FetchError ("Error fetching " +:+ url +:+ ": " +:+ cls
                                    +:+ ": " +:+ err)))
     ∧ (∀ url status_code content,
          fetched eff = [url] → urlfetch_fetch url = inr (status_code, content) →
          status_code ≠ 200 →
          result = inl (FetchError ("Error fetching " +:+ url +:+ ": HTTP status "
                                    +:+ str status_code)))
     ∧ (∀ msg, result = inl (FetchError msg) → (LogError, msg) ∈ logged eff)).
Proof.
  intros rev eff result. subst eff result. unfold FetchBase. fold rev.
  split.
  - intros Hrev. by rewrite bool_decide_eq_true_2.
  - intros Hrev. rewrite bool_decide_eq_false_2 by done.
    destruct (Link_valid base) eqn:Hlink; simpl.
    + destruct (_MakeUrl base (patch_filename patch) rev) as [e|url] eqn:Hurl; simpl.
      { assert (∀ msg, e ≠ FetchError msg) as Hne.
        { intros msg ->. unfold _MakeUrl in Hurl.
          destruct (urlparse base) as [[[[[? netloc] path] ?] ?] ?].
          destruct (endswith netloc _); [|done].
          destruct rev; [|done]. by destruct (startswith path _). }
        split_and!; try done; try lia.
        - split; [intros [msg [= ->]]; by destruct (Hne msg)|].
          intros [|(url & ? & _)]; done.
        - intros msg [= ->]. by destruct (Hne msg). }
      unfold fetch_failed.
      destruct (urlfetch_fetch url) as [[cls err]|[status_code content]] eqn:Hfetch;
        simpl.
      { split_and!; try done; try lia.
        - split; [|eauto]. intros _. right. exists url. by rewrite Hfetch.
        - by intros url' cls' err' [= <-]; rewrite Hfetch; intros [= <- <-].
        - by intros url' ? ? [= <-]; rewrite Hfetch.
        - intros msg [= <-]. set_solver. }
      case_bool_decide as Hstatus; simpl.
      { split_and!; try done; try lia.
        - split; [|eauto]. intros _. right. exists url. by rewrite Hfetch.
        - by intros url' ? ? [= <-]; rewrite Hfetch.
        - by intros url' ? ? [= <-]; rewrite Hfetch; intros [= <- <-].
        - intros msg [= <-]. set_solver. }
      split_and!; try done; try lia.
      * split; [by intros [msg [=]]|].
        intros [|(url' & [= <-] & Hfail)]; [done|].
        by rewrite Hfetch in Hfail.
      * by intros url' ? ? [= <-]; rewrite Hfetch.
      * intros url' ? ? [= <-]; rewrite Hfetch. by intros [= <- <-] ?.
    + split_and!; try done; try (simpl; lia).
      * split; eauto.
      * intros msg [= <-]. set_solver.
Qed.



Lemma FetchBase_contract_witness :
  (fetched (fst (@FetchBase simple_urlparse new_file_fetch "http://h/base"
                   (mkPatch 1 "a.py" []))) = []
   ∧ snd (@FetchBase simple_urlparse new_file_fetch "http://h/base"
            (mkPatch 1 "a.py" []))
     = inr (mkContent "" (mkPatch 1 "a.py" []) false))
  ∧ snd (@FetchBase simple_urlparse failing_fetch "http://h/base"
           (mkPatch 1 "a.py" []))
    = inl (FetchError "Error fetching http://h/base/a.py?rev=7: DownloadError: timed out").
Proof.
  split.
  - exact (proj1 (@FetchBase_contract simple_urlparse new_file_fetch "http://h/base"
                    (mkPatch 1 "a.py" [])) eq_refl).
  - destruct (proj2 (@FetchBase_contract simple_urlparse failing_fetch "http://h/base"
                       (mkPatch 1 "a.py" [])) ltac:(done))
      as (_ & _ & _ & Hraise & _).
    exact (Hraise "http://h/base/a.py?rev=7" "DownloadError" "timed out"
             eq_refl eq_refl).
Defined.

(** ** Contracting a run of equal rows *)

Lemma len_nonneg {A} (l : list A) : 0 ≤ len l.
Proof. unfold len. lia. Qed.

Lemma slice_to_nat {A} (l : list A) (n : Z) :
  0 ≤ n → slice_to l n = take (Z.to_nat n) l.
Proof.
  intros Hn. unfold slice_to, slice_bound.
  by destruct (Z.ltb_spec n 0); [lia|].
Qed.

Lemma slice_from_neg {A} (l : list A) (n : Z) :
  0 < n → slice_from l (- n) = drop (length l - Z.to_nat n) l.
Proof.
  intros Hn. unfold slice_from, slice_bound, len.
  destruct (Z.ltb_spec (- n) 0); [|lia]. f_equal. lia.
Qed.

(** The loop over the head rows keeps the identifier of the last row that
    matches the pattern. *)
Lemma scan_from_None (head : list string) (acc : option Z) :
  foldl (fun last_id t =>
           match match_pair_row t with Some n => Some n | None => last_id end)
        acc head = None
  ↔ acc = None ∧ ∀ t, t ∈ head → match_pair_row t = None.
Proof.
  revert acc. induction head as [|t head IH]; intros acc; simpl.
  - split; [|by intros []]. intros ->. split; [done|]. intros t Ht. by apply elem_of_nil in Ht.
  - rewrite IH. split.
    + intros [Hacc Hall]. destruct (match_pair_row t) eqn:Ht; [done|].
      split; [done|]. intros t' [->|?]%elem_of_cons; auto.
    + intros [-> Hall]. rewrite (Hall t) by (by left).
      split; [done|]. intros t' ?. apply Hall. by right.
Qed.

Lemma scan_from_Some (head : list string) (acc : option Z) (a : Z) :
  foldl (fun last_id t =>
           match match_pair_row t with Some n => Some n | None => last_id end)
        acc head = Some a
  → acc = Some a ∨ ∃ t, t ∈ head ∧ match_pair_row t = Some a.
Proof.
  revert acc. induction head as [|t head IH]; intros acc; simpl; [by left|].
  intros [Hacc|(t' & ? & ?)]%IH.
  - destruct (match_pair_row t) eqn:Ht; [|by left].
    right. exists t. split; [by left|]. by rewrite Ht.
  - right. exists t'. split; [by right|done].
Qed.

Lemma scan_last_id_None (head : list string) :
  scan_last_id head = None ↔ ∀ t, t ∈ head → match_pair_row t = None.
Proof.
  unfold scan_last_id. rewrite scan_from_None.
  split; [by intros [_ ?]|by intros ?; split].
Qed.

Lemma scan_last_id_Some (head : list string) (a : Z) :
  scan_last_id head = Some a → ∃ t, t ∈ head ∧ match_pair_row t = Some a.
Proof. intros [?|?]%scan_from_Some; naive_solver. Qed.

(** What [_ShortenBuffer] does on a long buffer, by the value of [last_id]. *)
Lemma ShortenBuffer_long (buffer : list string) (context : Z) :
  3 * context ≤ len buffer →
  _ShortenBuffer buffer context
  = match scan_last_id (slice_to buffer context) with
    | None => (slice_to buffer context, inl TypeError)
    | Some last_id =>
        (slice_to buffer context
         ++ [skip_row last_id (len buffer - 2 * context)
               ((if len buffer - 2 * context <=? 10
                 then expand_link_show else expand_link_show10)
                  (last_id + 1) (last_id + (len buffer - 2 * context)) last_id)]
         ++ slice_from buffer (- context), inr tt)
    end.
Proof.
  intros Hlong. unfold _ShortenBuffer.
  destruct (Z.ltb_spec (len buffer) (3 * context)); [lia|].
  unfold yield_all. rewrite gbind_inr.
  destruct (scan_last_id (slice_to buffer context)) as [last_id|]; simpl.
  - done.
  - by rewrite app_nil_r.
Qed.

Lemma ShortenBuffer_short (buffer : list string) (context : Z) :
  len buffer < 3 * context → _ShortenBuffer buffer context = (buffer, inr tt).
Proof.
  intros Hshort. unfold _ShortenBuffer.
  by destruct (Z.ltb_spec (len buffer) (3 * context)); [|lia].
Qed.

(** A long buffer with a row that matches the row pattern among its head
    rows is contracted around the identifier of such a row. *)
Lemma ShortenBuffer_contracts (buffer : list string) (context : Z) :
  3 * context ≤ len buffer →
  (∃ t, t ∈ slice_to buffer context ∧ is_Some (match_pair_row t)) →
  ∃ anchor t,
    t ∈ slice_to buffer context ∧ match_pair_row t = Some anchor
    ∧ _ShortenBuffer buffer context
      = (slice_to buffer context
         ++ [skip_row anchor (len buffer - 2 * context)
               ((if len buffer - 2 * context <=? 10
                 then expand_link_show else expand_link_show10)
                  (anchor + 1) (anchor + (len buffer - 2 * context)) anchor)]
         ++ slice_from buffer (- context), inr tt).
Proof.
  intros Hlong (t & Ht & Hmatch). rewrite ShortenBuffer_long by done.
  destruct (scan_last_id (slice_to buffer context)) as [anchor|] eqn:Hscan.
  - destruct (scan_last_id_Some _ _ Hscan) as (t' & ? & ?). by exists anchor, t'.
  - rewrite scan_last_id_None in Hscan. rewrite (Hscan t Ht) in Hmatch.
    by destruct Hmatch.
Qed.

(** C10: when a buffer is contracted, a row among the first [context] rows
    that matches the row pattern gives the anchor, the placeholder is built
    from [anchor + 1] and [anchor + skip], and the generator ends normally;
    when no such row exists, [last_id] stays [None] and the generator raises
    [TypeError] after the head rows, without a placeholder. *)
Theorem ShortenBuffer_anchor (buffer : list string) (context : Z) :
  3 * context ≤ len buffer →
  ((∃ t, t ∈ slice_to buffer context ∧ is_Some (match_pair_row t)) →
   ∃ anchor t,
     t ∈ slice_to buffer context ∧ match_pair_row t = Some anchor
     ∧ _ShortenBuffer buffer context
       = (slice_to buffer context
          ++ [skip_row anchor (len buffer - 2 * context)
                ((if len buffer - 2 * context <=? 10
                  then expand_link_show else expand_link_show10)
                   (anchor + 1) (anchor + (len buffer - 2 * context)) anchor)]
          ++ slice_from buffer (- context), inr tt))
  ∧ ((∀ t, t ∈ slice_to buffer context → match_pair_row t = None) →
     _ShortenBuffer buffer context = (slice_to buffer context, inl TypeError)).
Proof.
  intros Hlong. split.
  - by apply ShortenBuffer_contracts.
  - intros Hnone. rewrite ShortenBuffer_long by done.
    apply scan_last_id_None in Hnone. by rewrite Hnone.
Qed.

Lemma ShortenBuffer_anchor_witness :
  (∃ anchor t,
     t ∈ slice_to (bare_rows 7 3) 1 ∧ match_pair_row t = Some anchor
     ∧ _ShortenBuffer (bare_rows 7 3) 1
       = (slice_to (bare_rows 7 3) 1
          ++ [skip_row anchor (len (bare_rows 7 3) - 2 * 1)
                ((if len (bare_rows 7 3) - 2 * 1 <=? 10
                  then expand_link_show else expand_link_show10)
                   (anchor + 1) (anchor + (len (bare_rows 7 3) - 2 * 1)) anchor)]
          ++ slice_from (bare_rows 7 3) (- 1), inr tt))
  ∧ _ShortenBuffer ["a"; "b"; "c"] 1 = (slice_to ["a"; "b"; "c"] 1, inl TypeError).
Proof.
  split.
  - apply (proj1 (ShortenBuffer_anchor (bare_rows 7 3) 1 ltac:(vm_compute; discriminate))).
    exists (bare_row 7). split; [by left|]. vm_compute. eauto.
  - apply (proj2 (ShortenBuffer_anchor ["a"; "b"; "c"] 1 ltac:(vm_compute; discriminate))).
    intros t Ht. apply list_elem_of_singleton in Ht as ->. reflexivity.
Defined.

(** The placeholder row shows the number of skipped rows between the
    [skipcount] span and the words [matching lines]. *)
Lemma skip_row_shows_count (last_id skip : Z) (links : string) :
  skip_row last_id skip links
  = ("<tr id=" +:+ quoted ("skip-" +:+ str last_id) +:+ "><td colspan=" +:+ quoted "2"
     +:+ " align=" +:+ quoted "center" +:+ " style=" +:+ quoted "background:lightblue"
     +:+ ">(...skipping <span id=" +:+ quoted ("skipcount-" +:+ str last_id))
    +:+ (">" +:+ str skip +:+ "</span> matching lines...) ")
    +:+ ("<span id=" +:+ quoted ("skiplinks-" +:+ str last_id) +:+ ">" +:+ links
         +:+ "</span></td></tr>" +:+ nl).
Proof. unfold skip_row. rewrite !sapp_assoc. by do 9 f_equal. Qed.

(** X20: a buffer shorter than three times [context] is yielded unchanged;
    a longer one, for [context] at least 1 and with a row matching the row
    pattern among its first [context] rows, is yielded as its first [context]
    rows, one placeholder and its last [context] rows; for [context = 50] and
    200 rows that is 50 rows, the placeholder and 50 rows, and the placeholder
    shows a skip count of 100. *)
Theorem ShortenBuffer_contraction (buffer : list string) (context : Z) :
  (len buffer < 3 * context → _ShortenBuffer buffer context = (buffer, inr tt))
  ∧ (1 ≤ context → 3 * context ≤ len buffer →
     (∃ t, t ∈ take (Z.to_nat context) buffer ∧ is_Some (match_pair_row t)) →
     ∃ anchor links,
       _ShortenBuffer buffer context
       = (take (Z.to_nat context) buffer
          ++ [skip_row anchor (len buffer - 2 * context) links]
          ++ drop (length buffer - Z.to_nat context) buffer, inr tt)
       ∧ (context = 50 → len buffer = 200 →
          length (take (Z.to_nat context) buffer) = 50%nat
          ∧ length (drop (length buffer - Z.to_nat context) buffer) = 50%nat
          ∧ ∃ opening closing,
              skip_row anchor (len buffer - 2 * context) links
              = opening +:+ ">100</span> matching lines...) " +:+ closing)).
Proof.
  split; [apply ShortenBuffer_short|].
  intros Hctx Hlong Hmark. rewrite <- slice_to_nat in Hmark by lia.
  destruct (ShortenBuffer_contracts buffer context Hlong Hmark)
    as (anchor & t & _ & _ & Heq).
  rewrite slice_to_nat, slice_from_neg in Heq by lia.
  eexists anchor, _. split; [exact Heq|].
  intros -> Hlen. unfold len in Hlen.
  rewrite length_take, length_drop. split_and!; [lia..|].
  replace (len buffer - 2 * 50) with 100 by (unfold len; lia).
  rewrite skip_row_shows_count. eexists _, _. reflexivity.
Qed.

Lemma ShortenBuffer_contraction_witness :
  _ShortenBuffer (bare_rows 1 2) 1 = (bare_rows 1 2, inr tt)
  ∧ ∃ anchor links,
      _ShortenBuffer (bare_rows 1 200) 50
      = (take (Z.to_nat 50) (bare_rows 1 200)
         ++ [skip_row anchor (len (bare_rows 1 200) - 2 * 50) links]
         ++ drop (length (bare_rows 1 200) - Z.to_nat 50) (bare_rows 1 200), inr tt)
      ∧ (50 = 50 → len (bare_rows 1 200) = 200 →
         length (take (Z.to_nat 50) (bare_rows 1 200)) = 50%nat
         ∧ length (drop (length (bare_rows 1 200) - Z.to_nat 50) (bare_rows 1 200))
           = 50%nat
         ∧ ∃ opening closing,
             skip_row anchor (len (bare_rows 1 200) - 2 * 50) links
             = opening +:+ ">100</span> matching lines...) " +:+ closing).
Proof.
  split.
  - apply (proj1 (ShortenBuffer_contraction (bare_rows 1 2) 1)). vm_compute. reflexivity.
  - apply (proj2 (ShortenBuffer_contraction (bare_rows 1 200) 50)).
    + lia.
    + vm_compute. discriminate.
    + exists (bare_row 1). split; [|vm_compute; eauto].
      change (bare_rows 1 200) with (bare_row 1 :: bare_rows 2 199).
      change (Z.to_nat 50) with 50%nat. simpl. left.
Defined.

(** C2: the contraction rule does not hold for every context value. With
    [context = 0] the head window [buffer[:0]] is empty, [last_id] stays [None]
    and [last_id + 1] raises [TypeError]: for four rows that carry their
    identifiers, and for every other buffer, nothing is yielded, where the
    docstring of [_ShortenBuffer] promises the first [context] items, a single
    row for the contraction and the last [context] items. *)
Theorem ShortenBuffer_context_zero :
  3 * 0 ≤ len (bare_rows 1 4)
  ∧ _ShortenBuffer (bare_rows 1 4) 0 = ([], inl TypeError)
  ∧ (¬ ∃ placeholder,
         yielded (_ShortenBuffer (bare_rows 1 4) 0)
         = slice_to (bare_rows 1 4) 0 ++ [placeholder]
           ++ slice_from (bare_rows 1 4) (- 0))
  ∧ ∀ buffer, _ShortenBuffer buffer 0 = ([], inl TypeError).
Proof.
  split_and!.
  - vm_compute. discriminate.
  - reflexivity.
  - intros [placeholder Heq]. vm_compute in Heq. discriminate.
  - intros buffer. rewrite ShortenBuffer_long by apply len_nonneg. reflexivity.
Qed.

(** ** Row identifiers *)

Lemma span_digits_uint (d : uint) (c : ascii) (rest : string) :
  is_digit c = false →
  span_digits (NilEmpty.string_of_uint d +:+ String c rest)
  = (NilEmpty.string_of_uint d, String c rest).
Proof.
  intros Hc. induction d as [|d IH|d IH|d IH|d IH|d IH|d IH|d IH|d IH|d IH|d IH];
    simpl NilEmpty.string_of_uint; rewrite ?sapp_cons, ?sapp_nil_l; simpl;
    rewrite ?IH, ?Hc; done.
Qed.

Lemma str_nonneg (n : Z) :
  0 ≤ n →
  ∃ d, d ≠ Nil ∧ str n = NilEmpty.string_of_uint d ∧ Z.of_uint d = n.
Proof.
  intros Hn. destruct n as [|p|p]; [| |lia].
  - exists (D0 Nil). done.
  - exists (Pos.to_uint p). split_and!.
    + apply Unsigned.to_uint_nonnil.
    + unfold str. simpl. unfold NilZero.string_of_uint.
      pose proof (Unsigned.to_uint_nonnil p). by destruct (Pos.to_uint p).
    + exact (DecimalZ.of_to (Z.pos p)).
Qed.

Lemma bind_Some {A B} (x : A) (f : A → option B) : Some x ≫= f = f x.
Proof. reflexivity. Qed.

(** The pattern tail reads back the identifier that [' id="pair-%d">'] wrote. *)
Lemma match_pair_id_str (n : Z) (rest : string) :
  0 ≤ n →
  match_pair_id (row_id_frag n +:+ rest) = Some n.
Proof.
  intros (d & Hnil & Hstr & Hval)%str_nonneg.
  unfold match_pair_id, row_id_frag, quoted.
  rewrite Hstr, !sapp_assoc.
  set (tail := NilEmpty.string_of_uint d +:+ dq +:+ ">" +:+ rest).
  change (" id=" +:+ dq +:+ "pair-" +:+ tail)
    with ((" id=" +:+ dq +:+ "pair-") +:+ tail).
  rewrite strip_prefix_app, bind_Some. subst tail.
  change (dq +:+ ">" +:+ rest) with (String "034" (">" +:+ rest)).
  rewrite span_digits_uint by done. cbv beta iota.
  rewrite bool_decide_eq_false_2 by (by destruct d).
  change (String "034" (">" +:+ rest)) with ((dq +:+ ">") +:+ rest).
  rewrite strip_prefix_app, bind_Some. unfold int_of_digits.
  by rewrite NilEmpty.usu, <- Hval.
Qed.

Lemma match_pair_row_frags (hook : bool) (n : Z) (rest : string) :
  0 ≤ n →
  match_pair_row (row_opening hook +:+ row_id_frag n +:+ rest) = Some n.
Proof.
  intros Hn. unfold match_pair_row, row_opening.
  destruct hook.
  - change ("<tr name=" +:+ quoted "hook") with ("<tr" +:+ " name=" +:+ quoted "hook").
    rewrite !sapp_assoc, strip_prefix_app, bind_Some.
    rewrite <- (sapp_assoc " name="), strip_prefix_app, bind_Some.
    by rewrite match_pair_id_str.
  - rewrite strip_prefix_app, bind_Some, match_pair_id_str by done.
    assert (strip_prefix (" name=" +:+ quoted "hook") (row_id_frag n +:+ rest) = None)
      as -> by (unfold row_id_frag; rewrite sapp_assoc; reflexivity).
    done.
Qed.

Lemma numbered_from_app (first : Z) (rows rows' : list row) :
  numbered_from first (rows ++ rows')
  ↔ numbered_from first rows ∧ numbered_from (first + len rows) rows'.
Proof.
  revert first. induction rows as [|r rows IH]; intros first; simpl.
  - unfold len. simpl. rewrite Z.add_0_r. tauto.
  - rewrite IH. unfold len. simpl length.
    replace (first + 1 + Z.of_nat (length rows))
      with (first + Z.of_nat (S (length rows))) by lia.
    tauto.
Qed.

Lemma numbered_from_seqZ (first : Z) (rows : list row) :
  numbered_from first rows
  ↔ (match_pair_row ∘ snd) <$> rows = Some <$> seqZ (first + 1) (len rows).
Proof.
  revert first. induction rows as [|r rows IH]; intros first.
  - by rewrite seqZ_nil.
  - unfold len. simpl length. rewrite seqZ_cons by lia.
    rewrite !fmap_cons. simpl numbered_from. rewrite IH. unfold len.
    replace (Z.pred (Z.of_nat (S (length rows)))) with (Z.of_nat (length rows)) by lia.
    replace (Z.succ (first + 1)) with (first + 1 + 1) by lia.
    split; [intros [Hr Hrows]; simpl; by rewrite Hr, Hrows|].
    intros [= Hr Hrows]. by split.
Qed.

Lemma numbered_from_lookup (first : Z) (rows : list row) :
  numbered_from first rows
  ↔ ∀ (i : nat) r, rows !! i = Some r →
                   match_pair_row (snd r) = Some (first + Z.of_nat i + 1).
Proof.
  revert first. induction rows as [|r rows IH]; intros first; simpl.
  - split; [|done]. by intros _ i r' ?.
  - rewrite IH. split.
    + intros [Hr Hrows] [|i] r'; simpl.
      * intros [= <-]. rewrite Hr. f_equal. lia.
      * intros Hi. rewrite (Hrows i r' Hi). f_equal. lia.
    + intros Hall. split.
      * rewrite (Hall 0%nat r eq_refl). f_equal. lia.
      * intros i r' Hi. rewrite (Hall (S i) r' Hi). f_equal. lia.
Qed.

(** The identifiers of row texts that are numbered as rows tagged [equal]. *)
Lemma numbered_texts (first : Z) (texts : list string) :
  numbered_from first (pair "equal" <$> texts)
  ↔ match_pair_row <$> texts = Some <$> seqZ (first + 1) (len texts).
Proof.
  rewrite numbered_from_seqZ, <- list_fmap_compose. unfold len.
  by rewrite length_fmap.
Qed.

(** The loop over the head rows, on rows that are numbered in order. *)
Lemma scan_numbered (head : list string) (first : Z) (acc : option Z) :
  numbered_from first (pair "equal" <$> head) →
  foldl (fun last_id t =>
           match match_pair_row t with Some n => Some n | None => last_id end)
        acc head
  = match head with [] => acc | _ => Some (first + len head) end.
Proof.
  revert first acc. induction head as [|t head IH]; intros first acc; [done|].
  intros [Ht Hhead]. simpl in Ht. simpl foldl. rewrite Ht, (IH (first + 1)) by done.
  destruct head as [|t' head]; f_equal; unfold len; simpl length; lia.
Qed.


(** The loop over the head rows ends with the identifier of the last row
    that matches the row pattern. *)
Lemma scan_from_last (head : list string) (acc : option Z) (a : Z) :
  foldl (fun last_id t =>
           match match_pair_row t with Some n => Some n | None => last_id end)
        acc head = Some a →
  (acc = Some a ∧ Forall (fun t => match_pair_row t = None) head)
  ∨ ∃ h1 t h2,
      head = h1 ++ t :: h2 ∧ match_pair_row t = Some a
      ∧ Forall (fun t' => match_pair_row t' = None) h2.
Proof.
  revert acc. induction head as [|t head IH]; intros acc; simpl; [by left|].
  intros [[Hacc Hnone]|(h1 & t' & h2 & -> & Ht' & Hnone)]%IH.
  - destruct (match_pair_row t) as [n|] eqn:Ht.
    + right. exists [], t, head. by rewrite Ht, Hacc.
    + left. split; [done|]. by constructor.
  - right. by exists (t :: h1), t', h2.
Qed.

Lemma scan_last_id_last (head : list string) (a : Z) :
  scan_last_id head = Some a →
  ∃ h1 t h2,
    head = h1 ++ t :: h2 ∧ match_pair_row t = Some a
    ∧ Forall (fun t' => match_pair_row t' = None) h2.
Proof. by intros [[? _]|?]%scan_from_last. Qed.

(** A run of rows tagged [equal] inside rows that come as informational
    rows, numbered code rows and an error row is numbered in order. *)
Lemma equal_run_numbered (info body err pre post : list row) (buffer : list string) :
  Forall (fun r => fst r ≠ "equal") info →
  Forall (fun r => fst r ≠ "equal") err →
  numbered_from 0 body →
  info ++ body ++ err = pre ++ (pair "equal" <$> buffer) ++ post →
  ∃ first, numbered_from first (pair "equal" <$> buffer).
Proof.
  intros Hinfo Herr Hnum Hrows.
  exists (len pre - len info). apply numbered_from_lookup. intros i r Hi.
  assert (fst r = "equal") as Htag.
  { apply list_lookup_fmap_Some in Hi as (t & -> & _). done. }
  pose proof (f_equal (fun l => l !! (length pre + i)%nat) Hrows) as Hrow.
  cbv beta in Hrow.
  rewrite (lookup_app_r pre) in Hrow by lia.
  replace (length pre + i - length pre)%nat with i in Hrow by lia.
  rewrite (lookup_app_l_Some _ _ _ _ Hi) in Hrow.
  rewrite Forall_lookup in Hinfo. rewrite Forall_lookup in Herr.
  destruct (decide (length pre + i < length info)%nat) as [Hlt|Hge].
  { rewrite lookup_app_l in Hrow by done. destruct (Hinfo _ _ Hrow Htag). }
  rewrite lookup_app_r in Hrow by lia.
  destruct (decide (length pre + i - length info < length body)%nat) as [Hlt|Hge'].
  - rewrite lookup_app_l in Hrow by done.
    rewrite numbered_from_lookup in Hnum. rewrite (Hnum _ _ Hrow).
    f_equal. unfold len. lia.
  - rewrite lookup_app_r in Hrow by lia. destruct (Herr _ _ Hrow Htag).
Qed.

Lemma frags_from_snoc (first : Z) (frag_list : list (list string))
    (frags : list string) :
  frags_from first (frag_list ++ [frags])
  ↔ frags_from first frag_list
    ∧ ∃ hook, frags = [row_opening hook; row_id_frag (first + len frag_list + 1)].
Proof.
  revert first. induction frag_list as [|f frag_list IH]; intros first; simpl.
  - unfold len. simpl. rewrite Z.add_0_r. tauto.
  - rewrite IH. unfold len. simpl length.
    replace (first + 1 + Z.of_nat (length frag_list) + 1)
      with (first + Z.of_nat (S (length frag_list)) + 1) by lia.
    tauto.
Qed.

Section RowGenerator.

Context `{IntraRegionLib} `{TemplateLib} `{UserService}.

(** A rendered row keeps the start it was given, and its tag is the tag of
    the operation, with [_comment] added or not. *)
Lemma render_pair_row (ob nb : out_entry) (hook : bool) (n : Z)
    (ndigits : Z) (tag : string) (do_ir_diff : bool)
    (old_dict new_dict : comment_dict) (old_patch new_patch : option Patch)
    (old_snapshot new_snapshot : string) (debug : bool) (user : option User)
    (r : row) :
  0 ≤ n →
  render_pair ob nb [row_opening hook; row_id_frag n] ndigits tag do_ir_diff
    old_dict new_dict old_patch new_patch old_snapshot new_snapshot debug user
  = inr r →
  match_pair_row (snd r) = Some n ∧ tagged tag r.
Proof.
  intros Hn. unfold render_pair, tagged.
  destruct ob as [[old_valid old_lineno] [[old_text old_nl] old_dbg]].
  destruct nb as [[new_valid new_lineno] [[new_text new_nl] new_dbg]].
  case_bool_decide.
  - destruct (_RenderInlineComments old_valid _ _ _ _ _ _); [done|].
    destruct (_RenderInlineComments new_valid _ _ _ _ _ _); [done|].
    intros [= <-]. simpl snd. simpl fst. split.
    + destruct debug; rewrite <- !app_assoc; simpl app;
        rewrite !join_cons; by apply match_pair_row_frags.
    + destruct (_ || _); auto.
  - intros [= <-]. simpl snd. simpl fst. split; [|by left].
    destruct debug; rewrite <- ?app_assoc; simpl app;
      rewrite !join_cons; by apply match_pair_row_frags.
Qed.

Lemma RenderDiffInternal_rows (old_buff new_buff : list out_entry)
    (ndigits : Z) (tag : string) (frag_list : list (list string))
    (do_ir_diff : bool) (old_dict new_dict : comment_dict)
    (old_patch new_patch : option Patch) (old_snapshot new_snapshot : string)
    (colwidth : Z) (debug : bool) (first : Z) :
  0 ≤ first → frags_from first frag_list →
  let g := _RenderDiffInternal old_buff new_buff ndigits tag frag_list do_ir_diff
             old_dict new_dict old_patch new_patch old_snapshot new_snapshot
             colwidth debug in
  numbered_from first (fst g)
  ∧ Forall (tagged tag) (fst g)
  ∧ (length (fst g) ≤ length old_buff)%nat
  ∧ (snd g = inr tt → length (fst g) = length old_buff).
Proof.
  revert new_buff frag_list first.
  induction old_buff as [|ob old_buff IH]; intros new_buff frag_list first Hfirst Hfrags;
    simpl.
  { split_and!; done. }
  destruct new_buff as [|nb new_buff]; [split_and!; simpl; done || lia|].
  destruct frag_list as [|frags frag_list]; [split_and!; simpl; done || lia|].
  destruct Hfrags as [[hook ->] Hfrags].
  destruct (render_pair _ _ _ _ _ _ _ _ _ _ _ _ _ _) as [e|r] eqn:Hpair.
  { split_and!; simpl; done || lia. }
  apply render_pair_row in Hpair as [Hid Htag]; [|lia].
  specialize (IH new_buff frag_list (first + 1) ltac:(lia) Hfrags).
  destruct (_RenderDiffInternal old_buff _ _ _ _ _ _ _ _ _ _ _ _ _) as [ys res].
  simpl in IH. destruct IH as (Hnum & Htags & Hle & Hfin).
  simpl. split_and!; [done|done|by constructor|lia|]. intros ?. f_equal. auto.
Qed.

Variables (old_patch : option Patch) (old_dict : comment_dict)
          (old_snapshot : string)
          (new_patch : option Patch) (new_dict : comment_dict)
          (new_snapshot : string)
          (colwidth : Z) (debug : bool)
          (diff_params : DiffParams) (ndigits indent : Z).

Local Abbreviation ploop :=
  (pair_loop old_patch old_dict old_snapshot new_patch new_dict new_snapshot
     colwidth debug ndigits indent).
Local Abbreviation region :=
  (render_region old_patch old_dict old_snapshot new_patch new_dict new_snapshot
     colwidth debug diff_params ndigits indent).
Local Abbreviation tloop :=
  (triple_loop old_patch old_dict old_snapshot new_patch new_dict new_snapshot
     colwidth debug diff_params ndigits indent).

(** One turn of the loop over the pairs, when the rows are rendered at
    once. *)
Lemma pair_loop_render_step (tag : string) (old new : list string)
    (old1 old2 new1 new2 : Z) (i : nat) (indices : list nat) (st : pair_state) :
  ∃ ob nb hook,
    ploop tag old new old1 old2 new1 new2 false (i :: indices) st
    = (_RenderDiffInternal [ob] [nb] ndigits tag
         (st_frag_list st ++ [[row_opening hook; row_id_frag (st_row_count st + 1)]])
         false old_dict new_dict old_patch new_patch old_snapshot new_snapshot
         colwidth debug ;;;
       ploop tag old new old1 old2 new1 new2 false indices
         (mkPairState (st_row_count st + 1) [] (st_old_buff st) (st_new_buff st))).
Proof. eexists _, _, _. reflexivity. Qed.

(** One turn of the loop over the pairs, when the region is kept for the
    intra-region diff. *)
Lemma pair_loop_collect_step (tag : string) (old new : list string)
    (old1 old2 new1 new2 : Z) (i : nat) (indices : list nat) (st : pair_state) :
  ∃ ob nb hook,
    ploop tag old new old1 old2 new1 new2 true (i :: indices) st
    = ploop tag old new old1 old2 new1 new2 true indices
        (mkPairState (st_row_count st + 1)
           (st_frag_list st ++ [[row_opening hook; row_id_frag (st_row_count st + 1)]])
           (st_old_buff st ++ [ob]) (st_new_buff st ++ [nb])).
Proof. eexists _, _, _. reflexivity. Qed.

Lemma pair_loop_rendered (tag : string) (old new : list string)
    (old1 old2 new1 new2 : Z) (indices : list nat) (st : pair_state) :
  0 ≤ st_row_count st → st_frag_list st = [] →
  let g := ploop tag old new old1 old2 new1 new2 false indices st in
  numbered_from (st_row_count st) (fst g)
  ∧ Forall (tagged tag) (fst g)
  ∧ ∀ st', snd g = inr st' →
      st_row_count st' = st_row_count st + len indices
      ∧ len (fst g) = len indices.
Proof.
  revert st. induction indices as [|i indices IH]; intros st Hcount Hfrags.
  { simpl. split_and!; [done..|]. intros st' [= <-]. unfold len. simpl. lia. }
  destruct (pair_loop_render_step tag old new old1 old2 new1 new2 i indices st)
    as (ob & nb & hook & ->).
  rewrite Hfrags, app_nil_l.
  pose proof (RenderDiffInternal_rows [ob] [nb] ndigits tag
                [[row_opening hook; row_id_frag (st_row_count st + 1)]] false
                old_dict new_dict old_patch new_patch old_snapshot new_snapshot
                colwidth debug (st_row_count st) Hcount) as Hrows.
  simpl in Hrows. specialize (Hrows ltac:(eauto)).
  destruct Hrows as (Hnum & Htags & Hle & Hfin).
  match goal with |- context [gbind ?m ?f] => destruct (gbind_cases m f)
    as [(e & Hend & ->)|(x & Hend & ->)] end.
  { simpl. split_and!; done. }
  specialize (Hfin ltac:(by destruct x)).
  specialize (IH (mkPairState (st_row_count st + 1) [] (st_old_buff st)
                    (st_new_buff st)) ltac:(simpl; lia) eq_refl).
  simpl in IH. destruct IH as (Hnum' & Htags' & Hend').
  simpl. split_and!.
  - apply numbered_from_app. split; [done|].
    unfold len. by rewrite Hfin.
  - by apply Forall_app.
  - intros st' Hst'. destruct (Hend' st' Hst') as [-> Hlen].
    unfold len in *. rewrite length_app, Hfin. simpl length. lia.
Qed.

Lemma pair_loop_collected (tag : string) (old new : list string)
    (old1 old2 new1 new2 : Z) (indices : list nat) (st : pair_state) (first : Z) :
  frags_from first (st_frag_list st) →
  st_row_count st = first + len (st_frag_list st) →
  length (st_old_buff st) = length (st_frag_list st) →
  length (st_new_buff st) = length (st_frag_list st) →
  ∃ st',
    ploop tag old new old1 old2 new1 new2 true indices st = ([], inr st')
    ∧ frags_from first (st_frag_list st')
    ∧ st_row_count st' = first + len (st_frag_list st')
    ∧ length (st_old_buff st') = length (st_frag_list st')
    ∧ length (st_new_buff st') = length (st_frag_list st')
    ∧ len (st_frag_list st') = len (st_frag_list st) + len indices.
Proof.
  revert st. induction indices as [|i indices IH]; intros st Hfrags Hcount Hold Hnew.
  { exists st. split_and!; [done..|]. unfold len. simpl. lia. }
  destruct (pair_loop_collect_step tag old new old1 old2 new1 new2 i indices st)
    as (ob & nb & hook & ->).
  destruct (IH (mkPairState (st_row_count st + 1)
                  (st_frag_list st ++ [[row_opening hook;
                                        row_id_frag (st_row_count st + 1)]])
                  (st_old_buff st ++ [ob]) (st_new_buff st ++ [nb])))
    as (st' & -> & ? & ? & ? & ? & Hlen); simpl.
  - apply frags_from_snoc. split; [done|]. exists hook. by rewrite Hcount.
  - unfold len. rewrite length_app. simpl. unfold len in Hcount. lia.
  - rewrite !length_app. simpl. lia.
  - rewrite !length_app. simpl. lia.
  - exists st'. split_and!; [done..|]. simpl in Hlen.
    rewrite Hlen. unfold len. rewrite length_app. simpl. lia.
Qed.

Lemma substitute_length (buff : list raw_entry)
    (out : list (string * bool * option string)) (buff' : list out_entry) :
  substitute buff out = Some buff' → length buff' = length buff.
Proof.
  revert out buff'. induction buff as [|[[valid lineno] text] buff IH];
    intros out buff'; simpl.
  - by intros [= <-].
  - destruct out as [|o out]; [done|].
    destruct (substitute buff out) as [rest|] eqn:Hrest; [|done].
    intros [= <-]. simpl. f_equal. eauto.
Qed.

Lemma render_region_rows (tag : string) (st : pair_state) (first : Z) :
  0 ≤ first → frags_from first (st_frag_list st) →
  let g := region tag st in
  numbered_from first (fst g)
  ∧ Forall (tagged tag) (fst g)
  ∧ (snd g = inr tt → length (fst g) = length (st_old_buff st)).
Proof.
  intros Hfirst Hfrags. unfold render_region.
  destruct (IntraRegionDiff _ _ _) as [[old_chunks new_chunks] ratio].
  destruct (substitute (st_old_buff st) _) as [old_out|] eqn:Hold;
    [|simpl; split_and!; done].
  destruct (substitute (st_new_buff st) _) as [new_out|] eqn:Hnew;
    [|simpl; split_and!; done].
  pose proof (RenderDiffInternal_rows old_out new_out ndigits tag (st_frag_list st)
                true old_dict new_dict old_patch new_patch old_snapshot
                new_snapshot colwidth debug first Hfirst Hfrags) as Hrows.
  simpl in Hrows. destruct Hrows as (? & ? & ? & Hfin).
  simpl. split_and!; [done..|].
  intros ?. rewrite Hfin by done. by eapply substitute_length.
Qed.

(** One turn of the loop over the operations. *)
Lemma triple_loop_step (tag : string) (old new : list string)
    (triples : list triple) (old_offset new_offset row_count : Z) :
  tloop ((tag, old, new) :: triples) old_offset new_offset row_count
  = if startswith tag "error" then yield (error_row tag)
    else
      let do_ir_diff := bool_decide (tag = "replace") && CanDoIRDiff old new in
      (st <- ploop tag old new old_offset (old_offset + len old)
               new_offset (new_offset + len new) do_ir_diff
               (seq 0 (Nat.max (length old) (length new)))
               (mkPairState row_count [] [] []) ;;
       (if do_ir_diff then region tag st else gret tt) ;;;
       tloop triples (old_offset + len old) (new_offset + len new)
         (st_row_count st)).
Proof. reflexivity. Qed.

(** The rows of one operation: the loop over its pairs and, for a region
    kept for the intra-region diff, the rendering that follows. *)
Lemma operation_rows (tag : string) (old new : list string)
    (old1 old2 new1 new2 : Z) (do_ir_diff : bool) (row_count : Z) :
  0 ≤ row_count →
  let g := (st <- ploop tag old new old1 old2 new1 new2 do_ir_diff
                    (seq 0 (Nat.max (length old) (length new)))
                    (mkPairState row_count [] [] []) ;;
            (if do_ir_diff then region tag st else gret tt) ;;;
            gret st) in
  numbered_from row_count (fst g)
  ∧ Forall (tagged tag) (fst g)
  ∧ ∀ st, snd g = inr st →
      st_row_count st = row_count + len (fst g)
      ∧ len (fst g) = Z.max (len old) (len new).
Proof.
  intros Hcount.
  assert (len (seq 0 (Nat.max (length old) (length new)))
          = Z.max (len old) (len new)) as Hpairs.
  { unfold len. rewrite length_seq. lia. }
  destruct do_ir_diff.
  - destruct (pair_loop_collected tag old new old1 old2 new1 new2
                (seq 0 (Nat.max (length old) (length new)))
                (mkPairState row_count [] [] []) row_count)
      as (st' & -> & Hfrags & Hrc & Hold & _ & Hlen);
      [simpl; done || (unfold len; simpl; lia)..|].
    rewrite gbind_inr. simpl fst. simpl snd.
    destruct (render_region_rows tag st' row_count Hcount Hfrags)
      as (Hnum & Htags & Hfin).
    destruct (region tag st') as [ys [e|[]]]; simpl in *; [done|].
    rewrite app_nil_r. split_and!; [done..|].
    intros st [= <-]. specialize (Hfin eq_refl).
    unfold len in *. simpl length in Hlen. lia.
  - pose proof (pair_loop_rendered tag old new old1 old2 new1 new2
                  (seq 0 (Nat.max (length old) (length new)))
                  (mkPairState row_count [] [] []) Hcount eq_refl) as Hloop.
    simpl in Hloop. destruct Hloop as (Hnum & Htags & Hend).
    destruct (ploop _ _ _ _ _ _ _ _ _ _) as [ys [e|st']]; simpl in *; [done|].
    rewrite !app_nil_r. split_and!; [done..|].
    intros st [= <-]. destruct (Hend st' eq_refl) as [-> Hlen]. lia.
Qed.

Lemma triple_loop_operation (tag : string) (old new : list string)
    (triples : list triple) (old_offset new_offset row_count : Z) :
  startswith tag "error" = false →
  tloop ((tag, old, new) :: triples) old_offset new_offset row_count
  = (st <- (st <- ploop tag old new old_offset (old_offset + len old)
                    new_offset (new_offset + len new)
                    (bool_decide (tag = "replace") && CanDoIRDiff old new)
                    (seq 0 (Nat.max (length old) (length new)))
                    (mkPairState row_count [] [] []) ;;
            (if bool_decide (tag = "replace") && CanDoIRDiff old new
             then region tag st else gret tt) ;;;
            gret st) ;;
     tloop triples (old_offset + len old) (new_offset + len new)
       (st_row_count st)).
Proof.
  intros Htag. rewrite triple_loop_step, Htag. cbv zeta.
  rewrite gbind_assoc. apply gbind_ext. intros st.
  rewrite gbind_assoc. apply gbind_ext. intros _.
  by rewrite gbind_gret_l.
Qed.

(** The rows of the loop over the operations: the code rows, numbered in
    order, and the error row if an operation is tagged so. *)
Lemma triple_loop_rows (triples : list triple)
    (old_offset new_offset row_count : Z) :
  0 ≤ row_count →
  let g := tloop triples old_offset new_offset row_count in
  ∃ body err,
    fst g = body ++ err
    ∧ numbered_from row_count body
    ∧ Forall (fun r => ∃ tag, startswith tag "error" = false ∧ tagged tag r) body
    ∧ (err = [] ∨ ∃ tag, err = [error_row tag])
    ∧ (Forall plain_op triples → err = [])
    ∧ (snd g = inr tt → len body = line_pairs triples).
Proof.
  revert old_offset new_offset row_count.
  induction triples as [|[[tag old] new] triples IH];
    intros old_offset new_offset row_count Hcount.
  { exists [], []. split_and!; by eauto. }
  cbv zeta. destruct (startswith tag "error") eqn:Htag.
  { rewrite triple_loop_step, Htag. exists [], [error_row tag].
    split_and!; eauto.
    - done.
    - intros Hplain. apply Forall_cons_1 in Hplain as [Hplain _].
      unfold plain_op in Hplain. simpl in Hplain. congruence.
    - intros _. simpl. by rewrite Htag. }
  rewrite triple_loop_operation by done.
  destruct (operation_rows tag old new old_offset (old_offset + len old)
              new_offset (new_offset + len new)
              (bool_decide (tag = "replace") && CanDoIRDiff old new)
              row_count Hcount)
    as (Hnum & Htags & Hend).
  match type of Hnum with
  | numbered_from _ (fst ?m) => set (op := m) in *
  end.
  match goal with
  | |- context [gbind op ?f] =>
      destruct (gbind_cases op f) as [(e & Hres & ->)|(st & Hres & ->)]
  end.
  { eexists _, []. rewrite app_nil_r. split_and!; eauto.
    - eapply Forall_impl; [exact Htags|]. eauto.
    - done. }
  destruct (Hend st Hres) as [Hrc Hlen].
  destruct (IH (old_offset + len old) (new_offset + len new) (st_row_count st))
    as (body & err & Hrows & Hnum' & Htags' & Herr & Hplain & Hfin).
  { rewrite Hrc. pose proof (len_nonneg (A:=row)). unfold len in *. lia. }
  simpl fst. simpl snd. rewrite Hrows.
  eexists (_ ++ body), err. rewrite app_assoc. split_and!; [done| | |done| |].
  - apply numbered_from_app. split; [done|]. by rewrite <- Hrc.
  - apply Forall_app. split; [|done].
    eapply Forall_impl; [exact Htags|]. eauto.
  - intros [_ ?]%Forall_cons_1. auto.
  - intros Hdone. simpl line_pairs. rewrite Htag, <- (Hfin Hdone), <- Hlen.
    unfold len. rewrite length_app. lia.
Qed.


End RowGenerator.

(** ** The row generator *)

Lemma info_rows_cases (old_patch new_patch : option Patch) (old_max new_max : Z) :
  info_rows old_patch new_patch old_max new_max = ([], inr tt)
  ∨ info_rows old_patch new_patch old_max new_max
    = ([empty_side_row old_max new_max], inr tt)
  ∨ info_rows old_patch new_patch old_max new_max = ([both_equal_row], inr tt)
  ∨ info_rows old_patch new_patch old_max new_max = ([], inl AttributeError).
Proof.
  unfold info_rows.
  destruct (_ && _); [by auto|].
  case_bool_decide; [|by auto].
  destruct old_patch, new_patch; try by auto.
  case_bool_decide; by auto.
Qed.

Lemma info_row_unmarked (old_max new_max : Z) :
  match_pair_row (snd (empty_side_row old_max new_max)) = None
  ∧ match_pair_row (snd both_equal_row) = None.
Proof. split; reflexivity. Qed.

Lemma error_row_unmarked (tag : string) : match_pair_row (snd (error_row tag)) = None.
Proof. reflexivity. Qed.

Lemma slength_app (s t : string) :
  String.length (s +:+ t) = (String.length s + String.length t)%nat.
Proof. induction s as [|a s IH]; [done|]. rewrite sapp_cons. simpl. by rewrite IH. Qed.

(** A tag that ends in [_comment] is longer than [equal] and [error]. *)
Lemma comment_tag_length (tag : string) :
  String.length (tag +:+ "_comment") ≠ 5%nat.
Proof. rewrite slength_app. simpl. lia. Qed.

(** A code row is never tagged [error]. *)
Lemma tagged_not_error (tag : string) (r : row) :
  startswith tag "error" = false → tagged tag r → fst r ≠ "error".
Proof.
  intros Htag [->| ->] Herr.
  - by rewrite Herr in Htag.
  - apply (f_equal String.length) in Herr. rewrite slength_app in Herr.
    simpl in Herr. lia.
Qed.

Lemma numbered_marked (first : Z) (rows : list row) :
  numbered_from first rows → Forall (fun r => marked (snd r)) rows.
Proof.
  revert first. induction rows as [|r rows IH]; intros first; simpl; [done|].
  intros [Hr Hrows]. constructor; [by eexists|by eapply IH].
Qed.

(** The rows of [_TableRowGenerator]: at most one informational row, the
    code rows, at most one error row. *)
Lemma TableRowGenerator_rows `{IntraRegionLib} `{TemplateLib} `{UserService}
    (old_patch : option Patch) (old_dict : comment_dict) (old_max : Z)
    (old_snapshot : string)
    (new_patch : option Patch) (new_dict : comment_dict) (new_max : Z)
    (new_snapshot : string)
    (triple_iterator : list triple) (colwidth : Z) (debug : bool) :
  let g := _TableRowGenerator old_patch old_dict old_max old_snapshot
             new_patch new_dict new_max new_snapshot
             triple_iterator colwidth debug in
  ∃ info body err,
    fst g = info ++ body ++ err
    ∧ (info = [] ∨ info = [empty_side_row old_max new_max] ∨ info = [both_equal_row])
    ∧ (err = [] ∨ ∃ tag, err = [error_row tag])
    ∧ numbered_from 0 body
    ∧ Forall (fun r => ∃ tag, startswith tag "error" = false ∧ tagged tag r) body
    ∧ (Forall plain_op triple_iterator → err = [])
    ∧ (snd g = inr tt → len body = line_pairs triple_iterator).
Proof.
  intros g. subst g. unfold _TableRowGenerator.
  match goal with
  | |- context [triple_loop ?a ?b ?c ?d ?e ?f ?g ?h ?i ?j ?k triple_iterator 0 0 0] =>
      destruct (triple_loop_rows a b c d e f g h i j k triple_iterator 0 0 0 ltac:(done))
        as (body & err & Hrows & Hnum & Htags & Herr & Hplain & Hfin)
  end.
  destruct (info_rows_cases old_patch new_patch old_max new_max)
    as [ -> | [ -> | [ -> | -> ] ] ]; rewrite ?gbind_inr, ?gbind_inl; simpl fst; simpl snd.
  - exists [], body, err. rewrite Hrows. split_and!; auto.
  - exists [empty_side_row old_max new_max], body, err.
    rewrite Hrows. split_and!; auto.
  - exists [both_equal_row], body, err. rewrite Hrows. split_and!; auto.
  - exists [], [], []. split_and!; auto; done.
Qed.

(** C5: in one render the rows come as at most one informational row, then
    the code rows, then at most one error row; the code rows carry the
    identifiers 1, 2, 3, ... in the order in which they are yielded, the other
    rows carry none, and when the render ends normally there is one code row
    for each line pair of the operations read. *)
Theorem TableRowGenerator_row_ids `{IntraRegionLib} `{TemplateLib} `{UserService}
    (old_patch : option Patch) (old_dict : comment_dict) (old_max : Z)
    (old_snapshot : string)
    (new_patch : option Patch) (new_dict : comment_dict) (new_max : Z)
    (new_snapshot : string)
    (triple_iterator : list triple) (colwidth : Z) (debug : bool) :
  let g := _TableRowGenerator old_patch old_dict old_max old_snapshot
             new_patch new_dict new_max new_snapshot
             triple_iterator colwidth debug in
  ∃ info body err,
    yielded g = info ++ body ++ err
    ∧ (info = [] ∨ info = [empty_side_row old_max new_max] ∨ info = [both_equal_row])
    ∧ (err = [] ∨ ∃ tag, err = [error_row tag])
    ∧ Forall (fun r => match_pair_row (snd r) = None) (info ++ err)
    ∧ (match_pair_row ∘ snd) <$> body = Some <$> seqZ 1 (len body)
    ∧ (finished g → len body = line_pairs triple_iterator).
Proof.
  intros g.
  destruct (TableRowGenerator_rows old_patch old_dict old_max old_snapshot
              new_patch new_dict new_max new_snapshot triple_iterator colwidth debug)
    as (info & body & err & Hrows & Hinfo & Herr & Hnum & _ & _ & Hfin).
  exists info, body, err. split_and!; [done..| |by apply numbered_from_seqZ in Hnum|done].
  apply Forall_app. split.
  - destruct Hinfo as [ -> | [ -> | -> ] ]; [done| |].
    + constructor; [apply (proj1 (info_row_unmarked old_max new_max))|done].
    + constructor; [apply (proj2 (info_row_unmarked 0 0))|done].
  - destruct Herr as [ -> |[tag ->]]; [done|].
    constructor; [apply error_row_unmarked|done].
Qed.


(** C4: in every contracted run the placeholder row offers one action,
    [Show], when at most 10 rows are skipped, and otherwise the two actions
    [Show 10 above] and [Show 10 below]; each action is a call of
    [M_expandSkipped] with [anchor + 1], [anchor + skip], its direction and
    the anchor, where the anchor is the identifier of the last row of the head
    window that carries one. For [context] at least 1 and rows numbered in
    order the anchor is the identifier of the last row before the gap, and
    [anchor + 1] and [anchor + skip] are the identifiers of the first and the
    last skipped row; every run of equal rows of a render is numbered in
    order. *)
Theorem placeholder_actions (buffer : list string) (context : Z) :
  3 * context ≤ len buffer →
  finished (_ShortenBuffer buffer context) →
  let skip := len buffer - 2 * context in
  ∃ anchor,
    let before := anchor + 1 in
    let after := anchor + skip in
    let action (dir label : string) :=
      "<a href=" +:+ dq +:+ "javascript:M_expandSkipped(" +:+ str before +:+ ", "
      +:+ str after +:+ ", '" +:+ dir +:+ "', " +:+ str anchor +:+ ")" +:+ dq +:+ ">"
      +:+ label +:+ "</a>" in
    let actions :=
      if decide (skip ≤ 10) then action "b" "Show"
      else action "t" "Show 10 above" +:+ " " +:+ action "b" "Show 10 below" +:+ " " in
    (∃ h1 t h2,
       slice_to buffer context = h1 ++ t :: h2 ∧ match_pair_row t = Some anchor
       ∧ Forall (fun t' => match_pair_row t' = None) h2)
    ∧ yielded (_ShortenBuffer buffer context)
      = slice_to buffer context
        ++ ["<tr id=" +:+ quoted ("skip-" +:+ str anchor) +:+ "><td colspan="
            +:+ quoted "2" +:+ " align=" +:+ quoted "center" +:+ " style="
            +:+ quoted "background:lightblue" +:+ ">(...skipping <span id="
            +:+ quoted ("skipcount-" +:+ str anchor) +:+ ">" +:+ str skip
            +:+ "</span> matching lines...) <span id="
            +:+ quoted ("skiplinks-" +:+ str anchor) +:+ ">" +:+ actions
            +:+ "</span></td></tr>" +:+ nl]
        ++ slice_from buffer (- context)
    ∧ (∀ first,
         1 ≤ context → numbered_from first (pair "equal" <$> buffer) →
         ∃ skipped,
           buffer = slice_to buffer context ++ skipped ++ slice_from buffer (- context)
           ∧ len skipped = skip
           ∧ match_pair_row <$> slice_to buffer context
             = Some <$> seqZ (first + 1) context
           ∧ anchor = first + context
           ∧ match_pair_row <$> skipped = Some <$> seqZ before skip)
    ∧ (∀ (ir : IntraRegionLib) (templates : TemplateLib) (users : UserService)
         old_patch old_dict old_max old_snapshot
         new_patch new_dict new_max new_snapshot triple_iterator colwidth debug
         (pre post : list row),
         yielded (_TableRowGenerator old_patch old_dict old_max old_snapshot
                    new_patch new_dict new_max new_snapshot
                    triple_iterator colwidth debug)
         = pre ++ (pair "equal" <$> buffer) ++ post →
         ∃ first, numbered_from first (pair "equal" <$> buffer)).
Proof.
  intros Hlong Hdone skip. unfold finished, yielded in *.
  rewrite ShortenBuffer_long in * by done.
  destruct (scan_last_id (slice_to buffer context)) as [anchor|] eqn:Hscan; [|done].
  exists anchor. cbv zeta. split_and!.
  - by apply scan_last_id_last.
  - simpl fst. do 2 f_equal. fold skip.
    unfold skip_row, expand_link_show, expand_link_show10, expand_action.
    destruct (Z.leb_spec skip 10); case_decide; (done || lia).
  - intros first Hctx Hnum. unfold len in Hlong.
    set (c := Z.to_nat context).
    set (n := Z.to_nat skip).
    assert (n = (length buffer - 2 * c)%nat) as Hn by (unfold n, skip, len; lia).
    assert (buffer = take c buffer ++ take n (drop c buffer)
                     ++ drop (length buffer - c) buffer) as Hsplit.
    { rewrite <- (take_drop c buffer) at 1. f_equal.
      rewrite <- (take_drop n (drop c buffer)) at 1. f_equal.
      rewrite drop_drop. f_equal. lia. }
    assert (length (take c buffer) = c) as Hhead by (rewrite length_take; lia).
    assert (length (take n (drop c buffer)) = n) as Hmiddle
      by (rewrite length_take, length_drop; lia).
    rewrite slice_to_nat, slice_from_neg in * by lia. fold c in Hscan |- *.
    rewrite Hsplit, !fmap_app in Hnum.
    apply numbered_from_app in Hnum as [Hnum_head Hnum].
    apply numbered_from_app in Hnum as [Hnum_middle _].
    unfold len in Hnum_middle. rewrite length_fmap, Hhead in Hnum_middle.
    assert (anchor = first + context) as ->.
    { unfold scan_last_id in Hscan.
      rewrite (scan_numbered _ first) in Hscan by done.
      destruct (take c buffer); [simpl in Hhead; lia|].
      injection Hscan as <-. unfold len. rewrite Hhead. lia. }
    exists (take n (drop c buffer)). split_and!; [done| | |done|].
    + unfold len. rewrite Hmiddle. lia.
    + apply numbered_texts in Hnum_head. rewrite Hnum_head.
      unfold len. rewrite Hhead. do 2 f_equal. lia.
    + apply numbered_texts in Hnum_middle. rewrite Hnum_middle.
      unfold len. rewrite Hmiddle. do 2 f_equal; lia.
  - intros ir templates users old_patch old_dict old_max old_snapshot
      new_patch new_dict new_max new_snapshot triple_iterator colwidth debug
      pre post Hrows.
    destruct (TableRowGenerator_rows old_patch old_dict old_max old_snapshot
                new_patch new_dict new_max new_snapshot triple_iterator colwidth debug)
      as (info & body & err & Hfst & Hinfo & Herr & Hnum & _).
    rewrite Hfst in Hrows.
    apply (equal_run_numbered info body err pre post buffer); [| |done..].
    + destruct Hinfo as [ -> | [ -> | -> ] ]; by repeat constructor.
    + destruct Herr as [ -> |[tag ->]]; by repeat constructor.
Qed.

Lemma placeholder_actions_witness :
  ∃ anchor skipped,
    anchor = 0 + 5
    ∧ bare_rows 1 30
      = slice_to (bare_rows 1 30) 5 ++ skipped ++ slice_from (bare_rows 1 30) (- 5)
    ∧ match_pair_row <$> skipped
      = Some <$> seqZ (anchor + 1) (len (bare_rows 1 30) - 2 * 5).
Proof.
  destruct (placeholder_actions (bare_rows 1 30) 5) as (anchor & _ & _ & Hids & _).
  - vm_compute. discriminate.
  - vm_compute. reflexivity.
  - destruct (Hids 0) as (skipped & Hsplit & _ & _ & Hanchor & Hskipped).
    + lia.
    + vm_compute. repeat split.
    + by exists anchor, skipped.
Defined.

(** ** The collapser *)

Lemma cleanup_loop_step (tag text : string) (rows : list row) (rows_end : exn + unit)
    (buffer : list string) (context : Z) :
  cleanup_loop ((tag, text) :: rows) rows_end buffer context
  = if bool_decide (tag = "equal") then
      cleanup_loop rows rows_end (buffer ++ [text]) context
    else
      gmap_yield Some (_ShortenBuffer buffer context) ;;;
      yield (Some text) ;;;
      if bool_decide (tag = "error") then yield None
      else cleanup_loop rows rows_end [] context.
Proof. reflexivity. Qed.

(** A buffer of rows that match the row pattern is contracted without an
    exception. *)
Lemma ShortenBuffer_marked (buffer : list string) (context : Z) :
  1 ≤ context → Forall marked buffer →
  snd (_ShortenBuffer buffer context) = inr tt.
Proof.
  intros Hctx Hmarked.
  destruct (Z.lt_ge_cases (len buffer) (3 * context)) as [Hshort|Hlong].
  { by rewrite ShortenBuffer_short. }
  rewrite ShortenBuffer_long by done.
  destruct (scan_last_id _) eqn:Hscan; [done|]. exfalso.
  rewrite scan_last_id_None in Hscan.
  destruct buffer as [|t buffer]; [unfold len in Hlong; simpl in Hlong; lia|].
  apply Forall_cons_1 in Hmarked as [[n Ht] _].
  rewrite (Hscan t) in Ht; [done|].
  rewrite slice_to_nat by lia.
  replace (Z.to_nat context) with (S (Z.to_nat (context - 1))) by lia.
  simpl. by left.
Qed.

Lemma cleanup_finished (rows : list row) (buffer : list string) (context : Z) :
  1 ≤ context →
  Forall (fun r => fst r = "equal" → marked (snd r)) rows →
  Forall marked buffer →
  snd (cleanup_loop rows (inr tt) buffer context) = inr tt.
Proof.
  intros Hctx Hrows. revert buffer.
  induction Hrows as [|[tag text] rows Hrow _ IH]; intros buffer Hbuffer.
  - simpl. destruct buffer; [done|]. simpl. by apply ShortenBuffer_marked.
  - rewrite cleanup_loop_step. case_bool_decide as Htag.
    + apply IH. apply Forall_app. split; [done|]. constructor; [|done]. by apply Hrow.
    + pose proof (ShortenBuffer_marked buffer context Hctx Hbuffer) as Hflush.
      destruct (_ShortenBuffer buffer context) as [ys [e|[]]]; [done|].
      unfold gmap_yield, yield. simpl. case_bool_decide; [done|].
      specialize (IH [] ltac:(done)).
      by destruct (cleanup_loop rows _ [] context) as [ys' r].
Qed.


(** Rows without an error row, fewer in all than three times [context],
    leave the collapser as they entered it. *)
Lemma cleanup_short_rows (rows : list row) (buffer : list string) (context : Z) :
  Forall (fun r => fst r ≠ "error") rows →
  len buffer + len rows < 3 * context →
  cleanup_loop rows (inr tt) buffer context
  = (Some <$> (buffer ++ (snd <$> rows)), inr tt).
Proof.
  intros Hrows. revert buffer.
  induction Hrows as [|[tag t] rows Hrow _ IH]; intros buffer Hlen.
  - simpl. rewrite app_nil_r. destruct buffer as [|b buffer]; [done|].
    rewrite ShortenBuffer_short; [done|]. unfold len in *. simpl in *. lia.
  - rewrite cleanup_loop_step. unfold len in Hlen. simpl length in Hlen.
    case_bool_decide.
    + rewrite IH by (unfold len; rewrite length_app; simpl; lia).
      by rewrite <- app_assoc.
    + simpl in Hrow. rewrite (bool_decide_eq_false_2 (tag = "error")) by done.
      rewrite ShortenBuffer_short by (unfold len; lia).
      rewrite IH by (unfold len; simpl; lia).
      unfold gmap_yield, yield. simpl. by rewrite fmap_app.
Qed.

(** The texts of the rows that are not tagged [equal] are among what the
    collapser yields, in their order. *)
Lemma cleanup_changes_sublist (rows : list row) (buffer : list string) (context : Z) :
  Forall (fun r => fst r ≠ "error") rows →
  finished (cleanup_loop rows (inr tt) buffer context) →
  (Some ∘ snd) <$> filter (fun r => fst r ≠ "equal") rows
  `sublist_of` yielded (cleanup_loop rows (inr tt) buffer context).
Proof.
  intros Hrows. revert buffer. unfold finished, yielded.
  induction Hrows as [|[tag t] rows Hrow _ IH]; intros buffer Hdone.
  - apply sublist_nil_l.
  - rewrite cleanup_loop_step in *. case_bool_decide as Htag.
    + rewrite filter_cons_False by (simpl; tauto). by apply IH.
    + rewrite filter_cons_True by done.
      simpl in Hrow. rewrite (bool_decide_eq_false_2 (tag = "error")) in * by done.
      destruct (_ShortenBuffer buffer context) as [ys [e|[]]]; [done|].
      specialize (IH []).
      unfold gmap_yield, yield in *. simpl in *.
      destruct (cleanup_loop rows (inr tt) [] context) as [out res].
      simpl in *. apply sublist_inserts_l, sublist_skip. by apply IH.
Qed.

(** A row that is not tagged [equal] and that no error row precedes is
    yielded by the collapser when it ends normally. *)
Lemma cleanup_yields_row (before after : list row) (r : row)
    (rows_end : exn + unit) (buffer : list string) (context : Z) :
  Forall (fun x => fst x ≠ "error") before → fst r ≠ "equal" →
  snd (cleanup_loop (before ++ r :: after) rows_end buffer context) = inr tt →
  Some (snd r) ∈ fst (cleanup_loop (before ++ r :: after) rows_end buffer context).
Proof.
  intros Hbefore Hr. revert Hbefore buffer.
  induction before as [|[tag t] before IH]; intros Hbefore buffer Hdone;
    [|apply Forall_cons_1 in Hbefore as [Hx Hbefore];
      specialize (IH Hbefore)].
  - rewrite app_nil_l in *. destruct r as [tag t]. simpl in Hr.
    rewrite cleanup_loop_step in *.
    rewrite (bool_decide_eq_false_2 (tag = "equal")) in * by done.
    destruct (_ShortenBuffer buffer context) as [ys [e|[]]]; [done|].
    unfold gmap_yield, yield in *. simpl in *.
    destruct (if bool_decide (tag = "error") then _ else _) as [out res].
    simpl. apply elem_of_app. right. apply elem_of_cons. by left.
  - rewrite <- app_comm_cons, cleanup_loop_step in *.
    case_bool_decide; [by apply IH|]. simpl in Hx.
    rewrite (bool_decide_eq_false_2 (tag = "error")) in * by done.
    destruct (_ShortenBuffer buffer context) as [ys [e|[]]]; [done|].
    specialize (IH []). unfold gmap_yield, yield in *. simpl in *.
    destruct (cleanup_loop (before ++ r :: after) rows_end [] context) as [out res].
    simpl in *. apply elem_of_app. right. apply elem_of_cons. right. by apply IH.
Qed.

(** ** Renders that end normally *)

Section Totality.

Context `{IntraRegionLib} `{TemplateLib} `{UserService}.

Variables (old_patch : option Patch) (old_dict : comment_dict)
          (old_snapshot : string)
          (new_patch : option Patch) (new_dict : comment_dict)
          (new_snapshot : string)
          (colwidth : Z) (debug : bool)
          (diff_params : DiffParams) (ndigits indent : Z).

Hypothesis Hpatches : patches_agree old_patch new_patch.
Hypothesis Hcovers : ir_render_covers.

Local Abbreviation ploop :=
  (pair_loop old_patch old_dict old_snapshot new_patch new_dict new_snapshot
     colwidth debug ndigits indent).
Local Abbreviation region :=
  (render_region old_patch old_dict old_snapshot new_patch new_dict new_snapshot
     colwidth debug diff_params ndigits indent).
Local Abbreviation tloop :=
  (triple_loop old_patch old_dict old_snapshot new_patch new_dict new_snapshot
     colwidth debug diff_params ndigits indent).

Lemma RenderInlineComments_present (line_valid : bool) (lineno : Z)
    (data : comment_dict) (user : option User) (patch : Patch)
    (snapshot prefix : string) :
  ∃ text, _RenderInlineComments line_valid lineno data user (Some patch)
            snapshot prefix = inr text.
Proof.
  unfold _RenderInlineComments.
  destruct line_valid; [|by eexists]. destruct (data !! lineno); by eexists.
Qed.

Lemma render_pair_present (ob nb : out_entry) (frags : list string)
    (tag : string) (do_ir_diff : bool) (user : option User) :
  ∃ r, render_pair ob nb frags ndigits tag do_ir_diff old_dict new_dict
         old_patch new_patch old_snapshot new_snapshot debug user = inr r.
Proof.
  unfold render_pair.
  destruct ob as [[old_valid old_lineno] [[old_text old_nl] old_dbg]].
  destruct nb as [[new_valid new_lineno] [[new_text new_nl] new_dbg]].
  destruct Hpatches as [[-> ->]|[[o ->] [n ->]]].
  - rewrite bool_decide_eq_false_2; [by eexists|].
    intros [[? [=]]|[? [=]]].
  - rewrite bool_decide_eq_true_2 by (left; by eexists).
    destruct (RenderInlineComments_present old_valid old_lineno old_dict user o
                old_snapshot "old") as [old_text' ->].
    destruct (RenderInlineComments_present new_valid new_lineno new_dict user n
                new_snapshot "new") as [new_text' ->].
    by eexists.
Qed.

Lemma RenderDiffInternal_finishes (old_buff new_buff : list out_entry)
    (tag : string) (frag_list : list (list string)) (do_ir_diff : bool) :
  (length old_buff ≤ length new_buff)%nat →
  (length old_buff ≤ length frag_list)%nat →
  snd (_RenderDiffInternal old_buff new_buff ndigits tag frag_list do_ir_diff
         old_dict new_dict old_patch new_patch old_snapshot new_snapshot
         colwidth debug) = inr tt.
Proof.
  revert new_buff frag_list.
  induction old_buff as [|ob old_buff IH]; intros new_buff frag_list Hnew Hfrags;
    [done|].
  destruct new_buff as [|nb new_buff]; [simpl in Hnew; lia|].
  destruct frag_list as [|frags frag_list]; [simpl in Hfrags; lia|].
  simpl in *.
  destruct (render_pair_present ob nb frags tag do_ir_diff get_current_user)
    as [r ->].
  specialize (IH new_buff frag_list ltac:(lia) ltac:(lia)).
  destruct (_RenderDiffInternal old_buff _ _ _ _ _ _ _ _ _ _ _ _ _) as [ys res].
  done.
Qed.

Lemma pair_loop_finishes (tag : string) (old new : list string)
    (old1 old2 new1 new2 : Z) (indices : list nat) (st : pair_state) :
  ∃ st', snd (ploop tag old new old1 old2 new1 new2 false indices st) = inr st'.
Proof.
  revert st. induction indices as [|i indices IH]; intros st; [by eexists|].
  destruct (pair_loop_render_step old_patch old_dict old_snapshot new_patch
              new_dict new_snapshot colwidth debug ndigits indent
              tag old new old1 old2 new1 new2 i indices st)
    as (ob & nb & hook & ->).
  assert (length [ob] ≤ length (st_frag_list st
            ++ [[row_opening hook; row_id_frag (st_row_count st + 1)]]))%nat
    as Hlen by (rewrite length_app; simpl; lia).
  pose proof (RenderDiffInternal_finishes [ob] [nb] tag _ false
                ltac:(done) Hlen) as Hrow.
  match goal with |- context [gbind ?m ?f] => destruct (gbind_cases m f)
    as [(e & Hend & _)|(x & _ & ->)] end.
  { rewrite Hend in Hrow. done. }
  apply IH.
Qed.

Lemma substitute_covers (buff : list raw_entry)
    (out : list (string * bool * option string)) :
  (length buff ≤ length out)%nat → ∃ buff', substitute buff out = Some buff'.
Proof.
  revert out. induction buff as [|[[valid lineno] text] buff IH]; intros out Hlen;
    [by eexists|].
  destruct out as [|o out]; [simpl in Hlen; lia|]. simpl in *.
  destruct (IH out ltac:(lia)) as [buff' ->]. by eexists.
Qed.

Lemma render_region_finishes (tag : string) (st : pair_state) :
  length (st_old_buff st) = length (st_frag_list st) →
  length (st_new_buff st) = length (st_frag_list st) →
  snd (region tag st) = inr tt.
Proof.
  intros Hold Hnew. unfold render_region.
  destruct (IntraRegionDiff _ _ _) as [[old_chunks new_chunks] ratio].
  destruct (substitute_covers (st_old_buff st)
              (RenderIntraRegionDiff (snd <$> st_old_buff st) old_chunks "old"
                 ratio colwidth indent debug)) as [old_out Hold'].
  { etrans; [|apply Hcovers]. by rewrite length_fmap. }
  destruct (substitute_covers (st_new_buff st)
              (RenderIntraRegionDiff (snd <$> st_new_buff st) new_chunks "new"
                 ratio colwidth indent debug)) as [new_out Hnew'].
  { etrans; [|apply Hcovers]. by rewrite length_fmap. }
  rewrite Hold', Hnew'. apply substitute_length in Hold', Hnew'.
  apply RenderDiffInternal_finishes; lia.
Qed.

Lemma triple_loop_finishes (triples : list triple)
    (old_offset new_offset row_count : Z) :
  snd (tloop triples old_offset new_offset row_count) = inr tt.
Proof.
  revert old_offset new_offset row_count.
  induction triples as [|[[tag old] new] triples IH];
    intros old_offset new_offset row_count; [done|].
  rewrite triple_loop_step. destruct (startswith tag "error"); [done|]. cbv zeta.
  destruct (bool_decide (tag = "replace") && CanDoIRDiff old new).
  - destruct (pair_loop_collected old_patch old_dict old_snapshot new_patch
                new_dict new_snapshot colwidth debug ndigits indent
                tag old new old_offset (old_offset + len old)
                new_offset (new_offset + len new)
                (seq 0 (Nat.max (length old) (length new)))
                (mkPairState row_count [] [] []) row_count)
      as (st & -> & _ & _ & Hold & Hnew & _);
      [simpl; done || (unfold len; simpl; lia)..|].
    rewrite gbind_inr. simpl snd.
    pose proof (render_region_finishes tag st Hold Hnew) as Hregion.
    destruct (region tag st) as [ys res]. simpl in Hregion. subst res.
    rewrite gbind_inr. simpl snd. apply IH.
  - destruct (pair_loop_finishes tag old new old_offset (old_offset + len old)
                new_offset (new_offset + len new)
                (seq 0 (Nat.max (length old) (length new)))
                (mkPairState row_count [] [] [])) as [st Hloop].
    destruct (ploop _ _ _ _ _ _ _ _ _ _) as [ys res]. simpl in Hloop. subst res.
    rewrite gbind_inr. simpl snd.
    specialize (IH (old_offset + len old) (new_offset + len new) (st_row_count st)).
    by destruct (tloop _ _ _ _).
Qed.

End Totality.

(** With both patches absent or both present, and an intra-region diff that
    renders every line it is given, the row generator ends normally. *)
Lemma TableRowGenerator_finishes `{IntraRegionLib} `{TemplateLib} `{UserService}
    (old_patch : option Patch) (old_dict : comment_dict) (old_max : Z)
    (old_snapshot : string)
    (new_patch : option Patch) (new_dict : comment_dict) (new_max : Z)
    (new_snapshot : string)
    (triple_iterator : list triple) (colwidth : Z) (debug : bool) :
  patches_agree old_patch new_patch → ir_render_covers →
  finished (_TableRowGenerator old_patch old_dict old_max old_snapshot
              new_patch new_dict new_max new_snapshot
              triple_iterator colwidth debug).
Proof.
  intros Hpatches Hcovers. unfold finished, _TableRowGenerator.
  assert (∃ info, info_rows old_patch new_patch old_max new_max = (info, inr tt))
    as [info ->].
  { destruct (info_rows_cases old_patch new_patch old_max new_max)
      as [ -> | [ -> | [ -> | Hraise ] ] ]; [by eexists..|]. exfalso.
    unfold info_rows in Hraise.
    destruct Hpatches as [[-> ->]|[[o ->] [n ->]]].
    - rewrite (bool_decide_eq_false_2 (None ≠ None)) in Hraise by (by intros []).
      by destruct (_ && _).
    - destruct (_ && _); [done|]. destruct (bool_decide (Some o ≠ Some n)); [|done].
      by destruct (bool_decide (patch_lines o = patch_lines n)). }
  rewrite gbind_inr. simpl snd. by apply triple_loop_finishes.
Qed.

(** ** The render up to an error *)

Section ErrorRow.

Context `{IntraRegionLib} `{TemplateLib} `{UserService}.

Variables (old_patch : option Patch) (old_dict : comment_dict) (old_max : Z)
          (old_snapshot : string)
          (new_patch : option Patch) (new_dict : comment_dict) (new_max : Z)
          (new_snapshot : string) (colwidth : Z) (debug : bool).

Local Abbreviation rows_of triples :=
  (_TableRowGenerator old_patch old_dict old_max old_snapshot
     new_patch new_dict new_max new_snapshot triples colwidth debug).




End ErrorRow.



(** ** Two patches with the same lines *)

Lemma info_rows_both_equal (o n : Patch) (old_max new_max : Z) :
  o ≠ n → patch_lines o = patch_lines n →
  info_rows (Some o) (Some n) old_max new_max = yield both_equal_row.
Proof.
  intros Hne Hlines. unfold info_rows.
  rewrite (bool_decide_eq_false_2 (Some o = Some n)) by congruence.
  rewrite (bool_decide_eq_true_2 (Some o ≠ Some n)) by congruence.
  simpl. by rewrite (bool_decide_eq_true_2 (patch_lines o = patch_lines n)).
Qed.

(** C3 fails as it is stated: for two distinct patches with the same lines
    and one operation of one equal line, the generator yields the row that
    says both sides are equal and then the row of the line pair. *)
Lemma both_equal_counterexample :
  @_TableRowGenerator plain_ir plain_template nobody
    (Some (mkPatch 1 "f" ["a"])) ∅ 2 "new" (Some (mkPatch 2 "f" ["a"])) ∅ 2 "new"
    [("equal", ["a"], ["a"])] 80 false
  ≠ ([both_equal_row], inr tt)
  ∧ length (yielded (@_TableRowGenerator plain_ir plain_template nobody
                       (Some (mkPatch 1 "f" ["a"])) ∅ 2 "new"
                       (Some (mkPatch 2 "f" ["a"])) ∅ 2 "new"
                       [("equal", ["a"], ["a"])] 80 false)) = 2%nat.
Proof.
  split; [|reflexivity]. intros Heq.
  apply (f_equal (fun g => length (fst g))) in Heq. vm_compute in Heq. discriminate.
Qed.

(** C3, as the code has it: for two distinct patches with the same lines the
    generator yields the row that says both sides are equal, once and first,
    and goes on to render the operations: the code rows numbered from 1, one
    for each line pair when the render ends normally, and the error row if
    an operation is tagged so. *)
Theorem both_equal_row_then_operations `{IntraRegionLib} `{TemplateLib} `{UserService}
    (o n : Patch) (old_dict : comment_dict) (old_max : Z) (old_snapshot : string)
    (new_dict : comment_dict) (new_max : Z) (new_snapshot : string)
    (triple_iterator : list triple) (colwidth : Z) (debug : bool) :
  o ≠ n → patch_lines o = patch_lines n →
  let g := _TableRowGenerator (Some o) old_dict old_max old_snapshot
             (Some n) new_dict new_max new_snapshot
             triple_iterator colwidth debug in
  ∃ body err,
    yielded g = both_equal_row :: body ++ err
    ∧ (err = [] ∨ ∃ tag, err = [error_row tag])
    ∧ Forall (fun r => r ≠ both_equal_row) (body ++ err)
    ∧ (match_pair_row ∘ snd) <$> body = Some <$> seqZ 1 (len body)
    ∧ (finished g → len body = line_pairs triple_iterator).
Proof.
  intros Hne Hlines g. subst g. unfold _TableRowGenerator, yielded, finished.
  rewrite info_rows_both_equal by done.
  match goal with
  | |- context [triple_loop ?a ?b ?c ?d ?e ?f ?g ?h ?i ?j ?k triple_iterator 0 0 0] =>
      destruct (triple_loop_rows a b c d e f g h i j k triple_iterator 0 0 0 ltac:(done))
        as (body & err & Hrows & Hnum & _ & Herr & _ & Hfin)
  end.
  unfold yield. rewrite gbind_inr. simpl fst. simpl snd. rewrite Hrows.
  exists body, err. split_and!; [done..| |by apply numbered_from_seqZ in Hnum|done].
  apply Forall_app. split.
  - eapply Forall_impl; [exact (numbered_marked _ _ Hnum)|].
    intros r [id Hid] ->. by rewrite (proj2 (info_row_unmarked 0 0)) in Hid.
  - destruct Herr as [ -> |[tag ->]]; [done|]. by repeat constructor.
Qed.

Lemma both_equal_row_then_operations_witness :
  ∃ body err,
    yielded (@_TableRowGenerator plain_ir plain_template nobody
               (Some (mkPatch 1 "f" ["a"])) ∅ 2 "new"
               (Some (mkPatch 2 "f" ["a"])) ∅ 2 "new"
               [("equal", ["a"], ["a"])] 80 false)
    = both_equal_row :: body ++ err
    ∧ (err = [] ∨ ∃ tag, err = [error_row tag])
    ∧ Forall (fun r => r ≠ both_equal_row) (body ++ err)
    ∧ (match_pair_row ∘ snd) <$> body = Some <$> seqZ 1 (len body)
    ∧ (finished (@_TableRowGenerator plain_ir plain_template nobody
                   (Some (mkPatch 1 "f" ["a"])) ∅ 2 "new"
                   (Some (mkPatch 2 "f" ["a"])) ∅ 2 "new"
                   [("equal", ["a"], ["a"])] 80 false)
       → len body = line_pairs [("equal", ["a"], ["a"])]).
Proof.
  apply (@both_equal_row_then_operations plain_ir plain_template nobody
           (mkPatch 1 "f" ["a"]) (mkPatch 2 "f" ["a"]) ∅ 2 "new" ∅ 2 "new"
           [("equal", ["a"], ["a"])] 80 false).
  - discriminate.
  - reflexivity.
Defined.

(** ** The rows and the line pairs *)

Lemma join_app (l1 l2 : list string) : join (l1 ++ l2) = join l1 +:+ join l2.
Proof.
  induction l1 as [|x l1 IH]; [done|]. simpl app. rewrite !join_cons, IH.
  by rewrite sapp_assoc.
Qed.

Lemma contains_join (l1 l2 : list string) (part : string) :
  contains (join (l1 ++ part :: l2)) part.
Proof. exists (join l1), (join l2). by rewrite join_app, join_cons. Qed.

Lemma contains_join_next (l1 l2 : list string) (s part : string) :
  contains (join (l1 ++ s :: part :: l2)) part.
Proof.
  replace (l1 ++ s :: part :: l2) with ((l1 ++ [s]) ++ part :: l2)
    by (by rewrite <- app_assoc).
  apply contains_join.
Qed.

(** The comments of a line with comments are rendered as the comment cell of
    the line. *)
Lemma RenderInlineComments_cell `{TemplateLib} (left : bool) (lineno : Z)
    (data : comment_dict) (comments : list Comment) (user : option User)
    (patch : Patch) (snapshot : string) :
  data !! lineno = Some comments →
  _RenderInlineComments true lineno data user (Some patch) snapshot
    (if left then "old" else "new")
  = inr (comment_cell user patch snapshot left comments lineno).
Proof.
  intros Hdata. unfold _RenderInlineComments, comment_cell. rewrite Hdata.
  destruct left; rewrite !join_cons; simpl join;
    by rewrite !sapp_assoc, sapp_nil_r.
Qed.

Lemma rows_of_pairs_app (P : row → line_pair → Prop) (first : Z)
    (rows1 rows2 : list row) (pairs1 pairs2 : list line_pair) :
  rows_of_pairs P first rows1 pairs1 → length rows1 = length pairs1 →
  rows_of_pairs P (first + len rows1) rows2 pairs2 →
  rows_of_pairs P first (rows1 ++ rows2) (pairs1 ++ pairs2).
Proof.
  revert first pairs1.
  induction rows1 as [|r rows1 IH]; intros first pairs1 H1 Hlen H2.
  - destruct pairs1; [|done]. unfold len in H2. simpl in H2.
    by rewrite Z.add_0_r in H2.
  - destruct pairs1 as [|lp pairs1]; [done|]. destruct H1 as (Hid & HP & H1).
    simpl. split_and!; [done..|]. apply IH; [done|by simplify_eq/=|].
    unfold len in *. simpl length in H2.
    by replace (first + 1 + Z.of_nat (length rows1))
      with (first + Z.of_nat (S (length rows1))) by lia.
Qed.

Lemma rows_of_pairs_prefix (P : row → line_pair → Prop) (first : Z)
    (rows : list row) (pairs more : list line_pair) :
  rows_of_pairs P first rows pairs → rows_of_pairs P first rows (pairs ++ more).
Proof.
  revert first pairs. induction rows as [|r rows IH]; intros first pairs; [done|].
  destruct pairs as [|lp pairs]; [done|]. simpl. intros (? & ? & ?).
  split_and!; auto.
Qed.

Lemma rows_of_pairs_lookup (P : row → line_pair → Prop) (first : Z)
    (rows : list row) (pairs : list line_pair) (j : nat) (r : row) :
  rows_of_pairs P first rows pairs → rows !! j = Some r →
  match_pair_row (snd r) = Some (first + Z.of_nat j + 1)
  ∧ ∃ lp, pairs !! j = Some lp ∧ P r lp.
Proof.
  revert first pairs j.
  induction rows as [|r' rows IH]; intros first pairs j; [done|].
  destruct pairs as [|lp pairs]; [done|]. intros (Hid & HP & Hrest).
  destruct j as [|j]; simpl.
  - intros [= <-]. split; [rewrite Hid; f_equal; lia|]. by exists lp.
  - intros Hj. destruct (IH _ _ _ Hrest Hj) as [Hid' Hlp].
    split; [rewrite Hid'; f_equal; lia|done].
Qed.

Lemma zip_fst_snd_fmap {A B C} (f : A → B * C) (l : list A) :
  zip ((fst ∘ f) <$> l) ((snd ∘ f) <$> l) = f <$> l.
Proof.
  induction l as [|x l IH]; [done|]. rewrite !fmap_cons. simpl zip.
  rewrite IH. by destruct (f x).
Qed.

Lemma substitute_fst (buff : list raw_entry)
    (out : list (string * bool * option string)) (buff' : list out_entry) :
  substitute buff out = Some buff' → fst <$> buff' = fst <$> buff.
Proof.
  revert out buff'. induction buff as [|[[valid lineno] text] buff IH];
    intros out buff'; simpl.
  - by intros [= <-].
  - destruct out as [|o out]; [done|].
    destruct (substitute buff out) as [rest|] eqn:Hrest; [|done].
    intros [= <-]. simpl. f_equal. eauto.
Qed.

Section PairRows.

Context `{IntraRegionLib} `{TemplateLib} `{UserService}.

Variables (old_patch : option Patch) (old_dict : comment_dict)
          (old_snapshot : string)
          (new_patch : option Patch) (new_dict : comment_dict)
          (new_snapshot : string)
          (colwidth : Z) (debug : bool)
          (diff_params : DiffParams) (ndigits indent : Z).

Local Abbreviation ploop :=
  (pair_loop old_patch old_dict old_snapshot new_patch new_dict new_snapshot
     colwidth debug ndigits indent).
Local Abbreviation region :=
  (render_region old_patch old_dict old_snapshot new_patch new_dict new_snapshot
     colwidth debug diff_params ndigits indent).
Local Abbreviation tloop :=
  (triple_loop old_patch old_dict old_snapshot new_patch new_dict new_snapshot
     colwidth debug diff_params ndigits indent).
Local Abbreviation rendered :=
  (renders_pair old_patch old_dict old_snapshot new_patch new_dict new_snapshot
     ndigits debug get_current_user).

(** The line pair of the index [i] in an operation whose old lines are
    numbered from [old1 + 1] to [old2] and whose new lines from [new1 + 1] to
    [new2]. *)
Local Abbreviation entry old1 old2 new1 new2 :=
  (fun i : nat =>
     ((bool_decide (old1 + Z.of_nat i < old2), old1 + Z.of_nat i + 1),
      (bool_decide (new1 + Z.of_nat i < new2), new1 + Z.of_nat i + 1))).

Lemma RenderDiffInternal_pairs (old_buff new_buff : list out_entry)
    (tag : string) (frag_list : list (list string)) (do_ir_diff : bool)
    (first : Z) :
  startswith tag "error" = false → 0 ≤ first → frags_from first frag_list →
  rows_of_pairs rendered first
    (fst (_RenderDiffInternal old_buff new_buff ndigits tag frag_list do_ir_diff
            old_dict new_dict old_patch new_patch old_snapshot new_snapshot
            colwidth debug))
    (zip (fst <$> old_buff) (fst <$> new_buff)).
Proof.
  intros Htag. revert new_buff frag_list first.
  induction old_buff as [|ob old_buff IH]; intros new_buff frag_list first Hfirst Hfrags;
    [done|].
  destruct new_buff as [|nb new_buff]; [done|].
  destruct frag_list as [|frags frag_list]; [done|].
  destruct Hfrags as [[hook ->] Hfrags]. simpl.
  destruct (render_pair _ _ _ _ _ _ _ _ _ _ _ _ _ _) as [e|r] eqn:Hpair; [done|].
  specialize (IH new_buff frag_list (first + 1) ltac:(lia) Hfrags).
  destruct (_RenderDiffInternal old_buff _ _ _ _ _ _ _ _ _ _ _ _ _) as [ys res].
  simpl in *. split_and!; [| |done].
  - by apply render_pair_row in Hpair as [? _]; [|lia].
  - by exists ob, nb, [row_opening hook; row_id_frag (first + 1)], tag, do_ir_diff.
Qed.

Lemma pair_loop_render_entries (tag : string) (old new : list string)
    (old1 old2 new1 new2 : Z) (i : nat) (indices : list nat) (st : pair_state) :
  ∃ ob nb hook,
    fst ob = fst (entry old1 old2 new1 new2 i)
    ∧ fst nb = snd (entry old1 old2 new1 new2 i)
    ∧ ploop tag old new old1 old2 new1 new2 false (i :: indices) st
      = (_RenderDiffInternal [ob] [nb] ndigits tag
           (st_frag_list st ++ [[row_opening hook; row_id_frag (st_row_count st + 1)]])
           false old_dict new_dict old_patch new_patch old_snapshot new_snapshot
           colwidth debug ;;;
         ploop tag old new old1 old2 new1 new2 false indices
           (mkPairState (st_row_count st + 1) [] (st_old_buff st) (st_new_buff st))).
Proof. eexists (_, _, _), (_, _, _), _. split_and!; reflexivity. Qed.

Lemma pair_loop_collect_entries (tag : string) (old new : list string)
    (old1 old2 new1 new2 : Z) (i : nat) (indices : list nat) (st : pair_state) :
  ∃ ob nb hook,
    fst ob = fst (entry old1 old2 new1 new2 i)
    ∧ fst nb = snd (entry old1 old2 new1 new2 i)
    ∧ ploop tag old new old1 old2 new1 new2 true (i :: indices) st
      = ploop tag old new old1 old2 new1 new2 true indices
          (mkPairState (st_row_count st + 1)
             (st_frag_list st ++ [[row_opening hook; row_id_frag (st_row_count st + 1)]])
             (st_old_buff st ++ [ob]) (st_new_buff st ++ [nb])).
Proof. eexists (_, _, _), (_, _, _), _. split_and!; reflexivity. Qed.

Lemma pair_loop_pairs (tag : string) (old new : list string)
    (old1 old2 new1 new2 : Z) (indices : list nat) (st : pair_state) :
  startswith tag "error" = false → 0 ≤ st_row_count st → st_frag_list st = [] →
  rows_of_pairs rendered (st_row_count st)
    (fst (ploop tag old new old1 old2 new1 new2 false indices st))
    (entry old1 old2 new1 new2 <$> indices).
Proof.
  intros Htag. revert st.
  induction indices as [|i indices IH]; intros st Hcount Hfrags; [done|].
  destruct (pair_loop_render_entries tag old new old1 old2 new1 new2 i indices st)
    as (ob & nb & hook & Hob & Hnb & ->).
  rewrite Hfrags, app_nil_l.
  pose proof (RenderDiffInternal_pairs [ob] [nb] tag
                [[row_opening hook; row_id_frag (st_row_count st + 1)]] false
                (st_row_count st) Htag Hcount ltac:(simpl; eauto)) as Hrow.
  pose proof (RenderDiffInternal_rows [ob] [nb] ndigits tag
                [[row_opening hook; row_id_frag (st_row_count st + 1)]] false
                old_dict new_dict old_patch new_patch old_snapshot new_snapshot
                colwidth debug (st_row_count st) Hcount) as Hrows.
  simpl in Hrows. specialize (Hrows ltac:(eauto)).
  destruct Hrows as (_ & _ & _ & Hfin).
  simpl zip in Hrow. rewrite Hob, Hnb in Hrow. rewrite fmap_cons.
  match goal with |- context [gbind ?m ?f] => destruct (gbind_cases m f)
    as [(e & Hend & ->)|(x & Hend & ->)] end.
  - simpl fst.
    apply (rows_of_pairs_prefix _ _ _ [entry old1 old2 new1 new2 i]). exact Hrow.
  - specialize (Hfin ltac:(by destruct x)). simpl fst.
    apply (rows_of_pairs_app _ _ _ _ [entry old1 old2 new1 new2 i]);
      [exact Hrow|by rewrite Hfin|].
    specialize (IH (mkPairState (st_row_count st + 1) [] (st_old_buff st)
                      (st_new_buff st)) ltac:(simpl; lia) eq_refl).
    simpl in IH. unfold len. by rewrite Hfin.
Qed.

Lemma pair_loop_buffers (tag : string) (old new : list string)
    (old1 old2 new1 new2 : Z) (indices : list nat) (st : pair_state) :
  ∃ st',
    ploop tag old new old1 old2 new1 new2 true indices st = ([], inr st')
    ∧ fst <$> st_old_buff st'
      = (fst <$> st_old_buff st) ++ ((fst ∘ entry old1 old2 new1 new2) <$> indices)
    ∧ fst <$> st_new_buff st'
      = (fst <$> st_new_buff st) ++ ((snd ∘ entry old1 old2 new1 new2) <$> indices).
Proof.
  revert st. induction indices as [|i indices IH]; intros st.
  { exists st. by rewrite !app_nil_r. }
  destruct (pair_loop_collect_entries tag old new old1 old2 new1 new2 i indices st)
    as (ob & nb & hook & Hob & Hnb & ->).
  destruct (IH (mkPairState (st_row_count st + 1)
                  (st_frag_list st ++ [[row_opening hook;
                                        row_id_frag (st_row_count st + 1)]])
                  (st_old_buff st ++ [ob]) (st_new_buff st ++ [nb])))
    as (st' & -> & Hold & Hnew).
  exists st'. simpl in Hold, Hnew. rewrite Hold, Hnew, !fmap_app, <- !app_assoc.
  simpl. by rewrite Hob, Hnb.
Qed.

Lemma render_region_pairs (tag : string) (st : pair_state) (first : Z) :
  startswith tag "error" = false → 0 ≤ first → frags_from first (st_frag_list st) →
  rows_of_pairs rendered first (fst (region tag st))
    (zip (fst <$> st_old_buff st) (fst <$> st_new_buff st)).
Proof.
  intros Htag Hfirst Hfrags. unfold render_region.
  destruct (IntraRegionDiff _ _ _) as [[old_chunks new_chunks] ratio].
  destruct (substitute (st_old_buff st) _) as [old_out|] eqn:Hold; [|done].
  destruct (substitute (st_new_buff st) _) as [new_out|] eqn:Hnew; [|done].
  rewrite <- (substitute_fst _ _ _ Hold), <- (substitute_fst _ _ _ Hnew).
  by apply RenderDiffInternal_pairs.
Qed.

(** The rows of one operation are the rows of its line pairs. *)
Lemma operation_pairs (tag : string) (old new : list string)
    (old_offset new_offset : Z) (do_ir_diff : bool) (row_count : Z) :
  startswith tag "error" = false → 0 ≤ row_count →
  rows_of_pairs rendered row_count
    (fst (st <- ploop tag old new old_offset (old_offset + len old)
                  new_offset (new_offset + len new) do_ir_diff
                  (seq 0 (Nat.max (length old) (length new)))
                  (mkPairState row_count [] [] []) ;;
          (if do_ir_diff then region tag st else gret tt) ;;;
          gret st))
    (op_pairs old new old_offset new_offset).
Proof.
  intros Htag Hcount.
  assert (op_pairs old new old_offset new_offset
          = entry old_offset (old_offset + len old) new_offset (new_offset + len new)
            <$> seq 0 (Nat.max (length old) (length new))) as ->.
  { unfold op_pairs. apply list_fmap_ext. intros _ i _.
    f_equal; f_equal; apply bool_decide_ext; lia. }
  destruct do_ir_diff.
  - destruct (pair_loop_collected old_patch old_dict old_snapshot new_patch
                new_dict new_snapshot colwidth debug ndigits indent
                tag old new old_offset (old_offset + len old)
                new_offset (new_offset + len new)
                (seq 0 (Nat.max (length old) (length new)))
                (mkPairState row_count [] [] []) row_count)
      as (st & Heq & Hfrags & _);
      [simpl; done || (unfold len; simpl; lia)..|].
    destruct (pair_loop_buffers tag old new old_offset (old_offset + len old)
                new_offset (new_offset + len new)
                (seq 0 (Nat.max (length old) (length new)))
                (mkPairState row_count [] [] [])) as (st' & Heq' & Hold & Hnew).
    rewrite Heq in Heq'. injection Heq' as <-. rewrite Heq, gbind_inr.
    pose proof (render_region_pairs tag st row_count Htag Hcount Hfrags) as Hrows.
    assert (zip (fst <$> st_old_buff st) (fst <$> st_new_buff st)
            = entry old_offset (old_offset + len old) new_offset (new_offset + len new)
              <$> seq 0 (Nat.max (length old) (length new))) as Hzip.
    { rewrite Hold, Hnew.
      apply (zip_fst_snd_fmap
               (entry old_offset (old_offset + len old)
                  new_offset (new_offset + len new))). }
    rewrite Hzip in Hrows.
    destruct (region tag st) as [ys [e|[]]]; simpl in *; by rewrite ?app_nil_r.
  - pose proof (pair_loop_pairs tag old new old_offset (old_offset + len old)
                  new_offset (new_offset + len new)
                  (seq 0 (Nat.max (length old) (length new)))
                  (mkPairState row_count [] [] []) Htag Hcount eq_refl) as Hrows.
    simpl in Hrows.
    destruct (ploop _ _ _ _ _ _ _ _ _ _) as [ys [e|st]]; simpl in *;
      by rewrite ?app_nil_r.
Qed.

(** The rows of the loop over the operations: the rows of the line pairs, as
    far as they are rendered, and the error row if an operation is tagged
    so. *)
Lemma triple_loop_pairs (triples : list triple)
    (old_offset new_offset row_count : Z) :
  0 ≤ row_count →
  let g := tloop triples old_offset new_offset row_count in
  ∃ body err,
    fst g = body ++ err
    ∧ (err = [] ∨ ∃ tag, err = [error_row tag])
    ∧ rows_of_pairs rendered row_count body (pairs_of triples old_offset new_offset)
    ∧ (snd g = inr tt → length body = length (pairs_of triples old_offset new_offset)).
Proof.
  revert old_offset new_offset row_count.
  induction triples as [|[[tag old] new] triples IH];
    intros old_offset new_offset row_count Hcount.
  { exists [], []. split_and!; by eauto. }
  cbv zeta. simpl pairs_of. destruct (startswith tag "error") eqn:Htag.
  { rewrite triple_loop_step, Htag. exists [], [error_row tag].
    split_and!; by eauto. }
  rewrite triple_loop_operation by done.
  pose proof (operation_pairs tag old new old_offset new_offset
                (bool_decide (tag = "replace") && CanDoIRDiff old new)
                row_count Htag Hcount) as Hpairs.
  destruct (operation_rows old_patch old_dict old_snapshot new_patch new_dict
              new_snapshot colwidth debug diff_params ndigits indent
              tag old new old_offset (old_offset + len old)
              new_offset (new_offset + len new)
              (bool_decide (tag = "replace") && CanDoIRDiff old new)
              row_count Hcount)
    as (_ & _ & Hend).
  match type of Hpairs with
  | rows_of_pairs _ _ (fst ?m) _ => set (op := m) in *
  end.
  match goal with
  | |- context [gbind op ?f] =>
      destruct (gbind_cases op f) as [(e & Hres & ->)|(st & Hres & ->)]
  end.
  { exists (fst op), []. rewrite app_nil_r. split_and!; [done|by left| |done].
    by apply rows_of_pairs_prefix. }
  destruct (Hend st Hres) as [Hrc Hlen].
  assert (length (fst op) = length (op_pairs old new old_offset new_offset))
    as Hlength.
  { unfold op_pairs. rewrite length_fmap, length_seq. unfold len in Hlen. lia. }
  destruct (IH (old_offset + len old) (new_offset + len new) (st_row_count st))
    as (body & err & Hrows & Herr & Hbody & Hfin).
  { rewrite Hrc. pose proof (len_nonneg (fst op)). lia. }
  simpl fst. simpl snd. rewrite Hrows.
  exists (fst op ++ body), err. rewrite app_assoc. split_and!; [done|done| |].
  - apply rows_of_pairs_app; [done|done|]. by rewrite <- Hrc.
  - intros Hdone. rewrite !length_app, Hlength. f_equal. auto.
Qed.

(** A rendered row of an operation that is not an error is not tagged
    [error]. *)
Lemma renders_pair_not_error (r : row) (lp : line_pair) :
  rendered r lp → fst r ≠ "error".
Proof.
  intros (ob & nb & frags & tag & do_ir_diff & Htag & _ & _ & Hpair).
  destruct ob as [[old_valid old_lineno] [[old_text old_nl] old_dbg]].
  destruct nb as [[new_valid new_lineno] [[new_text new_nl] new_dbg]].
  unfold render_pair in Hpair. apply (tagged_not_error tag); [done|].
  unfold tagged. case_bool_decide.
  - destruct (_RenderInlineComments old_valid _ _ _ _ _ _); [done|].
    destruct (_RenderInlineComments new_valid _ _ _ _ _ _); [done|].
    injection Hpair as <-. simpl. destruct (_ || _); auto.
  - injection Hpair as <-. by left.
Qed.

(** With a patch on either side, the row of a line pair whose old line has
    comments holds the comment cell of that line and is not tagged
    [equal]. *)
Lemma renders_pair_shows_old (r : row) (lp : line_pair)
    (comments : list Comment) (lineno : Z) :
  rendered r lp → is_Some old_patch ∨ is_Some new_patch →
  fst lp = (true, lineno) → old_dict !! lineno = Some comments →
  ∃ patch,
    old_patch = Some patch
    ∧ contains (snd r)
        (comment_cell get_current_user patch old_snapshot true comments lineno)
    ∧ fst r ≠ "equal".
Proof.
  intros (ob & nb & frags & tag & do_ir_diff & Htag & Hob & Hnb & Hpair) Hpatch
    Hline Hdict.
  destruct ob as [[old_valid old_lineno] [[old_text old_nl] old_dbg]].
  destruct nb as [[new_valid new_lineno] [[new_text new_nl] new_dbg]].
  simpl in Hob. rewrite Hline in Hob. injection Hob as -> ->.
  unfold render_pair in Hpair. rewrite bool_decide_eq_true_2 in Hpair by done.
  destruct old_patch as [patch|];
    [|by unfold _RenderInlineComments at 1 in Hpair; rewrite Hdict in Hpair].
  rewrite (RenderInlineComments_cell true lineno old_dict comments) in Hpair by done.
  destruct (_RenderInlineComments new_valid _ _ _ _ _ _) as [e|new_comments];
    [done|].
  injection Hpair as <-. exists patch. split_and!; [done| |].
  - simpl snd. apply contains_join.
  - simpl fst. rewrite Hdict, (bool_decide_eq_true_2 (is_Some (Some comments)))
      by (by eexists).
    simpl. intros Heq. by apply (comment_tag_length tag); rewrite Heq.
Qed.

Lemma renders_pair_shows_new (r : row) (lp : line_pair)
    (comments : list Comment) (lineno : Z) :
  rendered r lp → is_Some old_patch ∨ is_Some new_patch →
  snd lp = (true, lineno) → new_dict !! lineno = Some comments →
  ∃ patch,
    new_patch = Some patch
    ∧ contains (snd r)
        (comment_cell get_current_user patch new_snapshot false comments lineno)
    ∧ fst r ≠ "equal".
Proof.
  intros (ob & nb & frags & tag & do_ir_diff & Htag & Hob & Hnb & Hpair) Hpatch
    Hline Hdict.
  destruct ob as [[old_valid old_lineno] [[old_text old_nl] old_dbg]].
  destruct nb as [[new_valid new_lineno] [[new_text new_nl] new_dbg]].
  simpl in Hnb. rewrite Hline in Hnb. injection Hnb as -> ->.
  unfold render_pair in Hpair. rewrite bool_decide_eq_true_2 in Hpair by done.
  destruct (_RenderInlineComments old_valid _ _ _ _ _ _) as [e|old_comments];
    [done|].
  destruct new_patch as [patch|];
    [|by unfold _RenderInlineComments in Hpair; rewrite Hdict in Hpair].
  rewrite (RenderInlineComments_cell false lineno new_dict comments) in Hpair by done.
  injection Hpair as <-. exists patch. split_and!; [done| |].
  - simpl snd. apply contains_join_next.
  - simpl fst. rewrite Hdict, (bool_decide_eq_true_2 (is_Some (Some comments)))
      by (by eexists).
    rewrite orb_true_r. intros Heq. by apply (comment_tag_length tag); rewrite Heq.
Qed.

End PairRows.

(** The rows of [_TableRowGenerator] are at most one informational row, the
    rows of the line pairs of its operations, as far as they are rendered,
    and at most one error row. *)
Lemma TableRowGenerator_pairs `{IntraRegionLib} `{TemplateLib} `{UserService}
    (old_patch : option Patch) (old_dict : comment_dict) (old_max : Z)
    (old_snapshot : string)
    (new_patch : option Patch) (new_dict : comment_dict) (new_max : Z)
    (new_snapshot : string)
    (triple_iterator : list triple) (colwidth : Z) (debug : bool) :
  let g := _TableRowGenerator old_patch old_dict old_max old_snapshot
             new_patch new_dict new_max new_snapshot
             triple_iterator colwidth debug in
  let ndigits := 1 + Z.max (slen (str old_max)) (slen (str new_max)) in
  ∃ info body err,
    fst g = info ++ body ++ err
    ∧ Forall (fun r => fst r ≠ "error" ∧ match_pair_row (snd r) = None) info
    ∧ Forall (fun r => match_pair_row (snd r) = None) err
    ∧ rows_of_pairs
        (renders_pair old_patch old_dict old_snapshot new_patch new_dict
           new_snapshot ndigits debug get_current_user)
        0 body (pairs_of triple_iterator 0 0)
    ∧ (snd g = inr tt → length body = length (pairs_of triple_iterator 0 0)).
Proof.
  intros g ndigits. subst g. unfold _TableRowGenerator. fold ndigits.
  match goal with
  | |- context [triple_loop ?a ?b ?c ?d ?e ?f ?g ?h ?i ?j ?k triple_iterator 0 0 0] =>
      destruct (triple_loop_pairs a b c d e f g h i j k triple_iterator 0 0 0
                  ltac:(done))
        as (body & err & Hrows & Herr & Hbody & Hfin)
  end.
  assert (Forall (fun r : row => match_pair_row (snd r) = None) err) as Herr'.
  { destruct Herr as [ -> |[tag ->]]; by repeat constructor. }
  destruct (info_rows_cases old_patch new_patch old_max new_max)
    as [ -> | [ -> | [ -> | -> ] ] ]; rewrite ?gbind_inr, ?gbind_inl; simpl fst; simpl snd.
  - exists [], body, err. rewrite Hrows. split_and!; auto.
  - exists [empty_side_row old_max new_max], body, err.
    rewrite Hrows. split_and!; auto; by repeat constructor.
  - exists [both_equal_row], body, err. rewrite Hrows.
    split_and!; auto; by repeat constructor.
  - exists [], [], []. split_and!; auto; done.
Qed.

(** The row with the identifier [k + 1] is the row of the k-th line pair; no
    error row comes before it, and the generator yields it when it ends
    normally. *)
Lemma TableRowGenerator_pair_row `{IntraRegionLib} `{TemplateLib} `{UserService}
    (old_patch : option Patch) (old_dict : comment_dict) (old_max : Z)
    (old_snapshot : string)
    (new_patch : option Patch) (new_dict : comment_dict) (new_max : Z)
    (new_snapshot : string)
    (triple_iterator : list triple) (colwidth : Z) (debug : bool)
    (k : nat) (lp : line_pair) :
  let g := _TableRowGenerator old_patch old_dict old_max old_snapshot
             new_patch new_dict new_max new_snapshot
             triple_iterator colwidth debug in
  let ndigits := 1 + Z.max (slen (str old_max)) (slen (str new_max)) in
  pairs_of triple_iterator 0 0 !! k = Some lp →
  (∀ r, r ∈ fst g → match_pair_row (snd r) = Some (Z.of_nat k + 1) →
        renders_pair old_patch old_dict old_snapshot new_patch new_dict
          new_snapshot ndigits debug get_current_user r lp
        ∧ ∃ before after,
            fst g = before ++ r :: after
            ∧ Forall (fun x => fst x ≠ "error") before)
  ∧ (snd g = inr tt →
     ∃ r, r ∈ fst g ∧ match_pair_row (snd r) = Some (Z.of_nat k + 1)).
Proof.
  intros g ndigits Hk.
  destruct (TableRowGenerator_pairs old_patch old_dict old_max old_snapshot
              new_patch new_dict new_max new_snapshot triple_iterator colwidth debug)
    as (info & body & err & Hfst & Hinfo & Herr & Hbody & Hfin).
  fold g in Hfst, Hfin. fold ndigits in Hbody. split.
  - intros r Hin Hid. rewrite Hfst in Hin.
    apply elem_of_app in Hin as [Hin|Hin].
    { rewrite Forall_forall in Hinfo. destruct (Hinfo r Hin) as [_ Hnone].
      by rewrite Hnone in Hid. }
    apply elem_of_app in Hin as [Hin|Hin].
    2: { rewrite Forall_forall in Herr. by rewrite (Herr r Hin) in Hid. }
    apply list_elem_of_lookup in Hin as [j Hj].
    destruct (rows_of_pairs_lookup _ _ _ _ _ _ Hbody Hj) as [Hid' (lp' & Hlp' & HP)].
    rewrite Hid in Hid'. injection Hid' as Hjk.
    assert (j = k) as -> by lia. rewrite Hk in Hlp'. injection Hlp' as <-.
    split; [done|].
    exists (info ++ take k body), (drop (S k) body ++ err). split.
    + rewrite Hfst, <- app_assoc. f_equal.
      rewrite <- (take_drop_middle body k r Hj) at 1. by rewrite <- app_assoc.
    + apply Forall_app. split.
      * eapply Forall_impl; [exact Hinfo|]. by intros x [? _].
      * apply Forall_lookup. intros i x Hi. apply lookup_take_Some in Hi as [Hi _].
        destruct (rows_of_pairs_lookup _ _ _ _ _ _ Hbody Hi) as [_ (lpx & _ & HPx)].
        by eapply renders_pair_not_error.
  - intros Hdone. specialize (Hfin Hdone).
    assert (is_Some (body !! k)) as [r Hr].
    { apply lookup_lt_is_Some. rewrite Hfin. by eapply lookup_lt_Some. }
    exists r. split.
    + rewrite Hfst. apply elem_of_app. right. apply elem_of_app. left.
      by eapply list_elem_of_lookup_2.
    + destruct (rows_of_pairs_lookup _ _ _ _ _ _ Hbody Hr) as [-> _].
      f_equal; lia.
Qed.

(** A comment that the dictionary of a side holds, for a patch given on that
    side, is shown by the row generator followed by the collapser. *)
Lemma TableRowGenerator_comment_shown `{IntraRegionLib} `{TemplateLib} `{UserService}
    (old_patch : option Patch) (old_dict : comment_dict) (old_max : Z)
    (old_snapshot : string)
    (new_patch : option Patch) (new_dict : comment_dict) (new_max : Z)
    (new_snapshot : string)
    (triple_iterator : list triple) (colwidth : Z) (debug : bool) (context : Z)
    (left : bool) (patch : Patch) (c : Comment) :
  (if left then old_patch else new_patch) = Some patch →
  holds (if left then old_dict else new_dict) c →
  let rows := _TableRowGenerator old_patch old_dict old_max old_snapshot
                new_patch new_dict new_max new_snapshot
                triple_iterator colwidth debug in
  comment_shown rows (_CleanupTableRowsGenerator rows context)
    (pairs_of triple_iterator 0 0) left patch
    (if left then old_snapshot else new_snapshot) c.
Proof.
  intros Hpatch (comments & Hdict & Hc) rows k lp Hk Hside.
  destruct (TableRowGenerator_pair_row old_patch old_dict old_max old_snapshot
              new_patch new_dict new_max new_snapshot triple_iterator colwidth debug
              k lp Hk) as [Hrow Hexists].
  split; [|exact Hexists]. intros r Hin Hid.
  destruct (Hrow r Hin Hid) as (HP & before & after & Hsplit & Hbefore).
  assert (is_Some old_patch ∨ is_Some new_patch) as Hsome.
  { destruct left; [left|right]; by eexists. }
  assert ((∃ comments,
             c ∈ comments
             ∧ contains (snd r)
                 (comment_cell get_current_user patch
                    (if left then old_snapshot else new_snapshot) left comments
                    (comment_lineno c)))
          ∧ fst r ≠ "equal") as [Hshown Hne].
  { destruct left.
    - destruct (renders_pair_shows_old _ _ _ _ _ _ _ _ _ _ _ _ HP Hsome Hside Hdict)
        as (p & Hp & Hcont & Hne).
      rewrite Hpatch in Hp. injection Hp as <-. split; [by exists comments|done].
    - destruct (renders_pair_shows_new _ _ _ _ _ _ _ _ _ _ _ _ HP Hsome Hside Hdict)
        as (p & Hp & Hcont & Hne).
      rewrite Hpatch in Hp. injection Hp as <-. split; [by exists comments|done]. }
  split; [done|]. unfold finished, yielded, _CleanupTableRowsGenerator.
  fold rows in Hsplit. rewrite Hsplit. by apply cleanup_yields_row.
Qed.

(** ** Draft comments *)

Lemma foldl_skip_filter {A B} (skip : B → bool) (f : A → B → A) (init : A)
    (l : list B) :
  foldl (fun acc x => if skip x then acc else f acc x) init l
  = foldl (fun acc x => if skip x then acc else f acc x) init
      (filter (fun x => skip x = false) l).
Proof.
  revert init. induction l as [|x l IH]; intros init; [done|].
  destruct (skip x) eqn:Hx.
  - rewrite filter_cons_False by congruence. simpl. by rewrite Hx.
  - rewrite filter_cons_True by done. simpl. by rewrite Hx.
Qed.

Lemma dict_append_holds (dct : comment_dict) (c : Comment) : holds (dict_append dct c) c.
Proof.
  unfold holds, dict_append. rewrite lookup_insert_eq.
  eexists. split; [done|]. set_solver.
Qed.

Lemma dict_append_keeps (dct : comment_dict) (c c' : Comment) :
  holds dct c' → holds (dict_append dct c) c'.
Proof.
  intros (comments & Hlookup & Hin). unfold holds, dict_append.
  destruct (decide (comment_lineno c = comment_lineno c')) as [Heq|Hne].
  - rewrite Heq, lookup_insert_eq, Hlookup. eexists. split; [done|]. set_solver.
  - rewrite lookup_insert_ne by done. eauto.
Qed.

Lemma dict_append_all_held (dct : comment_dict) (c : Comment) (P : Comment → Prop) :
  all_held dct P → P c → all_held (dict_append dct c) P.
Proof.
  intros Hall Hc lineno comments c'. unfold dict_append.
  destruct (decide (comment_lineno c = lineno)) as [<-|Hne].
  - rewrite lookup_insert_eq. intros [= <-] [Hin|Hin]%elem_of_app.
    + destruct (dct !! comment_lineno c) as [old|] eqn:Hold; simpl in Hin.
      * by eapply Hall.
      * by apply elem_of_nil in Hin.
    + by apply list_elem_of_singleton in Hin as ->.
  - rewrite lookup_insert_ne by done. apply Hall.
Qed.

Lemma empty_all_held (P : Comment → Prop) : all_held ∅ P.
Proof. intros lineno comments c. by rewrite lookup_empty. Qed.

Section Drafts.

Context `{IntraRegionLib} `{TemplateLib} `{UserService} `{DiffSources}.

Variables (store : CommentStore) (request : Request).

Local Abbreviation visible_store := (without_hidden_drafts request store).
Local Abbreviation complete := (@Comment_complete store).

(** The bodies of the two loops over the comments. *)
Local Abbreviation right_step patch :=
  (fun (dct : comment_dict) comment =>
     if hidden_draft request comment then dct
     else dict_append dct (complete patch comment)).
Local Abbreviation side_step patch :=
  (fun '((old_dict, new_dict) : comment_dict * comment_dict) comment =>
     if hidden_draft request comment then (old_dict, new_dict)
     else
       let comment' := complete patch comment in
       if comment_left comment' then (dict_append old_dict comment', new_dict)
       else (old_dict, dict_append new_dict comment')).

(** The test of the two loops is the test for a draft of another user. *)
Lemma hidden_draft_spec (comment : Comment) :
  hidden_draft request comment = false
  ↔ ¬ draft_of_other (request_user request) comment.
Proof.
  unfold hidden_draft, draft_of_other.
  destruct (comment_draft comment); simpl.
  - case_bool_decide as Hauthor; simpl; split.
    + intros _ [_ Hne]. by rewrite Hauthor in Hne.
    + done.
    + done.
    + intros Hnot. exfalso. apply Hnot. split; [done|].
      intros Heq. by rewrite Heq in Hauthor.
  - split; [|done]. by intros _ [? _].
Qed.

Lemma visible_filter (l : list Comment) :
  filter (fun c => ¬ draft_of_other (request_user request) c) l
  = filter (fun c => hidden_draft request c = false) l.
Proof. apply list_filter_iff. intros c. by rewrite hidden_draft_spec. Qed.

Lemma right_comments_filter (patch : option Patch) :
  @right_comments store request patch = @right_comments visible_store request patch.
Proof.
  unfold right_comments. simpl. rewrite visible_filter. apply foldl_skip_filter.
Qed.

Lemma side_fold_filter (patch : option Patch) (acc : comment_dict * comment_dict)
    (l : list Comment) :
  foldl (side_step patch) acc l
  = foldl (side_step patch) acc (filter (fun c => hidden_draft request c = false) l).
Proof.
  revert acc. induction l as [|c l IH]; intros [old_dict new_dict]; [done|].
  destruct (hidden_draft request c) eqn:Hc.
  - rewrite filter_cons_False by congruence. simpl. by rewrite Hc.
  - rewrite filter_cons_True by done. simpl. by rewrite Hc.
Qed.

Lemma side_comments_filter (patch : option Patch) :
  @side_comments store request patch = @side_comments visible_store request patch.
Proof.
  unfold side_comments. destruct patch; [|done]. simpl.
  rewrite visible_filter. apply side_fold_filter.
Qed.

Lemma right_fold_keeps (patch : option Patch) (l : list Comment)
    (dct : comment_dict) (c : Comment) :
  holds dct c → holds (foldl (right_step patch) dct l) c.
Proof.
  revert dct. induction l as [|x l IH]; intros dct Hc; [done|]. simpl.
  apply IH. destruct (hidden_draft request x); [done|]. by apply dict_append_keeps.
Qed.

Lemma right_fold_holds (patch : option Patch) (l : list Comment)
    (dct : comment_dict) (comment : Comment) :
  comment ∈ l → hidden_draft request comment = false →
  holds (foldl (right_step patch) dct l) (complete patch comment).
Proof.
  intros Hin Hvisible. revert dct.
  induction l as [|x l IH]; intros dct; [by apply elem_of_nil in Hin|].
  apply elem_of_cons in Hin as [<-|Hin]; simpl.
  - rewrite Hvisible. apply right_fold_keeps, dict_append_holds.
  - by apply IH.
Qed.

Lemma right_fold_all_held (patch : option Patch) (l : list Comment)
    (dct : comment_dict) (P : Comment → Prop) :
  all_held dct P →
  (∀ comment, comment ∈ l → hidden_draft request comment = false →
              P (complete patch comment)) →
  all_held (foldl (right_step patch) dct l) P.
Proof.
  revert dct. induction l as [|x l IH]; intros dct Hdct Hl; [done|]. simpl.
  apply IH; [|intros c ?; apply Hl; by right].
  destruct (hidden_draft request x) eqn:Hx; [done|].
  apply dict_append_all_held; [done|]. apply Hl; [by left|done].
Qed.

Lemma side_fold_keeps (patch : option Patch) (l : list Comment)
    (acc : comment_dict * comment_dict) (c : Comment) :
  holds (side_of acc c) c → holds (side_of (foldl (side_step patch) acc l) c) c.
Proof.
  revert acc. induction l as [|x l IH]; intros [old_dict new_dict] Hc; [done|].
  simpl. apply IH. destruct (hidden_draft request x); [done|].
  unfold side_of in *.
  destruct (comment_left (complete patch x)), (comment_left c); simpl in *;
    done || by apply dict_append_keeps.
Qed.

Lemma side_fold_holds (patch : option Patch) (l : list Comment)
    (acc : comment_dict * comment_dict) (comment : Comment) :
  comment ∈ l → hidden_draft request comment = false →
  holds (side_of (foldl (side_step patch) acc l) (complete patch comment))
        (complete patch comment).
Proof.
  intros Hin Hvisible. revert acc.
  induction l as [|x l IH]; intros [old_dict new_dict];
    [by apply elem_of_nil in Hin|].
  apply elem_of_cons in Hin as [<-|Hin]; simpl.
  - rewrite Hvisible. apply side_fold_keeps. unfold side_of.
    destruct (comment_left (complete patch comment)); simpl;
      apply dict_append_holds.
  - by apply IH.
Qed.

Lemma side_fold_all_held (patch : option Patch) (l : list Comment)
    (acc : comment_dict * comment_dict) (P : Comment → Prop) :
  all_held (fst acc) P → all_held (snd acc) P →
  (∀ comment, comment ∈ l → hidden_draft request comment = false →
              P (complete patch comment)) →
  all_held (fst (foldl (side_step patch) acc l)) P
  ∧ all_held (snd (foldl (side_step patch) acc l)) P.
Proof.
  revert acc. induction l as [|x l IH]; intros [old_dict new_dict] Hold Hnew Hl;
    [done|].
  simpl. simpl in Hold, Hnew.
  assert (∀ c, c ∈ l → hidden_draft request c = false → P (complete patch c))
    as Hl' by (intros c ?; apply Hl; by right).
  destruct (hidden_draft request x) eqn:Hx; [by apply IH|].
  assert (P (complete patch x)) as Hx' by (apply Hl; [by left|done]).
  destruct (comment_left (complete patch x));
    apply IH; simpl; done || by apply dict_append_all_held.
Qed.

(** C6: for every viewer the two renders yield what they yield once the
    drafts of users other than the viewer are deleted from the comment store,
    and the dictionaries built for the render hold only comments that are not
    such drafts. Every comment of the patch that is not a draft is shown,
    whoever the viewer is: the row of every line pair that holds the line of
    the comment, on the side of the comment, holds the comment cell of that
    line, expanded for comments among which the comment is; that row is in
    the output of the render when it ends normally, and the row generator
    yields it when it ends normally. In the view of one patch the side is the
    old one for a left comment and the new one otherwise; in the view of two
    patches the comments of the old patch are on the old side and those of
    the new patch on the new side. *)
Theorem drafts_of_others_hidden :
  (∀ old_lines chunks patch colwidth debug context,
     @RenderDiffTableRows _ _ _ store _ request old_lines chunks patch
       colwidth debug context
     = @RenderDiffTableRows _ _ _ visible_store _ request old_lines chunks patch
         colwidth debug context)
  ∧ (∀ old_lines old_patch new_lines new_patch colwidth debug context,
       @RenderDiff2TableRows _ _ _ store _ request old_lines old_patch
         new_lines new_patch colwidth debug context
       = @RenderDiff2TableRows _ _ _ visible_store _ request old_lines old_patch
           new_lines new_patch colwidth debug context)
  ∧ (∀ patch,
       let kept c :=
         ∃ comment, comment ∈ @Comment_gql_patch store patch
                    ∧ ¬ draft_of_other (request_user request) comment
                    ∧ c = complete patch comment in
       all_held (fst (@side_comments store request patch)) kept
       ∧ all_held (snd (@side_comments store request patch)) kept)
  ∧ (∀ patch,
       all_held (@right_comments store request patch)
         (fun c => ∃ comment, comment ∈ @Comment_gql_patch_right store patch
                              ∧ ¬ draft_of_other (request_user request) comment
                              ∧ c = complete patch comment))
  ∧ (∀ old_lines chunks patch colwidth debug context comment,
       comment ∈ @Comment_gql_patch store (Some patch) →
       comment_draft comment = false →
       let c := complete (Some patch) comment in
       comment_shown
         (@_RenderDiffTableRows _ _ _ store _ request old_lines chunks (Some patch)
            colwidth debug)
         (@RenderDiffTableRows _ _ _ store _ request old_lines chunks (Some patch)
            colwidth debug context)
         (pairs_of (PatchChunks old_lines chunks) 0 0)
         (comment_left c) patch (if comment_left c then "old" else "new") c)
  ∧ (∀ old_lines old_patch new_lines patch colwidth debug context comment,
       comment ∈ @Comment_gql_patch_right store (Some patch) →
       comment_draft comment = false →
       comment_shown
         (@_RenderDiff2TableRows _ _ _ store _ request old_lines old_patch
            new_lines (Some patch) colwidth debug)
         (@RenderDiff2TableRows _ _ _ store _ request old_lines old_patch
            new_lines (Some patch) colwidth debug context)
         (pairs_of (_GenerateTriples old_lines new_lines) 0 0)
         false patch "new" (complete (Some patch) comment))
  ∧ (∀ old_lines patch new_lines new_patch colwidth debug context comment,
       comment ∈ @Comment_gql_patch_right store (Some patch) →
       comment_draft comment = false →
       comment_shown
         (@_RenderDiff2TableRows _ _ _ store _ request old_lines (Some patch)
            new_lines new_patch colwidth debug)
         (@RenderDiff2TableRows _ _ _ store _ request old_lines (Some patch)
            new_lines new_patch colwidth debug context)
         (pairs_of (_GenerateTriples old_lines new_lines) 0 0)
         true patch "new" (complete (Some patch) comment)).
Proof.
  assert (∀ comment, comment_draft comment = false →
                     hidden_draft request comment = false) as Hpublished.
  { intros comment Hdraft. unfold hidden_draft. by rewrite Hdraft. }
  split_and!.
  - intros. unfold RenderDiffTableRows, _RenderDiffTableRows.
    by rewrite side_comments_filter.
  - intros. unfold RenderDiff2TableRows, _RenderDiff2TableRows.
    by rewrite !right_comments_filter.
  - intros patch kept. unfold side_comments.
    destruct patch as [p|]; [|split; apply empty_all_held].
    apply side_fold_all_held; [apply empty_all_held..|].
    intros comment ? ?%hidden_draft_spec. by exists comment.
  - intros patch. unfold right_comments.
    apply right_fold_all_held; [apply empty_all_held|].
    intros comment ? ?%hidden_draft_spec. by exists comment.
  - intros old_lines chunks patch colwidth debug context comment Hin Hdraft c.
    unfold RenderDiffTableRows, _RenderDiffTableRows.
    pose proof (side_fold_holds (Some patch) (@Comment_gql_patch store (Some patch))
                  (∅, ∅) comment Hin (Hpublished _ Hdraft)) as Hheld.
    fold c in Hheld. unfold side_of in Hheld.
    change (foldl _ (∅, ∅) (@Comment_gql_patch store (Some patch)))
      with (@side_comments store request (Some patch)) in Hheld.
    destruct (@side_comments store request (Some patch)) as [old_dict new_dict].
    destruct (_ComputeLineCounts old_lines chunks) as [old_max new_max].
    apply (TableRowGenerator_comment_shown (Some patch) old_dict old_max "old"
             (Some patch) new_dict new_max "new" _ colwidth debug context
             (comment_left c) patch c); [by destruct (comment_left c)|].
    by destruct (comment_left c).
  - intros old_lines old_patch new_lines patch colwidth debug context comment
      Hin Hdraft.
    unfold RenderDiff2TableRows, _RenderDiff2TableRows.
    apply (TableRowGenerator_comment_shown old_patch _ _ "new"
             (Some patch) _ _ "new" _ colwidth debug context false patch);
      [done|].
    unfold right_comments. by apply right_fold_holds; [|apply Hpublished].
  - intros old_lines patch new_lines new_patch colwidth debug context comment
      Hin Hdraft.
    unfold RenderDiff2TableRows, _RenderDiff2TableRows.
    apply (TableRowGenerator_comment_shown (Some patch) _ _ "new"
             new_patch _ _ "new" _ colwidth debug context true patch);
      [done|].
    unfold right_comments. by apply right_fold_holds; [|apply Hpublished].
Qed.

End Drafts.

Lemma drafts_of_others_hidden_witness :
  @RenderDiffTableRows plain_ir plain_template nobody sample_store plain_diff
    (mkRequest (Some "alice")) ["a"; "b"] [] (Some (mkPatch 1 "f" [])) 80 false 50
  = @RenderDiffTableRows plain_ir plain_template nobody
      (without_hidden_drafts (mkRequest (Some "alice")) sample_store) plain_diff
      (mkRequest (Some "alice")) ["a"; "b"] [] (Some (mkPatch 1 "f" [])) 80 false 50
  ∧ ∃ r comments,
      r ∈ yielded (@_RenderDiffTableRows plain_ir plain_template nobody sample_store
                     plain_diff (mkRequest (Some "alice")) ["a"; "b"] []
                     (Some (mkPatch 1 "f" [])) 80 false)
      ∧ mkComment "bob" false false 2 "looks fine" ∈ comments
      ∧ contains (snd r)
          (@comment_cell plain_template (@get_current_user nobody) (mkPatch 1 "f" [])
             "new" false comments 2)
      ∧ Some (snd r)
        ∈ yielded (@RenderDiffTableRows plain_ir plain_template nobody sample_store
                     plain_diff (mkRequest (Some "alice")) ["a"; "b"] []
                     (Some (mkPatch 1 "f" [])) 80 false 50).
Proof.
  destruct (@drafts_of_others_hidden plain_ir plain_template nobody plain_diff
              sample_store (mkRequest (Some "alice")))
    as (Hrender & _ & _ & _ & Hshown & _).
  split; [apply Hrender|].
  destruct (Hshown ["a"; "b"] [] (mkPatch 1 "f" []) 80 false 50
              (mkComment "bob" false false 2 "looks fine")
              ltac:(by left) eq_refl 1%nat ((true, 2), (true, 2))
              ltac:(vm_compute; reflexivity) eq_refl) as [Hrow Hexists].
  destruct (Hexists ltac:(vm_compute; reflexivity)) as (r & Hin & Hid).
  destruct (Hrow r Hin Hid) as [(comments & Hc & Hcell) Hout].
  exists r, comments. split_and!; [done..|].
  apply Hout. vm_compute. reflexivity.
Defined.

(** * More properties of the module *)

(** ** Splitting a patch set *)

Lemma splitlines_join_cons (s : string) :
  join (splitlines s) = s ∧ ∀ c, join (splitlines (String c s)) = String c s.
Proof.
  induction s as [|a s [IH IHc]].
  - split; [done|]. intros c. simpl.
    destruct (Ascii.eqb c "010"); [done|]. by destruct (Ascii.eqb c "013").
  - split; [apply IHc|]. intros c.
    change (splitlines (String c (String a s)))
      with (if Ascii.eqb c "010" then String c "" :: splitlines (String a s)
            else if Ascii.eqb c "013" then
              if Ascii.eqb a "010" then String c (String a "") :: splitlines s
              else String c "" :: splitlines (String a s)
            else match splitlines (String a s) with
                 | [] => [String c ""]
                 | line :: lines => String c line :: lines
                 end).
    destruct (Ascii.eqb c "010").
    { by rewrite join_cons, (IHc a). }
    destruct (Ascii.eqb c "013").
    { destruct (Ascii.eqb a "010"); rewrite join_cons; by rewrite ?IH, ?(IHc a). }
    specialize (IHc a). destruct (splitlines (String a s)) as [|line lines]; [done|].
    rewrite join_cons in *. by rewrite sapp_cons, IHc.
Qed.

(** The lines of [splitlines] put together are the string. *)
Lemma splitlines_join (s : string) : join (splitlines s) = s.
Proof. apply splitlines_join_cons. Qed.

Section PatchSet.

Context `{FetchServices}.

Lemma ParsePatchSet_loop_body (body input : list string) (filename : option string)
    (lines : list string) (patches : list NewPatch) :
  Forall (fun l => startswith l "Index:" = false) body →
  ParsePatchSet_loop (body ++ input) filename (Some lines) patches
  = ParsePatchSet_loop input filename (Some (lines ++ body)) patches.
Proof.
  intros Hbody. revert lines.
  induction Hbody as [|l body Hl _ IH]; intros lines; simpl.
  - by rewrite app_nil_r.
  - rewrite Hl, IH. by rewrite <- app_assoc.
Qed.

Lemma ParsePatchSet_loop_preamble (pre input : list string)
    (patches : list NewPatch) :
  Forall (fun l => startswith l "Index:" = false) pre →
  ParsePatchSet_loop (pre ++ input) None None patches
  = ParsePatchSet_loop input None None patches.
Proof.
  intros Hpre. induction Hpre as [|l pre Hl _ IH]; simpl; [done|]. by rewrite Hl.
Qed.

Lemma pending_section (line : string) (body : list string) :
  pending_patch (Some (index_filename line)) (Some (line :: body))
  = option_list (section_patch (line :: body)).
Proof. unfold pending_patch, section_patch. by case_bool_decide. Qed.

Lemma ParsePatchSet_loop_sections (sections : list (list string))
    (filename : option string) (lines : option (list string))
    (patches : list NewPatch) :
  Forall is_section sections →
  ParsePatchSet_loop (concat sections) filename lines patches
  = patches ++ pending_patch filename lines ++ omap section_patch sections.
Proof.
  intros Hsections. revert filename lines patches.
  induction Hsections as [|section sections (line & body & -> & Hline & Hbody) _ IH];
    intros filename lines patches; simpl.
  - by rewrite app_nil_r.
  - rewrite Hline, ParsePatchSet_loop_body, IH by done.
    change ([line] ++ body) with (line :: body).
    rewrite pending_section, <- !app_assoc. do 2 f_equal.
    unfold section_patch. by case_bool_decide.
Qed.

(** Every list of lines is lines that do not start with [Index:] followed by
    sections. *)
Lemma lines_sections (input : list string) :
  ∃ pre sections,
    input = pre ++ concat sections
    ∧ Forall (fun l => startswith l "Index:" = false) pre
    ∧ Forall is_section sections.
Proof.
  induction input as [|l input (pre & sections & -> & Hpre & Hsections)].
  - by exists [], [].
  - destruct (startswith l "Index:") eqn:Hl.
    + exists [], ((l :: pre) :: sections). split_and!; [done|done|].
      constructor; [|done]. by exists l, pre.
    + exists (l :: pre), sections. split_and!; [done| |done]. by constructor.
Qed.

(** X1: the data of a patch set is, line by line, a preamble without
    [Index:] lines followed by sections that each start with an [Index:]
    line; [ParsePatchSet] drops the preamble and returns, in order, one patch
    for each section whose file name is not empty, with the stripped text
    after the first colon of the [Index:] line as file name and all lines of
    the section, the [Index:] line included, as text. *)
Theorem ParsePatchSet_sections (data : string) :
  (∃ pre sections,
     data = join (pre ++ concat sections)
     ∧ splitlines data = pre ++ concat sections
     ∧ Forall (fun l => startswith l "Index:" = false) pre
     ∧ Forall is_section sections)
  ∧ ∀ pre sections,
      splitlines data = pre ++ concat sections →
      Forall (fun l => startswith l "Index:" = false) pre →
      Forall is_section sections →
      ParsePatchSet data = omap section_patch sections.
Proof.
  split.
  - destruct (lines_sections (splitlines data)) as (pre & sections & Heq & ? & ?).
    exists pre, sections. split_and!; [|done..].
    by rewrite <- Heq, splitlines_join.
  - intros pre sections Heq Hpre Hsections. unfold ParsePatchSet.
    by rewrite Heq, ParsePatchSet_loop_preamble, ParsePatchSet_loop_sections.
Qed.

End PatchSet.

Lemma ParsePatchSet_sections_witness :
  @ParsePatchSet quiet_fetch
    ("diff of r7" +:+ nl +:+ "Index: a.py " +:+ nl +:+ "+x" +:+ nl
     +:+ "Index:" +:+ nl +:+ "-y" +:+ nl)
  = omap (@section_patch quiet_fetch)
      [["Index: a.py " +:+ nl; "+x" +:+ nl]; ["Index:" +:+ nl; "-y" +:+ nl]].
Proof.
  apply (proj2 (@ParsePatchSet_sections quiet_fetch
                  ("diff of r7" +:+ nl +:+ "Index: a.py " +:+ nl +:+ "+x" +:+ nl
                   +:+ "Index:" +:+ nl +:+ "-y" +:+ nl))
           ["diff of r7" +:+ nl]).
  - reflexivity.
  - by repeat constructor.
  - repeat constructor.
    + eexists _, _. split_and!; [reflexivity|reflexivity|by repeat constructor].
    + eexists _, _. split_and!; [reflexivity|reflexivity|by repeat constructor].
Defined.

(** ** More on the collapser *)

(** X2: the collapser reads nothing after a row tagged [error]: the rows
    that follow it, and the way the row generator ends, do not change what
    it yields. *)
Theorem cleanup_stops_at_error (rows rest : list row) (text : string)
    (rows_end rows_end' : exn + unit) (buffer : list string) (context : Z) :
  cleanup_loop (rows ++ ("error", text) :: rest) rows_end buffer context
  = cleanup_loop (rows ++ [("error", text)]) rows_end' buffer context.
Proof.
  revert buffer. induction rows as [|[tag t] rows IH]; intros buffer.
  - rewrite !app_nil_l, !cleanup_loop_step.
    by rewrite bool_decide_eq_false_2, bool_decide_eq_true_2.
  - rewrite <- !app_comm_cons, !cleanup_loop_step.
    case_bool_decide; [apply IH|].
    apply gbind_ext. intros _. apply gbind_ext. intros _.
    case_bool_decide; [done|apply IH].
Qed.

(** X3: when the row generator raises an exception, the collapser raises
    too unless a row tagged [error] stopped it before; the equal rows it was
    holding back are not yielded. *)
Theorem cleanup_source_raises (rows : list row) (e : exn) (buffer : list string)
    (context : Z) :
  (Forall (fun r => fst r ≠ "error") rows →
   ∃ e', outcome (cleanup_loop rows (inl e) buffer context) = inl e')
  ∧ (Forall (fun r => fst r = "equal") rows →
     cleanup_loop rows (inl e) buffer context = ([], inl e)).
Proof.
  split.
  - intros Hrows. revert buffer.
    induction Hrows as [|[tag t] rows Hrow _ IH]; intros buffer.
    + by exists e.
    + rewrite cleanup_loop_step. case_bool_decide; [apply IH|].
      simpl in Hrow. rewrite (bool_decide_eq_false_2 (tag = "error")) by done.
      destruct (_ShortenBuffer buffer context) as [ys [e'|[]]]; [by exists e'|].
      destruct (IH []) as [e' He']. exists e'. unfold outcome in *.
      unfold gmap_yield, yield. simpl.
      by destruct (cleanup_loop rows (inl e) [] context).
  - intros Hrows. revert buffer.
    induction Hrows as [|[tag t] rows Hrow _ IH]; intros buffer; [done|].
    simpl in Hrow. rewrite cleanup_loop_step, Hrow.
    rewrite bool_decide_eq_true_2 by done. apply IH.
Qed.

Lemma cleanup_source_raises_witness :
  (∃ e', outcome (cleanup_loop [("equal", bare_row 1); ("replace", bare_row 2);
                                ("equal", bare_row 3)]
                    (inl IndexError) [] 50) = inl e')
  ∧ cleanup_loop [("equal", bare_row 1); ("equal", bare_row 2)]
      (inl IndexError) [] 50 = ([], inl IndexError).
Proof.
  split.
  - apply (proj1 (cleanup_source_raises
                    [("equal", bare_row 1); ("replace", bare_row 2);
                     ("equal", bare_row 3)] IndexError [] 50)).
    by repeat constructor.
  - apply (proj2 (cleanup_source_raises
                    [("equal", bare_row 1); ("equal", bare_row 2)]
                    IndexError [] 50)).
    by repeat constructor.
Defined.

(** X4: [None] is yielded at most once and last, right after the text of a
    row tagged [error], and the collapser then ends normally; every other
    value it yields is a row text. *)
Theorem cleanup_None_last (rows : list row) (rows_end : exn + unit)
    (buffer : list string) (context : Z) :
  let g := cleanup_loop rows rows_end buffer context in
  (∃ texts, yielded g = Some <$> texts)
  ∨ (∃ texts text,
       yielded g = (Some <$> texts) ++ [Some text; None]
       ∧ ("error", text) ∈ rows
       ∧ finished g).
Proof.
  revert buffer. induction rows as [|[tag t] rows IH]; intros buffer.
  - left. simpl. destruct rows_end as [e|u]; [by exists []|].
    destruct buffer; [by exists []|]. by eexists.
  - cbv zeta. rewrite cleanup_loop_step. case_bool_decide as Htag.
    { destruct (IH (buffer ++ [t])) as [?|(texts & text & ? & ? & ?)]; [by left|].
      right. exists texts, text. split_and!; [done| |done]. by right. }
    destruct (_ShortenBuffer buffer context) as [ys [e|[]]].
    { left. by exists ys. }
    unfold gmap_yield, yield, yielded, finished in *. simpl.
    case_bool_decide as Herr.
    { right. exists ys, t. subst tag. split_and!; [done| |done]. by left. }
    destruct (IH []) as [[texts Hout]|(texts & text & Hout & Hin & Hdone)];
      destruct (cleanup_loop rows rows_end [] context) as [out res];
      simpl in *; subst out.
    + left. exists (ys ++ t :: texts). by rewrite fmap_app.
    + right. exists (ys ++ t :: texts), text. split_and!; [|by right|done].
      by rewrite fmap_app, <- app_assoc.
Qed.

(** X5: rows without an error row, fewer in all than three times
    [context], pass through the collapser unchanged: it yields the text of
    every row, in order, and nothing else. *)
Theorem cleanup_short_stream (rows : list row) (buffer : list string) (context : Z) :
  Forall (fun r => fst r ≠ "error") rows →
  len buffer + len rows < 3 * context →
  cleanup_loop rows (inr tt) buffer context
  = (Some <$> (buffer ++ (snd <$> rows)), inr tt).
Proof. apply cleanup_short_rows. Qed.

Lemma cleanup_short_stream_witness :
  cleanup_loop [("equal", bare_row 1); ("replace", bare_row 2); ("equal", bare_row 3)]
    (inr tt) [] 2
  = (Some <$> ([] ++ (snd <$> [("equal", bare_row 1); ("replace", bare_row 2);
                                ("equal", bare_row 3)])), inr tt).
Proof.
  apply (cleanup_short_stream
           [("equal", bare_row 1); ("replace", bare_row 2); ("equal", bare_row 3)]
           [] 2).
  - by repeat constructor.
  - vm_compute. reflexivity.
Defined.

(** X6: the collapser contracts only rows tagged [equal]: when it ends
    normally on rows without an error row, the texts of the other rows are
    all among what it yields, in their order. *)
Theorem cleanup_keeps_changes (rows : list row) (buffer : list string) (context : Z) :
  Forall (fun r => fst r ≠ "error") rows →
  finished (cleanup_loop rows (inr tt) buffer context) →
  (Some ∘ snd) <$> filter (fun r => fst r ≠ "equal") rows
  `sublist_of` yielded (cleanup_loop rows (inr tt) buffer context).
Proof. apply cleanup_changes_sublist. Qed.

Lemma cleanup_keeps_changes_witness :
  (Some ∘ snd) <$> filter (fun r => fst r ≠ "equal")
                     ((pair "equal" <$> bare_rows 1 4)
                      ++ [("insert", bare_row 5)])
  `sublist_of` yielded (cleanup_loop ((pair "equal" <$> bare_rows 1 4)
                                      ++ [("insert", bare_row 5)])
                          (inr tt) [] 1).
Proof.
  apply (cleanup_keeps_changes
           ((pair "equal" <$> bare_rows 1 4) ++ [("insert", bare_row 5)]) [] 1).
  - by repeat constructor.
  - vm_compute. reflexivity.
Defined.

(** ** The collapser without a context *)

Lemma cleanup_rows_loop_raises (rows : list row) (rows_end : exn + unit)
    (buffer : list string) :
  fst (cleanup_rows_loop rows rows_end buffer) = []
  ∧ (snd (cleanup_rows_loop rows rows_end buffer) = inr tt
     ↔ rows = [] ∧ buffer = [] ∧ rows_end = inr tt).
Proof.
  revert buffer. induction rows as [|[tag t] rows IH]; intros buffer; simpl.
  - destruct rows_end as [e|[]]; [split; [done|]; by split; [|intros (_ & _ & ?)]|].
    destruct buffer; split; try done; by split; [|intros (_ & ? & _)].
  - case_bool_decide.
    + destruct (IH (buffer ++ [t])) as [-> IHend]. split; [done|].
      rewrite IHend. split; [|by intros [? _]].
      intros (_ & Hbuffer & _). by destruct buffer.
    + split; [done|]. split; [done|by intros [? _]].
Qed.

(** X7: [_CleanupTableRows], which calls [_ShortenBuffer] without its
    [context], never yields a row, and ends normally only for a row generator
    that yields nothing and ends normally: the first row that is not tagged
    [equal], or the equal rows left at the end, make it raise [TypeError]. *)
Theorem CleanupTableRows_never_yields (rows : Gen row unit) :
  yielded (_CleanupTableRows rows) = []
  ∧ (finished (_CleanupTableRows rows) ↔ rows = ([], inr tt))
  ∧ (finished rows → yielded rows ≠ [] →
     outcome (_CleanupTableRows rows) = inl TypeError).
Proof.
  destruct rows as [rs rows_end]. unfold _CleanupTableRows, yielded, finished, outcome.
  simpl. destruct (cleanup_rows_loop_raises rs rows_end []) as [Hys Hend].
  split_and!; [done| |].
  - rewrite Hend. split; [by intros (-> & _ & ->)|by intros [= -> ->]].
  - intros -> Hrs. clear Hys Hend.
    assert (∀ buffer, rs ≠ [] ∨ buffer ≠ [] →
              snd (cleanup_rows_loop rs (inr tt) buffer) = inl TypeError) as Hraise.
    { clear Hrs. induction rs as [|[tag t] rs IH]; intros buffer Hne; simpl.
      - destruct buffer; [by destruct Hne|done].
      - case_bool_decide; [|done]. apply IH. right. by destruct buffer. }
    apply Hraise. by left.
Qed.

Lemma CleanupTableRows_never_yields_witness :
  outcome (_CleanupTableRows ([("equal", bare_row 1)], inr tt)) = inl TypeError.
Proof.
  apply (proj2 (proj2 (CleanupTableRows_never_yields ([("equal", bare_row 1)], inr tt)))).
  - reflexivity.
  - discriminate.
Defined.

(** ** More on contracting a run of equal rows *)

(** X8: a run of at least three times [context] rows that carry
    consecutive identifiers, as the row generator numbers them, is its first
    [context] rows, a middle and its last [context] rows; the collapser
    yields the placeholder in place of the middle, the skip count shown is
    the length of the middle, the anchor is the identifier of the last row
    before it, and [anchor + 1] and [anchor + skip], which the actions carry,
    are the identifiers of its first and last row. *)
Theorem ShortenBuffer_elides_middle (buffer : list string) (context first : Z) :
  1 ≤ context → 3 * context ≤ len buffer →
  numbered_from first (pair "equal" <$> buffer) →
  ∃ head middle tail,
    buffer = head ++ middle ++ tail
    ∧ len head = context ∧ len tail = context
    ∧ len middle = len buffer - 2 * context
    ∧ numbered_from (first + context) (pair "equal" <$> middle)
    ∧ _ShortenBuffer buffer context
      = (head
         ++ [skip_row (first + context) (len middle)
               ((if len middle <=? 10 then expand_link_show else expand_link_show10)
                  (first + context + 1) (first + context + len middle)
                  (first + context))]
         ++ tail, inr tt).
Proof.
  intros Hctx Hlong Hnum. unfold len in Hlong.
  set (c := Z.to_nat context).
  set (skip := (length buffer - 2 * c)%nat).
  assert (buffer = take c buffer ++ take skip (drop c buffer)
                   ++ drop (length buffer - c) buffer) as Hsplit.
  { rewrite <- (take_drop c buffer) at 1. f_equal.
    rewrite <- (take_drop skip (drop c buffer)) at 1. f_equal.
    rewrite drop_drop. f_equal. lia. }
  assert (length (take c buffer) = c) as Hhead by (rewrite length_take; lia).
  assert (length (take skip (drop c buffer)) = skip) as Hmiddle
    by (rewrite length_take, length_drop; lia).
  exists (take c buffer), (take skip (drop c buffer)), (drop (length buffer - c) buffer).
  unfold len. rewrite Hhead, Hmiddle, length_drop.
  split_and!; [done|lia|lia|lia| |].
  - rewrite Hsplit, !fmap_app in Hnum.
    apply numbered_from_app in Hnum as [_ Hnum].
    apply numbered_from_app in Hnum as [Hnum _].
    unfold len in Hnum. rewrite length_fmap, Hhead in Hnum.
    by replace (first + context) with (first + Z.of_nat c) by lia.
  - rewrite ShortenBuffer_long by (unfold len; lia).
    rewrite slice_to_nat, slice_from_neg by lia. fold c.
    unfold scan_last_id. rewrite (scan_numbered (take c buffer) first).
    + destruct (take c buffer) as [|t head] eqn:Htake; [simpl in Hhead; lia|].
      unfold len. rewrite Hhead.
      replace (first + Z.of_nat c) with (first + context) by lia.
      replace (Z.of_nat (length buffer) - 2 * context) with (Z.of_nat skip) by lia.
      done.
    + rewrite Hsplit, fmap_app in Hnum. by apply numbered_from_app in Hnum as [Hnum _].
Qed.

Lemma ShortenBuffer_elides_middle_witness :
  ∃ head middle tail,
    bare_rows 11 30 = head ++ middle ++ tail
    ∧ len head = 5 ∧ len tail = 5
    ∧ len middle = len (bare_rows 11 30) - 2 * 5
    ∧ numbered_from (10 + 5) (pair "equal" <$> middle)
    ∧ _ShortenBuffer (bare_rows 11 30) 5
      = (head
         ++ [skip_row (10 + 5) (len middle)
               ((if len middle <=? 10 then expand_link_show else expand_link_show10)
                  (10 + 5 + 1) (10 + 5 + len middle) (10 + 5))]
         ++ tail, inr tt).
Proof.
  apply (ShortenBuffer_elides_middle (bare_rows 11 30) 5 10).
  - lia.
  - vm_compute. discriminate.
  - vm_compute. repeat split.
Defined.

(** X9: for a [context] of at least 1 the collapser yields, for one run,
    never more rows than the run has and never more than three times
    [context]. *)
Theorem ShortenBuffer_bounded (buffer : list string) (context : Z) :
  1 ≤ context →
  len (yielded (_ShortenBuffer buffer context)) ≤ Z.min (len buffer) (3 * context).
Proof.
  intros Hctx. unfold yielded.
  destruct (Z.lt_ge_cases (len buffer) (3 * context)) as [Hshort|Hlong].
  { rewrite ShortenBuffer_short by done. simpl. lia. }
  rewrite ShortenBuffer_long by done.
  rewrite slice_to_nat, slice_from_neg by lia. unfold len in *.
  destruct (scan_last_id _); simpl;
    rewrite ?length_app, ?length_take; simpl; rewrite ?length_drop; lia.
Qed.

Lemma ShortenBuffer_bounded_witness :
  len (yielded (_ShortenBuffer (bare_rows 1 9) 2)) ≤ Z.min (len (bare_rows 1 9)) (3 * 2).
Proof. apply (ShortenBuffer_bounded (bare_rows 1 9) 2). lia. Defined.

(** ** More on the row generator and the two renderers *)

Lemma plain_ir_covers : @ir_render_covers plain_ir.
Proof. intros lines chunks tag ratio limit indent dbg. simpl. by rewrite length_fmap. Qed.

Section RowStream.

Context `{IntraRegionLib} `{TemplateLib} `{UserService}.

Variables (old_patch : option Patch) (old_dict : comment_dict) (old_max : Z)
          (old_snapshot : string)
          (new_patch : option Patch) (new_dict : comment_dict) (new_max : Z)
          (new_snapshot : string) (colwidth : Z) (debug : bool).

Local Abbreviation rows_of triples :=
  (_TableRowGenerator old_patch old_dict old_max old_snapshot
     new_patch new_dict new_max new_snapshot triples colwidth debug).

(** The rows of the first operations do not depend on the operations that
    follow. *)
Lemma triple_loop_prefix (diff_params : DiffParams) (ndigits indent : Z)
    (before after : list triple) (old_offset new_offset row_count : Z) :
  let loop triples :=
    triple_loop old_patch old_dict old_snapshot new_patch new_dict new_snapshot
      colwidth debug diff_params ndigits indent triples
      old_offset new_offset row_count in
  (∃ more, fst (loop (before ++ after)) = fst (loop before) ++ more)
  ∧ (∀ e, snd (loop before) = inl e → loop (before ++ after) = loop before).
Proof.
  cbv zeta. revert old_offset new_offset row_count.
  induction before as [|[[tag old] new] before IH];
    intros old_offset new_offset row_count.
  { split; [by eexists|done]. }
  rewrite <- app_comm_cons. destruct (startswith tag "error") eqn:Htag.
  { rewrite !triple_loop_step, Htag. split; [exists []; by rewrite app_nil_r|done]. }
  rewrite !triple_loop_operation by done.
  match goal with
  | |- context [gbind ?m (fun st => triple_loop _ _ _ _ _ _ _ _ _ _ _ before _ _ _)] =>
      destruct m as [ys [e|st]]
  end.
  { split; [exists []; by rewrite app_nil_r|done]. }
  rewrite !gbind_inr. simpl fst. simpl snd.
  destruct (IH (old_offset + len old) (new_offset + len new) (st_row_count st))
    as [[more Hmore] Hraise].
  split.
  - exists more. by rewrite Hmore, app_assoc.
  - intros e He. by rewrite (Hraise e He).
Qed.

(** X10: the rows that the generator yields for some operations are the
    first rows it yields when more operations follow, and an exception raised
    on the way is raised all the same: what is yielded never depends on
    operations not yet read. *)
Theorem TableRowGenerator_prefix (before after : list triple) :
  (∃ more, yielded (rows_of (before ++ after)) = yielded (rows_of before) ++ more)
  ∧ (∀ e, outcome (rows_of before) = inl e →
          rows_of (before ++ after) = rows_of before).
Proof.
  unfold _TableRowGenerator, yielded, outcome.
  match goal with
  | |- context [triple_loop _ _ _ _ _ _ _ _ ?p ?n ?i before 0 0 0] =>
      destruct (triple_loop_prefix p n i before after 0 0 0) as [[more Hmore] Hraise]
  end.
  destruct (info_rows old_patch new_patch old_max new_max) as [info [e|[]]].
  { split; [exists []; by rewrite app_nil_r|done]. }
  rewrite !gbind_inr. simpl fst. simpl snd. split.
  - exists more. by rewrite Hmore, app_assoc.
  - intros e He. by rewrite (Hraise e He).
Qed.

(** X11: when the intra-region diff renders every line it is given, the
    generator ends normally exactly when both patches are absent or both are
    present; with one patch absent and one present it raises
    [AttributeError] before it yields a row. *)
Theorem TableRowGenerator_ends (triples : list triple) :
  ir_render_covers →
  (finished (rows_of triples) ↔ patches_agree old_patch new_patch)
  ∧ (¬ patches_agree old_patch new_patch →
     rows_of triples = ([], inl AttributeError)).
Proof.
  intros Hcovers.
  assert (¬ patches_agree old_patch new_patch →
          rows_of triples = ([], inl AttributeError)) as Hraise.
  { intros Hdisagree. unfold _TableRowGenerator, info_rows, patches_agree in *.
    destruct old_patch as [o|], new_patch as [n|].
    - destruct Hdisagree. right. by split; eexists.
    - rewrite (bool_decide_eq_false_2 (Some o = None)) by done.
      by rewrite (bool_decide_eq_true_2 (Some o ≠ None)).
    - rewrite (bool_decide_eq_false_2 (None = Some n)) by done.
      by rewrite (bool_decide_eq_true_2 (None ≠ Some n)).
    - destruct Hdisagree. by left. }
  split; [|done]. split; [|intros; by apply TableRowGenerator_finishes].
  intros Hdone. destruct old_patch as [o|], new_patch as [n|].
  - right. split; by eexists.
  - exfalso. rewrite Hraise in Hdone; [done|]. intros [[[=] _]|[_ [? [=]]]].
  - exfalso. rewrite Hraise in Hdone; [done|]. intros [[_ [=]]|[[? [=]] _]].
  - by left.
Qed.

(** The rows of the generator that are tagged [equal] match the row
    pattern. *)
Lemma TableRowGenerator_equal_marked (triples : list triple) :
  Forall (fun r => fst r = "equal" → marked (snd r)) (fst (rows_of triples)).
Proof.
  destruct (TableRowGenerator_rows old_patch old_dict old_max old_snapshot
              new_patch new_dict new_max new_snapshot triples colwidth debug)
    as (info & body & err & -> & Hinfo & Herr & Hnum & _).
  rewrite !Forall_app. split_and!.
  - destruct Hinfo as [ -> | [ -> | -> ] ]; by repeat constructor.
  - eapply Forall_impl; [exact (numbered_marked _ _ Hnum)|]. auto.
  - destruct Herr as [ -> |[tag ->]]; by repeat constructor.
Qed.

(** The generator followed by the collapser ends normally when the generator
    does. *)
Lemma pipeline_finishes (triples : list triple) (context : Z) :
  1 ≤ context → finished (rows_of triples) →
  finished (_CleanupTableRowsGenerator (rows_of triples) context).
Proof.
  intros Hctx Hdone. unfold finished, _CleanupTableRowsGenerator in *.
  rewrite Hdone. apply cleanup_finished; [done| |done].
  apply TableRowGenerator_equal_marked.
Qed.

End RowStream.

Lemma TableRowGenerator_ends_witness :
  finished (@_TableRowGenerator plain_ir plain_template nobody
              None ∅ 2 "old" None ∅ 2 "new" [("replace", ["a"], ["b"])] 80 false)
  ∧ @_TableRowGenerator plain_ir plain_template nobody
      None ∅ 2 "old" (Some (mkPatch 1 "f" [])) ∅ 2 "new"
      [("replace", ["a"], ["b"])] 80 false
    = ([], inl AttributeError).
Proof.
  split.
  - apply (proj1 (@TableRowGenerator_ends plain_ir plain_template nobody
                    None ∅ 2 "old" None ∅ 2 "new" 80 false
                    [("replace", ["a"], ["b"])] plain_ir_covers)).
    by left.
  - apply (proj2 (@TableRowGenerator_ends plain_ir plain_template nobody
                    None ∅ 2 "old" (Some (mkPatch 1 "f" [])) ∅ 2 "new" 80 false
                    [("replace", ["a"], ["b"])] plain_ir_covers)).
    intros [[_ [=]]|[[? [=]] _]].
Defined.

(** X12: with a [context] of at least 1 and an intra-region diff that
    renders every line it is given, [RenderDiffTableRows] ends normally for
    every file, chunk list, patch and comment store, and so does
    [RenderDiff2TableRows] when both patches are present or both absent:
    neither the contraction nor the comment rows can raise. *)
Theorem renders_end_normally
    `{IntraRegionLib} `{TemplateLib} `{UserService} `{CommentStore} `{DiffSources}
    (request : Request) (old_lines new_lines : list string) (chunks : list chunk)
    (patch old_patch new_patch : option Patch)
    (colwidth : Z) (debug : bool) (context : Z) :
  1 ≤ context → ir_render_covers →
  finished (RenderDiffTableRows request old_lines chunks patch colwidth debug context)
  ∧ (patches_agree old_patch new_patch →
     finished (RenderDiff2TableRows request old_lines old_patch new_lines new_patch
                 colwidth debug context)).
Proof.
  intros Hctx Hcovers. split.
  - unfold RenderDiffTableRows, _RenderDiffTableRows.
    destruct (side_comments request patch) as [old_dict new_dict].
    destruct (_ComputeLineCounts old_lines chunks) as [old_max new_max].
    apply pipeline_finishes; [done|]. apply TableRowGenerator_finishes; [|done].
    destruct patch; [right; split; by eexists|by left].
  - intros Hagree. unfold RenderDiff2TableRows, _RenderDiff2TableRows.
    apply pipeline_finishes; [done|]. by apply TableRowGenerator_finishes.
Qed.

Lemma renders_end_normally_witness :
  finished (@RenderDiffTableRows plain_ir plain_template nobody sample_store plain_diff
              (mkRequest (Some "alice")) ["a"; "b"] [] (Some (mkPatch 1 "f" []))
              80 false 50)
  ∧ (patches_agree (Some (mkPatch 1 "f" [])) (Some (mkPatch 2 "f" [])) →
     finished (@RenderDiff2TableRows plain_ir plain_template nobody sample_store
                 plain_diff (mkRequest (Some "alice")) ["a"; "b"]
                 (Some (mkPatch 1 "f" [])) ["a"; "c"] (Some (mkPatch 2 "f" []))
                 80 false 50)).
Proof.
  apply (@renders_end_normally plain_ir plain_template nobody sample_store plain_diff
           (mkRequest (Some "alice")) ["a"; "b"] ["a"; "c"] []
           (Some (mkPatch 1 "f" [])) (Some (mkPatch 1 "f" [])) (Some (mkPatch 2 "f" []))
           80 false 50).
  - lia.
  - exact plain_ir_covers.
Defined.

(** ** The comment dictionaries *)

Lemma dict_append_lookup (dct : comment_dict) (c : Comment) (lineno : Z) :
  dict_append dct c !! lineno
  = if decide (comment_lineno c = lineno)
    then Some (default [] (dct !! lineno) ++ [c]) else dct !! lineno.
Proof.
  unfold dict_append. case_decide as Hline.
  - by rewrite Hline, lookup_insert_eq.
  - by rewrite lookup_insert_ne.
Qed.

Lemma add_entry_snoc (entry : option (list Comment)) (c : Comment)
    (cs : list Comment) :
  add_entry (Some (default [] entry ++ [c])) cs = add_entry entry (c :: cs).
Proof. destruct cs; simpl; [done|]. by rewrite <- app_assoc. Qed.

Lemma line_entry_add (lineno : Z) (l : list Comment) :
  line_entry lineno l
  = add_entry None (filter (fun c => comment_lineno c = lineno) l).
Proof. unfold line_entry. by destruct (filter _ l). Qed.

Section Dictionaries.

Variables (store : CommentStore) (request : Request) (patch : option Patch).

Local Abbreviation complete := (@Comment_complete store patch).
Local Abbreviation shown l :=
  (complete <$> filter (fun c => hidden_draft request c = false) l).

Lemma right_fold_lookup (l : list Comment) (dct : comment_dict) (lineno : Z) :
  foldl (fun (dct : comment_dict) comment =>
           if hidden_draft request comment then dct
           else dict_append dct (complete comment)) dct l !! lineno
  = add_entry (dct !! lineno)
      (filter (fun c => comment_lineno c = lineno) (shown l)).
Proof.
  revert dct. induction l as [|x l IH]; intros dct; [done|]. simpl foldl.
  rewrite IH. destruct (hidden_draft request x) eqn:Hx.
  - by rewrite filter_cons_False by congruence.
  - rewrite (filter_cons_True (λ c, hidden_draft request c = false)) by done.
    rewrite fmap_cons, dict_append_lookup. case_decide as Hline.
    + rewrite filter_cons_True by done. apply add_entry_snoc.
    + by rewrite filter_cons_False by done.
Qed.

Lemma side_fold_lookup (l : list Comment) (acc : comment_dict * comment_dict)
    (lineno : Z) :
  let dicts :=
    foldl (fun '((old_dict, new_dict) : comment_dict * comment_dict) comment =>
             if hidden_draft request comment then (old_dict, new_dict)
             else
               let comment' := complete comment in
               if comment_left comment' then (dict_append old_dict comment', new_dict)
               else (old_dict, dict_append new_dict comment')) acc l in
  fst dicts !! lineno
  = add_entry (fst acc !! lineno)
      (filter (fun c => comment_lineno c = lineno)
         (filter (fun c => comment_left c = true) (shown l)))
  ∧ snd dicts !! lineno
    = add_entry (snd acc !! lineno)
        (filter (fun c => comment_lineno c = lineno)
           (filter (fun c => comment_left c = false) (shown l))).
Proof.
  cbv zeta. revert acc. induction l as [|x l IH]; intros [old_dict new_dict];
    [done|].
  simpl foldl. destruct (hidden_draft request x) eqn:Hx.
  { rewrite (filter_cons_False (λ c, hidden_draft request c = false)) by congruence.
    apply IH. }
  rewrite (filter_cons_True (λ c, hidden_draft request c = false)) by done.
  rewrite fmap_cons. destruct (comment_left (complete x)) eqn:Hleft.
  - destruct (IH (dict_append old_dict (complete x), new_dict)) as [-> ->].
    rewrite (filter_cons_True (λ c, comment_left c = true)) by done.
    rewrite (filter_cons_False (λ c, comment_left c = false)) by congruence.
    split; [|done]. simpl fst. rewrite dict_append_lookup. case_decide.
    + rewrite filter_cons_True by done. apply add_entry_snoc.
    + by rewrite filter_cons_False by done.
  - destruct (IH (old_dict, dict_append new_dict (complete x))) as [-> ->].
    rewrite (filter_cons_False (λ c, comment_left c = true)) by congruence.
    rewrite (filter_cons_True (λ c, comment_left c = false)) by done.
    split; [done|]. simpl snd. rewrite dict_append_lookup. case_decide.
    + rewrite filter_cons_True by done. apply add_entry_snoc.
    + by rewrite filter_cons_False by done.
Qed.

End Dictionaries.

(** X13: the dictionaries built for a render group the comments by line,
    in the order of the query: the entry of a line is the list of the
    completed comments on that line that are not drafts of other users (for
    [_RenderDiffTableRows], on the side of the dictionary), in query order,
    and a line without such a comment has no entry. *)
Theorem comment_dicts_by_line `{store : CommentStore} (request : Request)
    (patch : option Patch) (lineno : Z) :
  let shown l :=
    Comment_complete patch
    <$> filter (fun c => hidden_draft request c = false) l in
  right_comments request patch !! lineno
  = line_entry lineno (shown (Comment_gql_patch_right patch))
  ∧ (is_Some patch →
     fst (side_comments request patch) !! lineno
     = line_entry lineno
         (filter (fun c => comment_left c = true)
            (shown (Comment_gql_patch patch)))
     ∧ snd (side_comments request patch) !! lineno
       = line_entry lineno
           (filter (fun c => comment_left c = false)
              (shown (Comment_gql_patch patch)))).
Proof.
  intros shown. subst shown. cbv beta. split.
  - unfold right_comments. by rewrite right_fold_lookup, line_entry_add, lookup_empty.
  - intros [p ->]. unfold side_comments.
    destruct (side_fold_lookup store request (Some p)
                (Comment_gql_patch (Some p)) (∅, ∅) lineno) as [Hold Hnew].
    rewrite !line_entry_add.
    split; (etrans; [eassumption|]); simpl; by rewrite lookup_empty.
Qed.

Lemma comment_dicts_by_line_witness :
  fst (@side_comments sample_store (mkRequest (Some "eve")) (Some (mkPatch 1 "f" [])))
    !! 2
  = line_entry 2
      (filter (fun c => comment_left c = true)
         (@Comment_complete sample_store (Some (mkPatch 1 "f" []))
          <$> filter (fun c => hidden_draft (mkRequest (Some "eve")) c = false)
                (@Comment_gql_patch sample_store (Some (mkPatch 1 "f" [])))))
  ∧ snd (@side_comments sample_store (mkRequest (Some "eve"))
           (Some (mkPatch 1 "f" []))) !! 2
    = line_entry 2
        (filter (fun c => comment_left c = false)
           (@Comment_complete sample_store (Some (mkPatch 1 "f" []))
            <$> filter (fun c => hidden_draft (mkRequest (Some "eve")) c = false)
                  (@Comment_gql_patch sample_store (Some (mkPatch 1 "f" []))))).
Proof.
  apply (proj2 (@comment_dicts_by_line sample_store (mkRequest (Some "eve"))
                  (Some (mkPatch 1 "f" [])) 2)).
  by eexists.
Defined.

(** ** Commented lines stay visible *)

(** X14: a line pair that carries a comment on a valid side is rendered
    with the tag [<tag>_comment], whatever the operation; this tag is neither
    [equal] nor [error], so the collapser never buffers the row: in every
    stream of rows without an error row that the collapser finishes, the row
    is among what is yielded. *)
Theorem commented_pair_shown `{IntraRegionLib} `{TemplateLib}
    (ob nb : out_entry) (frags : list string) (ndigits : Z) (tag : string)
    (do_ir_diff : bool) (old_dict new_dict : comment_dict)
    (old_patch new_patch : option Patch) (old_snapshot new_snapshot : string)
    (debug : bool) (user : option User) (r : row) :
  render_pair ob nb frags ndigits tag do_ir_diff old_dict new_dict
    old_patch new_patch old_snapshot new_snapshot debug user = inr r →
  is_Some old_patch ∨ is_Some new_patch →
  (fst (fst ob) = true ∧ is_Some (old_dict !! snd (fst ob)))
  ∨ (fst (fst nb) = true ∧ is_Some (new_dict !! snd (fst nb))) →
  fst r = tag +:+ "_comment"
  ∧ fst r ≠ "equal"
  ∧ ∀ (before after : list row) (buffer : list string) (context : Z),
      Forall (fun r => fst r ≠ "error") (before ++ after) →
      finished (cleanup_loop (before ++ r :: after) (inr tt) buffer context) →
      Some (snd r)
      ∈ yielded (cleanup_loop (before ++ r :: after) (inr tt) buffer context).
Proof.
  intros Hr Hpatch Hcomment.
  assert (fst r = tag +:+ "_comment") as Htag.
  { destruct ob as [[old_valid old_lineno] [[old_intra old_nl] old_dbg]].
    destruct nb as [[new_valid new_lineno] [[new_intra new_nl] new_dbg]].
    unfold render_pair in Hr. cbv zeta in Hr.
    rewrite bool_decide_eq_true_2 in Hr by done.
    assert ((old_valid && bool_decide (is_Some (old_dict !! old_lineno)))
            || (new_valid && bool_decide (is_Some (new_dict !! new_lineno)))
            = true) as Hc.
    { simpl in Hcomment. apply orb_true_iff.
      destruct Hcomment as [[-> Hin]|[-> Hin]]; [left|right];
        by rewrite bool_decide_eq_true_2. }
    rewrite Hc in Hr.
    destruct (_RenderInlineComments old_valid _ _ _ _ _ _); [done|].
    destruct (_RenderInlineComments new_valid _ _ _ _ _ _); [done|].
    by injection Hr as <-. }
  assert (fst r ≠ "equal") as Hequal.
  { rewrite Htag. intros Heq. by apply (comment_tag_length tag); rewrite Heq. }
  assert (fst r ≠ "error") as Herror.
  { rewrite Htag. intros Heq. by apply (comment_tag_length tag); rewrite Heq. }
  split_and!; [done..|].
  intros before after buffer context Hrows Hdone.
  eapply elem_of_submseteq; [|apply sublist_submseteq, cleanup_changes_sublist].
  - apply (list_elem_of_fmap_2 (Some ∘ snd) _ r), list_elem_of_filter.
    split; [done|]. apply elem_of_app. right. apply elem_of_cons. by left.
  - apply Forall_app in Hrows as [??]. apply Forall_app. split; [done|].
    by apply Forall_cons.
  - done.
Qed.

Lemma commented_pair_shown_witness :
  ∃ r,
    @render_pair plain_ir plain_template
      (true, 2, ("a", true, None)) (true, 2, ("b", true, None)) ["<tr>"] 2
      "replace" false {[ 2 := [mkComment "bob" false true 2 "why"] ]} ∅
      (Some (mkPatch 1 "f" [])) None "old" "new" false None = inr r
    ∧ fst r = "replace" +:+ "_comment".
Proof.
  eexists. split; [vm_compute; reflexivity|].
  refine (proj1 (@commented_pair_shown plain_ir plain_template
                   (true, 2, ("a", true, None)) (true, 2, ("b", true, None))
                   ["<tr>"] 2 "replace" false
                   {[ 2 := [mkComment "bob" false true 2 "why"] ]} ∅
                   (Some (mkPatch 1 "f" [])) None "old" "new" false None _ _ _ _)).
  - vm_compute. reflexivity.
  - left. by eexists.
  - left. split; [reflexivity|]. by eexists.
Defined.

(** ** [_GenerateTriples] *)

Lemma slice_nonneg {A} (l : list A) (i j : Z) :
  0 ≤ i → 0 ≤ j →
  slice l i j = drop (Z.to_nat i) (take (Z.to_nat j) l).
Proof.
  intros Hi Hj. unfold slice, slice_bound.
  by rewrite !(proj2 (Z.ltb_ge _ _)) by done.
Qed.

Lemma slice_app {A} (l : list A) (i k j : Z) :
  0 ≤ i → i ≤ k → k ≤ j →
  slice l i k ++ slice l k j = slice l i j.
Proof.
  intros Hi Hk Hj. rewrite !slice_nonneg by lia.
  assert (Z.to_nat i ≤ Z.to_nat k ≤ Z.to_nat j)%nat as [Hik Hkj] by lia.
  revert Hik Hkj. generalize (Z.to_nat i) (Z.to_nat k) (Z.to_nat j).
  clear. intros i k j Hik Hkj.
  rewrite <- (take_drop k (take j l)) at 2.
  rewrite take_take, Nat.min_l by done. rewrite drop_app.
  f_equal. destruct (decide (k ≤ length l)%nat) as [Hlen|Hlen].
  - rewrite length_take, Nat.min_l by done.
    by replace (i - k)%nat with 0%nat by lia.
  - rewrite !(drop_ge (take j l) k) by (rewrite length_take; lia).
    by rewrite drop_nil.
Qed.

Lemma opcodes_cover_le (ops : list (string * Z * Z * Z * Z)) (i j i_end j_end : Z) :
  opcodes_cover ops i j i_end j_end → i ≤ i_end ∧ j ≤ j_end.
Proof.
  revert i j. induction ops as [|[[[[tag i1] i2] j1] j2] ops IH]; intros i j.
  - intros [-> ->]. lia.
  - intros (_ & _ & Hi & Hj & Hrest). apply IH in Hrest. lia.
Qed.

Lemma opcodes_cover_concat (old_lines new_lines : list string)
    (ops : list (string * Z * Z * Z * Z)) (i j i_end j_end : Z) :
  0 ≤ i → 0 ≤ j → opcodes_cover ops i j i_end j_end →
  let triples :=
    (fun '(tag, i1, i2, j1, j2) =>
       (tag, slice old_lines i1 i2, slice new_lines j1 j2)) <$> ops in
  concat ((fun t : triple => snd (fst t)) <$> triples) = slice old_lines i i_end
  ∧ concat ((fun t : triple => snd t) <$> triples) = slice new_lines j j_end.
Proof.
  cbv zeta. revert i j.
  induction ops as [|[[[[tag i1] i2] j1] j2] ops IH]; intros i j Hi Hj Hcover.
  - destruct Hcover as [-> ->]. rewrite !slice_nonneg by done. simpl.
    split; symmetry; apply drop_ge; rewrite length_take; lia.
  - destruct Hcover as (-> & -> & Hi2 & Hj2 & Hrest).
    destruct (opcodes_cover_le _ _ _ _ _ Hrest) as [Hie Hje].
    destruct (IH i2 j2 ltac:(lia) ltac:(lia) Hrest) as [IHold IHnew].
    rewrite !fmap_cons. simpl concat. rewrite IHold, IHnew.
    split; by apply slice_app.
Qed.

(** X15: when the opcodes of the sequence matcher go through both files
    without a gap or an overlap (as difflib's do), the operations
    [_GenerateTriples] hands to the row generator carry every line of both
    files exactly once and in order: the old sides concatenated are
    [old_lines], the new sides [new_lines], and the tags are those of the
    opcodes. *)
Theorem GenerateTriples_partition `{DiffSources} (old_lines new_lines : list string) :
  opcodes_cover (get_opcodes old_lines new_lines) 0 0 (len old_lines) (len new_lines) →
  concat ((fun t : triple => snd (fst t)) <$> _GenerateTriples old_lines new_lines)
  = old_lines
  ∧ concat ((fun t : triple => snd t) <$> _GenerateTriples old_lines new_lines)
    = new_lines
  ∧ (fun t : triple => fst (fst t)) <$> _GenerateTriples old_lines new_lines
    = (fun op : string * Z * Z * Z * Z => fst (fst (fst (fst op))))
      <$> get_opcodes old_lines new_lines.
Proof.
  intros Hcover. unfold _GenerateTriples.
  destruct (opcodes_cover_concat old_lines new_lines _ 0 0 _ _
              ltac:(lia) ltac:(lia) Hcover) as [Hold Hnew].
  split_and!.
  - rewrite Hold, slice_nonneg by (unfold len; lia).
    unfold len. by rewrite Nat2Z.id, take_ge.
  - rewrite Hnew, slice_nonneg by (unfold len; lia).
    unfold len. by rewrite Nat2Z.id, take_ge.
  - rewrite <- list_fmap_compose. apply list_fmap_ext.
    by intros _ [[[[tag i1] i2] j1] j2] _.
Qed.

Lemma GenerateTriples_partition_witness :
  concat ((fun t : triple => snd (fst t))
          <$> @_GenerateTriples plain_diff ["a"; "b"] ["a"]) = ["a"; "b"]
  ∧ concat ((fun t : triple => snd t)
            <$> @_GenerateTriples plain_diff ["a"; "b"] ["a"]) = ["a"].
Proof.
  destruct (@GenerateTriples_partition plain_diff ["a"; "b"] ["a"])
    as (Hold & Hnew & _).
  - simpl. unfold len. simpl. lia.
  - by split.
Defined.

(** ** Escaping and line numbers *)

Lemma chars_app (s t : string) : chars (s +:+ t) = chars s ++ chars t.
Proof. induction s as [|a s IH]; [done|]. rewrite sapp_cons. simpl. by rewrite IH. Qed.

Lemma cgi_escape_chars (s : string) :
  Forall (fun c => c ≠ "<"%char ∧ c ≠ ">"%char) (chars (cgi_escape s)).
Proof.
  induction s as [|a s IH]; [constructor|].
  simpl cgi_escape. rewrite chars_app. apply Forall_app. split; [|done].
  destruct (Ascii.eqb a "&") eqn:Hamp; [by repeat constructor|].
  destruct (Ascii.eqb a "<") eqn:Hlt; [by repeat constructor|].
  destruct (Ascii.eqb a ">") eqn:Hgt; [by repeat constructor|].
  apply Ascii.eqb_neq in Hlt, Hgt. by repeat constructor.
Qed.

Lemma cgi_escape_plain (s : string) :
  Forall (fun c => c ≠ "&"%char ∧ c ≠ "<"%char ∧ c ≠ ">"%char) (chars s) →
  cgi_escape s = s.
Proof.
  induction s as [|a s IH]; [done|]. simpl chars. intros Hs.
  apply Forall_cons in Hs as [(Hamp & Hlt & Hgt) Hs]. simpl cgi_escape.
  apply Ascii.eqb_neq in Hamp, Hlt, Hgt. rewrite Hamp, Hlt, Hgt, IH by done.
  by rewrite sapp_cons, sapp_nil_l.
Qed.

(** X16: the row produced for an [error] operation wraps the escaped
    message in fixed markup: whatever the tag of the operation holds, the
    message between [<h3>] and [</h3>] has no [<] and no [>], so the tag
    cannot add markup to the page; a tag without [&], [<] and [>] is shown
    as it is. *)
Theorem error_row_escaped (tag : string) :
  ∃ msg,
    error_row tag = ("error", "<tr><td><h3>" +:+ msg +:+ "</h3></td></tr>" +:+ nl)
    ∧ Forall (fun c => c ≠ "<"%char ∧ c ≠ ">"%char) (chars msg)
    ∧ (Forall (fun c => c ≠ "&"%char ∧ c ≠ "<"%char ∧ c ≠ ">"%char) (chars tag) →
       msg = tag).
Proof.
  exists (cgi_escape tag). split_and!; [done|apply cgi_escape_chars|].
  apply cgi_escape_plain.
Qed.

Lemma error_row_escaped_witness :
  ∃ msg,
    error_row "error: old version"
    = ("error", "<tr><td><h3>" +:+ msg +:+ "</h3></td></tr>" +:+ nl)
    ∧ msg = "error: old version".
Proof.
  destruct (error_row_escaped "error: old version") as (msg & Hrow & _ & Hplain).
  exists msg. split; [done|]. apply Hplain. vm_compute.
  repeat (constructor; [by split_and!|]). constructor.
Defined.

Lemma slen_spaces (n : nat) : slen (spaces n) = Z.of_nat n.
Proof. unfold slen. f_equal. induction n as [|n IH]; [done|]. simpl. by rewrite IH. Qed.

(** X17: with a width that is not negative, a marked-up line number is the
    plain formatted number with its digits wrapped in the tag: both start
    with the same run of spaces, and the spaces and the digits together are
    as wide as the larger of [ndigits] and the number of digits, so the
    numbers of changed rows line up with those of equal rows. *)
Theorem line_number_width (ndigits number : Z) (tag : string) :
  0 ≤ ndigits →
  ∃ pad,
    format_width ndigits number = spaces pad +:+ str number
    ∧ _MarkupNumber ndigits number tag
      = spaces pad +:+ "<" +:+ tag +:+ ">" +:+ str number +:+ "</" +:+ tag +:+ ">"
    ∧ Z.of_nat pad + slen (str number) = Z.max ndigits (slen (str number))
    ∧ slen (format_width ndigits number) = Z.max ndigits (slen (str number)).
Proof.
  intros Hwidth. exists (Z.to_nat (ndigits - slen (str number))).
  assert (format_width ndigits number
          = spaces (Z.to_nat (ndigits - slen (str number))) +:+ str number) as Hfmt.
  { unfold format_width. cbv zeta. by rewrite (proj2 (Z.ltb_ge _ _)). }
  split_and!; [done|done|lia|].
  rewrite Hfmt. unfold slen at 1. rewrite slength_app, Nat2Z.inj_add.
  fold (slen (spaces (Z.to_nat (ndigits - slen (str number))))).
  fold (slen (str number)). rewrite slen_spaces. lia.
Qed.

Lemma line_number_width_witness :
  ∃ pad,
    format_width 3 7 = spaces pad +:+ str 7
    ∧ _MarkupNumber 3 7 "u"
      = spaces pad +:+ "<" +:+ "u" +:+ ">" +:+ str 7 +:+ "</" +:+ "u" +:+ ">"
    ∧ Z.of_nat pad + slen (str 7) = Z.max 3 (slen (str 7))
    ∧ slen (format_width 3 7) = Z.max 3 (slen (str 7)).
Proof. apply (line_number_width 3 7 "u"). lia. Defined.

(** ** More on [FetchBase] *)

(** X18: when [FetchBase] returns a content, the content belongs to the
    patch and either the patch adds a new file (revision 0: empty text, not
    complete, nothing fetched or logged) or exactly the URL that [_MakeUrl]
    builds from the base, the file name and the revision was fetched, the
    fetch answered with status 200, the text is that answer converted by
    [_ToText], the content is complete, and only the message about the fetch
    was logged. *)
Theorem FetchBase_content `{UrlLib} `{FetchServices} (base : string) (patch : Patch)
    (content : Content) :
  snd (FetchBase base patch) = inr content →
  content_parent content = patch
  ∧ ((ParseRevision (patch_lines patch) = Some 0
      ∧ content = mkContent "" patch false
      ∧ fst (FetchBase base patch) = mkEffects [] [])
     ∨ (ParseRevision (patch_lines patch) ≠ Some 0
        ∧ Link_valid base = true
        ∧ ∃ url body,
            _MakeUrl base (patch_filename patch) (ParseRevision (patch_lines patch))
            = inr url
            ∧ urlfetch_fetch url = inr (200, body)
            ∧ content = mkContent (_ToText [body]) patch true
            ∧ fst (FetchBase base patch)
              = mkEffects [url] [(LogInfo, "Fetching " +:+ url)])).
Proof.
  unfold FetchBase. cbv zeta. case_bool_decide as Hrev.
  { simpl. intros [= <-]. split; [done|]. by left. }
  destruct (Link_valid base) eqn:Hlink; [|done]. simpl negb. cbv iota.
  destruct (_MakeUrl base _ _) as [e|url] eqn:Hurl; [done|].
  destruct (urlfetch_fetch url) as [[cls err]|[status_code body]] eqn:Hfetch; [done|].
  case_bool_decide as Hstatus; [done|].
  subst status_code. simpl. intros [= <-]. split; [done|].
  right. split_and!; [done..|]. by exists url, body.
Qed.

Lemma FetchBase_content_witness :
  content_parent (mkContent "" (mkPatch 1 "f.txt" []) false) = mkPatch 1 "f.txt" [].
Proof.
  apply (proj1 (@FetchBase_content simple_urlparse new_file_fetch "http://h/base"
                  (mkPatch 1 "f.txt" []) (mkContent "" (mkPatch 1 "f.txt" []) false)
                  eq_refl)).
Defined.

(** X19: for a valid base on a [googlecode.com] host and a patch whose
    header names no revision, [FetchBase] ends with the [AssertionError] of
    [_MakeUrl], not with a [FetchError]: nothing is fetched and nothing is
    logged. *)
Theorem FetchBase_googlecode_without_revision `{UrlLib} `{FetchServices}
    (base : string) (patch : Patch) :
  ParseRevision (patch_lines patch) = None →
  Link_valid base = true →
  endswith (netloc_of base) ".googlecode.com" = true →
  FetchBase base patch
  = (mkEffects [] [],
     inl (AssertionError "Can't access googlecode.com without a revision")).
Proof.
  intros Hrev Hlink Hhost. unfold FetchBase. cbv zeta.
  rewrite Hrev, bool_decide_eq_false_2, Hlink by done. simpl negb. cbv iota.
  unfold _MakeUrl. unfold netloc_of in Hhost.
  destruct (urlparse base) as [[[[[scheme netloc] path] params] query] fragment].
  by rewrite Hhost.
Qed.

Lemma FetchBase_googlecode_without_revision_witness :
  @FetchBase simple_urlparse quiet_fetch "http://proj.googlecode.com/svn/trunk"
    (mkPatch 1 "f.txt" [])
  = (mkEffects [] [],
     inl (AssertionError "Can't access googlecode.com without a revision")).
Proof.
  apply (@FetchBase_googlecode_without_revision simple_urlparse quiet_fetch
           "http://proj.googlecode.com/svn/trunk" (mkPatch 1 "f.txt" []));
    reflexivity.
Defined.
